(** * Ring / blockwise / striped attention (bpt.py): a shallow embedding

    The development follows [src/bpt.py].

    Arithmetic model.  The source computes in IEEE floating point.  Every
    finite quantity is taken as a real number here (rounding is not
    modelled, [astype] is the identity, [stop_gradient], [jax.checkpoint] and
    the [precision] argument do not change values).  Two special magnitudes
    of the source are kept apart from the finite scores:
      - [-jnp.inf], the initial running maximum ([NegInf]);
      - [jnp.finfo(dtype).min], the additive mask value ([FMin]), the most
        negative finite number of the working dtype.  In binary floating
        point it absorbs an addend of moderate size ([s + min = min]), sits
        below every score, and [exp(min - s)] underflows to [0]; [min + min]
        overflows to [-inf].
    Python integers and [int32] tile indices are unbounded naturals or
    integers (tile offsets stay far below [2^31]).

    Tensors are functions from indices to values, with the shape the source
    reads through [.shape] kept next to them; [reshape], [moveaxis] and
    [rearrange] become index arithmetic, [lax.scan] a fold over the scanned
    index, [lax.cond] an [if]. *)

From Stdlib Require Import Reals Lra Lia List Arith ZArith Bool String.
From Stdlib Require Import FunctionalExtensionality Permutation.
From Stdlib Require Import Floats.SpecFloat.
Import ListNotations.

Set Implicit Arguments.

(** ** Scores *)

Inductive score : Type :=
| NegInf
| FMin
| Fin (r : R).

(** Addition of two scores, as [attn_weights + bias_chunk] and
    [chunk_bias += ...] perform it. *)
Definition sadd (x y : score) : score :=
  match x, y with
  | NegInf, _ | _, NegInf => NegInf
  | FMin, FMin => NegInf
  | FMin, Fin _ | Fin _, FMin => FMin
  | Fin a, Fin b => Fin (a + b)
  end.

(** [jnp.maximum] *)
Definition smax (x y : score) : score :=
  match x, y with
  | NegInf, z | z, NegInf => z
  | FMin, z | z, FMin => z
  | Fin a, Fin b => Fin (Rmax a b)
  end.

(** [jnp.exp(x - m)] for a score [x] and a running maximum [m].  The source
    only evaluates it with [x] at most [m].  The remaining entries of the
    table are infinite or NaN in IEEE arithmetic ([exp] of a huge positive
    number, [-inf - -inf]); they are given the value [0] and no theorem
    below depends on them. *)
Definition sexp_sub (x m : score) : R :=
  match x, m with
  | Fin a, Fin b => exp (a - b)
  | FMin, FMin => 1%R
  | FMin, Fin _ => 0%R
  | NegInf, Fin _ | NegInf, FMin => 0%R
  | _, _ => 0%R
  end.

(** Sum and maximum over an axis of length [n]: [x.sum(axis=-1)],
    [jnp.max(x, axis=-1)]. *)
Fixpoint Rsum (f : nat -> R) (n : nat) : R :=
  match n with
  | O => 0%R
  | S n' => (Rsum f n' + f n')%R
  end.

Fixpoint smax_n (f : nat -> score) (n : nat) : score :=
  match n with
  | O => NegInf
  | S n' => smax (smax_n f n') (f n')
  end.

(** [lax.scan] over [jnp.arange(0, n)] when only the carry is kept. *)
Fixpoint scan {C : Type} (f : C -> nat -> C) (init : C) (n : nat) : C :=
  match n with
  | O => init
  | S n' => f (scan f init n') n'
  end.

(** ** Tensors *)

Definition shape4 : Type := (nat * nat * nat * nat)%type.

Record Tensor4 (V : Type) : Type := mkT4 {
  shape : shape4;
  at4 : nat -> nat -> nat -> nat -> V
}.

Definition dim0 (s : shape4) : nat := fst (fst (fst s)).
Definition dim1 (s : shape4) : nat := snd (fst (fst s)).
Definition dim2 (s : shape4) : nat := snd (fst s).
Definition dim3 (s : shape4) : nat := snd s.

(** [jnp.zeros(shape)] *)
Definition zeros4 (s : shape4) : Tensor4 R := mkT4 s (fun _ _ _ _ => 0%R).

(** NumPy broadcasting of one dimension, and the index read along a
    dimension that may have extent one. *)
Definition bdim (a b : nat) : nat := if a =? 1 then b else a.
Definition bidx (dim i : nat) : nat := if dim =? 1 then 0 else i.

Definition bshape (s t : shape4) : shape4 :=
  (bdim (dim0 s) (dim0 t), bdim (dim1 s) (dim1 t),
   bdim (dim2 s) (dim2 t), bdim (dim3 s) (dim3 t)).

(** Read of a tensor at an index of a shape it broadcasts to. *)
Definition bread {V : Type} (t : Tensor4 V) (b h i j : nat) : V :=
  at4 t (bidx (dim0 (shape t)) b) (bidx (dim1 (shape t)) h)
        (bidx (dim2 (shape t)) i) (bidx (dim3 (shape t)) j).

(** Broadcasting addition of two score tensors. *)
Definition tile_add (x y : Tensor4 score) : Tensor4 score :=
  mkT4 (bshape (shape x) (shape y))
       (fun b h i j => sadd (bread x b h i j) (bread y b h i j)).

(** [lax.dynamic_slice] clamps each start index so that the slice fits. *)
Definition clamp_start (start dim size : nat) : nat := Nat.min start (dim - size).

(** The slice of the last two axes taken by [_chunk_attention_bias]:
    start [(0, 0, query_offset, key_offset)], sizes
    [(shape[0], shape[1], min(shape[-2], qc), min(shape[-1], kc))]. *)
Definition dynamic_slice {V : Type} (t : Tensor4 V)
    (query_offset key_offset query_chunk_size key_chunk_size : nat) : Tensor4 V :=
  let s := shape t in
  let z2 := Nat.min (dim2 s) query_chunk_size in
  let z3 := Nat.min (dim3 s) key_chunk_size in
  mkT4 (dim0 s, dim1 s, z2, z3)
       (fun b h i j =>
          at4 t b h (clamp_start query_offset (dim2 s) z2 + i)
                    (clamp_start key_offset (dim3 s) z3 + j)).

(** ** Causal layouts and the bias tile *)

(** [causal_layout] is [None], ["normal"] or ["striped"]; any other value
    fails an assertion of the source. *)
Inductive layout : Type := normal | striped.

(** [not deterministic and attn_pdrop > 0.0] *)
Definition dropout_on (deterministic : bool) (attn_pdrop : R) : bool :=
  negb deterministic && (if Rlt_dec 0 attn_pdrop then true else false).

(** [(query_idx < key_idx) * jnp.finfo(dtype).min] after [query_idx += offset],
    reshaped to [(1, 1, query_chunk_size, key_chunk_size)]. *)
Definition causal_mask_value (query_chunk_size key_chunk_size : nat) (offset : Z)
  : Tensor4 score :=
  mkT4 (1, 1, query_chunk_size, key_chunk_size)
       (fun _ _ i j => if (Z.of_nat i + offset <? Z.of_nat j)%Z then FMin else Fin 0).

(** The offset of the striped layout. *)
Definition striped_offset (block_size query_offset key_offset : nat) : Z :=
  let query_block_idx := query_offset / block_size in
  let key_block_idx := key_offset / block_size in
  let query_offset_in_block := query_offset mod block_size in
  let key_offset_in_block := key_offset mod block_size in
  let exclude_diagonal := query_block_idx <? key_block_idx in
  (Z.of_nat query_offset_in_block - Z.of_nat key_offset_in_block
   - (if exclude_diagonal then 1 else 0))%Z.

(** [attn_dropout_slice * jnp.finfo(dtype).min] *)
Definition dropout_penalty (m : Tensor4 bool) : Tensor4 score :=
  mkT4 (shape m) (fun b h i j => if at4 m b h i j then FMin else Fin 0).

Definition lift_bias (t : Tensor4 R) : Tensor4 score :=
  mkT4 (shape t) (fun b h i j => Fin (at4 t b h i j)).

(** [_chunk_attention_bias].  [block_size] is [0] where the source passes
    [None] (from [blockwise_attn], which never selects the striped
    layout). *)
Definition _chunk_attention_bias (query_chunk_size key_chunk_size block_size : nat)
    (bias : option (Tensor4 R)) (deterministic : bool)
    (attn_dropout : option (Tensor4 bool)) (attn_pdrop : R)
    (causal_layout : option layout)
    (query_chunk_idx key_chunk_idx : nat) : Tensor4 score :=
  let query_offset := query_chunk_idx * query_chunk_size in
  let key_offset := key_chunk_idx * key_chunk_size in
  let chunk_bias := mkT4 (1, 1, 1, 1) (fun _ _ _ _ => Fin 0) in
  let chunk_bias :=
    match bias with
    | Some b => lift_bias (dynamic_slice b query_offset key_offset
                             query_chunk_size key_chunk_size)
    | None => chunk_bias
    end in
  let chunk_bias :=
    match causal_layout with
    | Some normal =>
        let offset := (Z.of_nat query_offset - Z.of_nat key_offset)%Z in
        tile_add chunk_bias (causal_mask_value query_chunk_size key_chunk_size offset)
    | Some striped =>
        let offset := striped_offset block_size query_offset key_offset in
        tile_add chunk_bias (causal_mask_value query_chunk_size key_chunk_size offset)
    | None => chunk_bias
    end in
  if dropout_on deterministic attn_pdrop then
    match attn_dropout with
    | Some m => tile_add chunk_bias
                  (dropout_penalty (dynamic_slice m query_offset key_offset
                                      query_chunk_size key_chunk_size))
    | None => chunk_bias
    end
  else chunk_bias.

(** The assertions of the striped branch. *)
Definition striped_asserts (query_chunk_size key_chunk_size block_size : nat) : bool :=
  (0 <? block_size) && (block_size mod query_chunk_size =? 0)
  && (block_size mod key_chunk_size =? 0).

(** ** The tiled forward pass *)

Definition tile4 : Type := nat -> nat -> nat -> nat -> R.

(** The streaming-softmax state [(numerator, denominator, max_score)] of
    [_blockwise_attention_fwd]: [numerator] is indexed [(b, q, h, d)],
    [denominator] and [max_score] are indexed [(b, h, q)]. *)
Record fwd_carry : Type := mkCarry {
  c_num : nat -> nat -> nat -> nat -> R;
  c_den : nat -> nat -> nat -> R;
  c_max : nat -> nat -> nat -> score
}.

(** [jnp.einsum('bqhd,bkhd->bhqk', q_chunk, k_chunk)] *)
Definition einsum_qk (dim_per_head : nat) (q_chunk k_chunk : tile4)
  : nat -> nat -> nat -> nat -> R :=
  fun b h q k => Rsum (fun d => q_chunk b q h d * k_chunk b k h d)%R dim_per_head.

(** Tile [n] of a tensor along its length axis: [reshape] to
    [(batch, num, chunk, heads, dim)], [moveaxis(1, 0)], then index [n]. *)
Definition chunk_of (t : Tensor4 R) (chunk_size n : nat) : tile4 :=
  fun b c h d => at4 t b (n * chunk_size + c) h d.

(** [skip_block] as [skip_upper_half] of the forward pass computes it. *)
Definition fwd_skip_block (causal_layout : option layout)
    (query_chunk_size key_chunk_size block_size : nat)
    (q_chunk_idx_start k_chunk_idx_start q_chunk_idx k_chunk_idx : nat) : bool :=
  match causal_layout with
  | None => false
  | Some l =>
      let q_lo := (q_chunk_idx_start + q_chunk_idx) * query_chunk_size in
      let k_lo := (k_chunk_idx_start + k_chunk_idx) * key_chunk_size in
      let q_lo := match l with striped => q_lo mod block_size | normal => q_lo end in
      let k_lo := match l with striped => k_lo mod block_size | normal => k_lo end in
      let q_hi := q_lo + query_chunk_size in
      q_hi <=? k_lo
  end.

(** [scan_kv_block] of the forward pass. *)
Definition fwd_scan_kv_block (key_chunk_size dim_per_head : nat) (scale : R)
    (_chunk_bias_fn : nat -> nat -> Tensor4 score)
    (q_chunk_idx_start k_chunk_idx_start : nat)
    (q_chunk : tile4) (q_chunk_idx : nat)
    (carry : fwd_carry) (k_chunk value_chunk : tile4) (k_chunk_idx : nat) : fwd_carry :=
  let prev_max_score_chunk := c_max carry in
  let raw := einsum_qk dim_per_head q_chunk k_chunk in
  let bias_chunk :=
    _chunk_bias_fn (q_chunk_idx_start + q_chunk_idx) (k_chunk_idx_start + k_chunk_idx) in
  let attn_weights b h q k :=
    sadd (Fin (raw b h q k / scale)) (bread bias_chunk b h q k) in
  let max_score_chunk b h q :=
    smax (prev_max_score_chunk b h q) (smax_n (attn_weights b h q) key_chunk_size) in
  let exp_weights b h q k := sexp_sub (attn_weights b h q k) (max_score_chunk b h q) in
  let exp_values b q h d :=
    Rsum (fun k => exp_weights b h q k * value_chunk b k h d)%R key_chunk_size in
  let correction b q h := sexp_sub (prev_max_score_chunk b h q) (max_score_chunk b h q) in
  mkCarry
    (fun b q h d => c_num carry b q h d * correction b q h + exp_values b q h d)%R
    (fun b h q =>
       c_den carry b h q
       * sexp_sub (prev_max_score_chunk b h q) (max_score_chunk b h q)
       + Rsum (exp_weights b h q) key_chunk_size)%R
    max_score_chunk.

(** [skip_upper_half] of the forward pass: [lax.cond] on [skip_block]. *)
Definition fwd_skip_upper_half (causal_layout : option layout)
    (query_chunk_size key_chunk_size block_size dim_per_head : nat) (scale : R)
    (_chunk_bias_fn : nat -> nat -> Tensor4 score)
    (q_chunk_idx_start k_chunk_idx_start : nat)
    (q_chunk : tile4) (q_chunk_idx : nat)
    (carry : fwd_carry) (key_chunk value_chunk : tile4) (k_chunk_idx : nat) : fwd_carry :=
  if fwd_skip_block causal_layout query_chunk_size key_chunk_size block_size
       q_chunk_idx_start k_chunk_idx_start q_chunk_idx k_chunk_idx
  then carry
  else fwd_scan_kv_block key_chunk_size dim_per_head scale _chunk_bias_fn
         q_chunk_idx_start k_chunk_idx_start q_chunk q_chunk_idx
         carry key_chunk value_chunk k_chunk_idx.

(** The slice of the carry that belongs to query tile [n]. *)
Definition carry_chunk (carry : fwd_carry) (query_chunk_size n : nat) : fwd_carry :=
  mkCarry (fun b c h d => c_num carry b (n * query_chunk_size + c) h d)
          (fun b h c => c_den carry b h (n * query_chunk_size + c))
          (fun b h c => c_max carry b h (n * query_chunk_size + c)).

(** The stacked per-tile results put back along the length axis. *)
Definition carry_unchunk (query_chunk_size : nat) (tiles : nat -> fwd_carry) : fwd_carry :=
  mkCarry
    (fun b pos h d =>
       c_num (tiles (pos / query_chunk_size)) b (pos mod query_chunk_size) h d)
    (fun b h pos => c_den (tiles (pos / query_chunk_size)) b h (pos mod query_chunk_size))
    (fun b h pos => c_max (tiles (pos / query_chunk_size)) b h (pos mod query_chunk_size)).

(** The keyword arguments [blockwise_kwargs] that decide values; [dtype],
    [policy], [precision] and [prevent_cse] do not. *)
Record blockwise_kwargs (key : Type) : Type := mkKwargs {
  kw_causal_layout : option layout;
  kw_query_chunk_size : nat;
  kw_key_chunk_size : nat;
  kw_block_size : nat;
  kw_deterministic : bool;
  kw_dropout_rng : key;
  kw_attn_pdrop : R
}.

Section Kernels.

(** [jax.random]: the key type, [split] and [bernoulli] are taken as given. *)
Variable key : Type.
Variable random_split : key -> key * key.
Variable random_bernoulli : key -> R -> shape4 -> nat -> nat -> nat -> nat -> bool.

(** The dropout mask drawn once over the whole local sequence. *)
Definition draw_attn_dropout (deterministic : bool) (dropout_rng : key) (attn_pdrop : R)
    (batch num_heads q_len kv_len : nat) : option (Tensor4 bool) :=
  if dropout_on deterministic attn_pdrop then
    let attn_dropout_rng := fst (random_split dropout_rng) in
    Some (mkT4 (batch, num_heads, q_len, kv_len)
               (random_bernoulli attn_dropout_rng attn_pdrop
                  (batch, num_heads, q_len, kv_len)))
  else None.

(** [_blockwise_attention_fwd].  The assertions on the shape of [bias]
    and the divisibility that [reshape] needs are preconditions of the
    theorems, not part of the value. *)
Definition _blockwise_attention_fwd (q k v : Tensor4 R) (carry : fwd_carry)
    (q_chunk_idx_start k_chunk_idx_start : nat) (bias : option (Tensor4 R))
    (kw : blockwise_kwargs key) : fwd_carry :=
  let causal_layout := kw_causal_layout kw in
  let query_chunk_size := kw_query_chunk_size kw in
  let key_chunk_size := kw_key_chunk_size kw in
  let block_size := kw_block_size kw in
  let batch := dim0 (shape q) in
  let q_len := dim1 (shape q) in
  let num_heads := dim2 (shape q) in
  let dim_per_head := dim3 (shape q) in
  let kv_len := dim1 (shape k) in
  let num_kv := kv_len / key_chunk_size in
  let scale := sqrt (INR dim_per_head) in
  let attn_dropout :=
    draw_attn_dropout (kw_deterministic kw) (kw_dropout_rng kw) (kw_attn_pdrop kw)
      batch num_heads q_len kv_len in
  let _chunk_bias_fn :=
    _chunk_attention_bias query_chunk_size key_chunk_size block_size bias
      (kw_deterministic kw) attn_dropout (kw_attn_pdrop kw) causal_layout in
  let scan_attention q_chunk_idx :=
    let q_chunk := chunk_of q query_chunk_size q_chunk_idx in
    scan (fun carry k_chunk_idx =>
            fwd_skip_upper_half causal_layout query_chunk_size key_chunk_size block_size
              dim_per_head scale _chunk_bias_fn q_chunk_idx_start k_chunk_idx_start
              q_chunk q_chunk_idx carry
              (chunk_of k key_chunk_size k_chunk_idx)
              (chunk_of v key_chunk_size k_chunk_idx) k_chunk_idx)
         (carry_chunk carry query_chunk_size q_chunk_idx) num_kv in
  carry_unchunk query_chunk_size scan_attention.

(** ** The tiled backward pass *)

(** [lax.scan] that also stacks the per-step outputs: the carry after [n]
    steps and the output of step [i]. *)
Definition scan_out {C Y : Type} (f : C -> nat -> C * Y) (init : C) (i : nat) : Y :=
  snd (f (scan (fun c j => fst (f c j)) init i) i).

Definition scan_carry {C Y : Type} (f : C -> nat -> C * Y) (init : C) (n : nat) : C :=
  scan (fun c j => fst (f c j)) init n.

(** [scan_kv_block] of the backward pass: the new [dq_chunk] and the pair
    [(dk_chunk, dv_chunk)]. *)
Definition bwd_scan_kv_block (batch query_chunk_size key_chunk_size num_heads
    dim_per_head : nat) (scale : R)
    (_chunk_bias_fn : nat -> nat -> Tensor4 score)
    (q_chunk_idx_start k_chunk_idx_start : nat)
    (q_chunk g_chunk : tile4) (dl_part : nat -> nat -> nat -> R)
    (denominator_chunk : nat -> nat -> nat -> R)
    (max_score_chunk : nat -> nat -> nat -> score) (q_chunk_idx : nat)
    (dq_chunk : tile4) (k_chunk value_chunk : tile4) (k_chunk_idx : nat)
  : tile4 * (Tensor4 R * Tensor4 R) :=
  let raw := einsum_qk dim_per_head q_chunk k_chunk in
  let bias_chunk :=
    _chunk_bias_fn (q_chunk_idx_start + q_chunk_idx) (k_chunk_idx_start + k_chunk_idx) in
  let attn_weights b h q k :=
    sadd (Fin (raw b h q k / scale)) (bread bias_chunk b h q k) in
  let exp_weights b h q k :=
    (sexp_sub (attn_weights b h q k) (max_score_chunk b h q)
     / denominator_chunk b h q)%R in
  let ds := einsum_qk dim_per_head g_chunk value_chunk in
  let dl b h q k := ((ds b h q k - dl_part b h q) * exp_weights b h q k)%R in
  let dq_chunk' b q h d :=
    (dq_chunk b q h d
     + Rsum (fun k => dl b h q k * k_chunk b k h d) key_chunk_size / scale)%R in
  let dk_chunk b k h d :=
    (Rsum (fun q => q_chunk b q h d * dl b h q k) query_chunk_size / scale)%R in
  let dv_chunk b k h d :=
    Rsum (fun q => exp_weights b h q k * g_chunk b q h d)%R query_chunk_size in
  (dq_chunk',
   (mkT4 (batch, key_chunk_size, num_heads, dim_per_head) dk_chunk,
    mkT4 (batch, key_chunk_size, num_heads, dim_per_head) dv_chunk)).

(** [skip_block] as [skip_upper_half] of the backward pass computes it. *)
Definition bwd_skip_block (causal_layout : option layout)
    (query_chunk_size key_chunk_size block_size : nat)
    (q_chunk_idx_start k_chunk_idx_start q_chunk_idx k_chunk_idx : nat) : bool :=
  match causal_layout with
  | None => false
  | Some l =>
      let q_lo := (q_chunk_idx_start + q_chunk_idx) * query_chunk_size in
      let k_lo := (k_chunk_idx_start + k_chunk_idx) * key_chunk_size in
      let q_lo := match l with striped => q_lo mod block_size | normal => q_lo end in
      let k_lo := match l with striped => k_lo mod block_size | normal => k_lo end in
      let q_hi := q_lo + query_chunk_size in
      q_hi <=? k_lo
  end.

(** [skip_upper_half] of the backward pass. *)
Definition bwd_skip_upper_half (causal_layout : option layout)
    (batch query_chunk_size key_chunk_size block_size num_heads dim_per_head : nat)
    (scale : R) (_chunk_bias_fn : nat -> nat -> Tensor4 score)
    (q_chunk_idx_start k_chunk_idx_start : nat)
    (q_chunk g_chunk : tile4) (dl_part : nat -> nat -> nat -> R)
    (denominator_chunk : nat -> nat -> nat -> R)
    (max_score_chunk : nat -> nat -> nat -> score) (q_chunk_idx : nat)
    (carry : tile4) (key_chunk value_chunk : tile4) (k_chunk_idx : nat)
  : tile4 * (Tensor4 R * Tensor4 R) :=
  if bwd_skip_block causal_layout query_chunk_size key_chunk_size block_size
       q_chunk_idx_start k_chunk_idx_start q_chunk_idx k_chunk_idx
  then (carry,
        (zeros4 (batch, key_chunk_size, num_heads, dim_per_head),
         zeros4 (batch, key_chunk_size, num_heads, dim_per_head)))
  else bwd_scan_kv_block batch query_chunk_size key_chunk_size num_heads dim_per_head
         scale _chunk_bias_fn q_chunk_idx_start k_chunk_idx_start q_chunk g_chunk
         dl_part denominator_chunk max_score_chunk q_chunk_idx
         carry key_chunk value_chunk k_chunk_idx.

(** The gradients [(dq, dk, dv)] in the original layout. *)
Record grads : Type := mkGrads {
  g_dq : Tensor4 R;
  g_dk : Tensor4 R;
  g_dv : Tensor4 R
}.

(** The inner scan of the backward pass for query tile [q_chunk_idx]: a
    function of the carry [dq_chunk] and the key tile index. *)
Definition bwd_inner (q k v g : Tensor4 R) (output : tile4) (carry : fwd_carry)
    (q_chunk_idx_start k_chunk_idx_start : nat) (bias : option (Tensor4 R))
    (kw : blockwise_kwargs key) (q_chunk_idx : nat)
  : tile4 -> nat -> tile4 * (Tensor4 R * Tensor4 R) :=
  let query_chunk_size := kw_query_chunk_size kw in
  let key_chunk_size := kw_key_chunk_size kw in
  let batch := dim0 (shape q) in
  let q_len := dim1 (shape q) in
  let num_heads := dim2 (shape q) in
  let dim_per_head := dim3 (shape q) in
  let kv_len := dim1 (shape k) in
  let scale := sqrt (INR dim_per_head) in
  let attn_dropout :=
    draw_attn_dropout (kw_deterministic kw) (kw_dropout_rng kw) (kw_attn_pdrop kw)
      batch num_heads q_len kv_len in
  let _chunk_bias_fn :=
    _chunk_attention_bias query_chunk_size key_chunk_size (kw_block_size kw) bias
      (kw_deterministic kw) attn_dropout (kw_attn_pdrop kw) (kw_causal_layout kw) in
  let q_chunk := chunk_of q query_chunk_size q_chunk_idx in
  let g_chunk := chunk_of g query_chunk_size q_chunk_idx in
  let output_chunk b c h d := output b (q_chunk_idx * query_chunk_size + c) h d in
  let denominator_chunk := c_den (carry_chunk carry query_chunk_size q_chunk_idx) in
  let max_score_chunk := c_max (carry_chunk carry query_chunk_size q_chunk_idx) in
  let dl_part b h q :=
    Rsum (fun d => g_chunk b q h d * output_chunk b q h d)%R dim_per_head in
  fun dq_chunk k_chunk_idx =>
    bwd_skip_upper_half (kw_causal_layout kw) batch query_chunk_size key_chunk_size
      (kw_block_size kw) num_heads dim_per_head scale _chunk_bias_fn
      q_chunk_idx_start k_chunk_idx_start q_chunk g_chunk dl_part
      denominator_chunk max_score_chunk q_chunk_idx dq_chunk
      (chunk_of k key_chunk_size k_chunk_idx)
      (chunk_of v key_chunk_size k_chunk_idx) k_chunk_idx.

(** [_blockwise_attention_bwd].  [dq], [dk], [dv] are the incoming
    accumulators; [output] and [carry] (its [denominator] and [max_score])
    come from the forward pass. *)
Definition _blockwise_attention_bwd (q k v g : Tensor4 R)
    (dq dk dv : tile4) (output : tile4) (carry : fwd_carry)
    (q_chunk_idx_start k_chunk_idx_start : nat) (bias : option (Tensor4 R))
    (kw : blockwise_kwargs key) : grads :=
  let query_chunk_size := kw_query_chunk_size kw in
  let key_chunk_size := kw_key_chunk_size kw in
  let batch := dim0 (shape q) in
  let q_len := dim1 (shape q) in
  let num_heads := dim2 (shape q) in
  let dim_per_head := dim3 (shape q) in
  let kv_len := dim1 (shape k) in
  let num_q := q_len / query_chunk_size in
  let inner := bwd_inner q k v g output carry q_chunk_idx_start k_chunk_idx_start
                 bias kw in
  let dq_init n : tile4 := fun b c h d => dq b (n * query_chunk_size + c) h d in
  (* scan_attention: carry (dk, dv) stacked by key tile, output dq_chunk *)
  let scan_attention (acc : (nat -> tile4) * (nat -> tile4)) (q_chunk_idx : nat)
    : (nat -> tile4) * (nat -> tile4) :=
    let dk_part kt := at4 (fst (scan_out (inner q_chunk_idx) (dq_init q_chunk_idx) kt)) in
    let dv_part kt := at4 (snd (scan_out (inner q_chunk_idx) (dq_init q_chunk_idx) kt)) in
    (fun kt b c h d => (fst acc kt b c h d + dk_part kt b c h d)%R,
     fun kt b c h d => (snd acc kt b c h d + dv_part kt b c h d)%R) in
  let dq_chunk_of n :=
    scan_carry (inner n) (dq_init n) (kv_len / key_chunk_size) in
  let dkv :=
    scan scan_attention
      ((fun kt b c h d => dk b (kt * key_chunk_size + c) h d),
       (fun kt b c h d => dv b (kt * key_chunk_size + c) h d)) num_q in
  mkGrads
    (mkT4 (batch, q_len, num_heads, dim_per_head)
       (fun b pos h d =>
          dq_chunk_of (pos / query_chunk_size) b (pos mod query_chunk_size) h d))
    (mkT4 (batch, kv_len, num_heads, dim_per_head)
       (fun b pos h d => fst dkv (pos / key_chunk_size) b (pos mod key_chunk_size) h d))
    (mkT4 (batch, kv_len, num_heads, dim_per_head)
       (fun b pos h d => snd dkv (pos / key_chunk_size) b (pos mod key_chunk_size) h d)).

(** ** The single-device entry point *)

(** The state of [blockwise_attn]: [numerator] and [denominator] both have
    shape [(batch, query_chunk_size, heads, dim)], [max_score] has shape
    [(batch, query_chunk_size, heads, 1)]. *)
Record attn_carry : Type := mkAttnCarry {
  a_num : tile4;
  a_den : tile4;
  a_max : nat -> nat -> nat -> score
}.

(** [scan_kv_block] of [blockwise_attn]; the bias tile is read after
    [moveaxis(bias_chunk, 1, 2)]. *)
Definition attn_scan_kv_block (key_chunk_size dim_per_head : nat)
    (_chunk_bias_fn : nat -> nat -> Tensor4 score)
    (query_chunk : tile4) (query_chunk_idx : nat)
    (carry : attn_carry) (key_chunk value_chunk : tile4) (key_chunk_idx : nat)
  : attn_carry :=
  let prev_max_score := a_max carry in
  let bias_chunk := _chunk_bias_fn query_chunk_idx key_chunk_idx in
  let attn_weights b q h k :=
    sadd (Fin (Rsum (fun d => query_chunk b q h d * key_chunk b k h d)%R dim_per_head))
         (bread bias_chunk b h q k) in
  let max_score b q h :=
    smax (prev_max_score b q h) (smax_n (attn_weights b q h) key_chunk_size) in
  let exp_weights b q h k := sexp_sub (attn_weights b q h k) (max_score b q h) in
  let exp_values b q h d :=
    Rsum (fun k => exp_weights b q h k * value_chunk b k h d)%R key_chunk_size in
  let correction b q h := sexp_sub (prev_max_score b q h) (max_score b q h) in
  mkAttnCarry
    (fun b q h d => a_num carry b q h d * correction b q h + exp_values b q h d)%R
    (fun b q h d =>
       a_den carry b q h d * correction b q h
       + Rsum (exp_weights b q h) key_chunk_size)%R
    max_score.

(** [skip_block] of [blockwise_attn]. *)
Definition attn_skip_block (causal : bool) (query_chunk_idx key_chunk_idx : nat) : bool :=
  if causal then query_chunk_idx <? key_chunk_idx else false.

Definition attn_skip_upper_half (causal : bool) (key_chunk_size dim_per_head : nat)
    (_chunk_bias_fn : nat -> nat -> Tensor4 score)
    (query_chunk : tile4) (query_chunk_idx : nat)
    (carry : attn_carry) (key_chunk value_chunk : tile4) (key_chunk_idx : nat)
  : attn_carry :=
  if attn_skip_block causal query_chunk_idx key_chunk_idx then carry
  else attn_scan_kv_block key_chunk_size dim_per_head _chunk_bias_fn
         query_chunk query_chunk_idx carry key_chunk value_chunk key_chunk_idx.

(** [blockwise_attn] *)
Definition blockwise_attn (query key_ value : Tensor4 R) (bias : option (Tensor4 R))
    (deterministic : bool) (dropout_rng : key) (attn_pdrop : R) (causal : bool)
    (query_chunk_size key_chunk_size : nat) : Tensor4 R :=
  let batch := dim0 (shape query) in
  let q_len := dim1 (shape query) in
  let num_heads := dim2 (shape query) in
  let dim_per_head := dim3 (shape query) in
  let kv_len := dim1 (shape key_) in
  let query :=
    mkT4 (shape query)
      (fun b pos h d => at4 query b pos h d / sqrt (INR dim_per_head))%R in
  let num_q := q_len / query_chunk_size in
  let num_kv := kv_len / key_chunk_size in
  let attn_dropout :=
    draw_attn_dropout deterministic dropout_rng attn_pdrop
      batch num_heads q_len kv_len in
  let _chunk_bias_fn :=
    _chunk_attention_bias query_chunk_size key_chunk_size 0 bias deterministic
      attn_dropout attn_pdrop (if causal then Some normal else None) in
  let scan_attention query_chunk_idx : tile4 :=
    let query_chunk := chunk_of query query_chunk_size query_chunk_idx in
    let init_carry :=
      mkAttnCarry (fun _ _ _ _ => 0%R) (fun _ _ _ _ => 0%R) (fun _ _ _ => NegInf) in
    let final :=
      scan (fun carry key_chunk_idx =>
              attn_skip_upper_half causal key_chunk_size dim_per_head _chunk_bias_fn
                query_chunk query_chunk_idx carry
                (chunk_of key_ key_chunk_size key_chunk_idx)
                (chunk_of value key_chunk_size key_chunk_idx) key_chunk_idx)
           init_carry num_kv in
    fun b c h d => (a_num final b c h d / a_den final b c h d)%R in
  mkT4 (batch, num_q * query_chunk_size, num_heads, dim_per_head)
       (fun b pos h d =>
          scan_attention (pos / query_chunk_size) b (pos mod query_chunk_size) h d).

(** ** The ring *)

(** [lax.ppermute]: rank [dst] receives the value of rank [src] for each
    pair [(src, dst)] of [perm]; a rank that receives nothing gets zeros. *)
Definition ppermute {T : Type} (zero : T) (perm : list (nat * nat)) (x : nat -> T)
  : nat -> T :=
  fun rank =>
    match find (fun p => snd p =? rank) perm with
    | Some (src, _) => x src
    | None => zero
    end.

(** [[(i, (i + 1) % axis_size) for i in range(axis_size)]] *)
Definition ring_perm (axis_size : nat) : list (nat * nat) :=
  map (fun i => (i, (i + 1) mod axis_size)) (seq 0 axis_size).

(** [lax.dynamic_slice_in_dim(t, start, size, axis=-1)] *)
Definition dynamic_slice_in_dim {V : Type} (t : Tensor4 V) (start size : nat)
  : Tensor4 V :=
  let s := shape t in
  mkT4 (dim0 s, dim1 s, dim2 s, size)
       (fun b h i j => at4 t b h i (clamp_start start (dim3 s) size + j)).

(** [(lax.axis_index(axis_name) - idx) % axis_size] *)
Definition ring_k_block_idx (axis_size rank idx : nat) : nat :=
  Z.to_nat ((Z.of_nat rank - Z.of_nat idx) mod Z.of_nat axis_size).

(** What one participant carries from hop to hop in the forward pass. *)
Record ring_state : Type := mkRing {
  rs_carry : fwd_carry;
  rs_k : Tensor4 R;
  rs_v : Tensor4 R
}.

(** [scan_kv_block] of [_ring_attention_fwd], run by every rank of the
    ring at once: [q], [attn_bias] and the state are indexed by rank;
    [kv_len] is that of the key shard the call started with. *)
Definition ring_fwd_scan_kv_block (axis_size : nat) (q attn_bias : nat -> Tensor4 R)
    (kv_len : nat -> nat) (kw : blockwise_kwargs key)
    (state : nat -> ring_state) (idx : nat) : nat -> ring_state :=
  let query_chunk_size := kw_query_chunk_size kw in
  let key_chunk_size := kw_key_chunk_size kw in
  let local rank : fwd_carry :=
    let block_size := dim1 (shape (q rank)) in
    let attn_bias_slice :=
      dynamic_slice_in_dim (attn_bias rank)
        (ring_k_block_idx axis_size rank idx * kv_len rank) (kv_len rank) in
    let q_block_idx := rank in
    let k_block_idx := ring_k_block_idx axis_size rank idx in
    let q_chunk_idx_start := q_block_idx * (block_size / query_chunk_size) in
    let k_chunk_idx_start := k_block_idx * (block_size / key_chunk_size) in
    _blockwise_attention_fwd (q rank) (rs_k (state rank)) (rs_v (state rank))
      (rs_carry (state rank)) q_chunk_idx_start k_chunk_idx_start
      (Some attn_bias_slice) kw in
  let k' := ppermute (zeros4 (0, 0, 0, 0)) (ring_perm axis_size)
              (fun rank => rs_k (state rank)) in
  let v' := ppermute (zeros4 (0, 0, 0, 0)) (ring_perm axis_size)
              (fun rank => rs_v (state rank)) in
  fun rank => mkRing (local rank) (k' rank) (v' rank).

(** [_ring_attention_fwd] on a ring of [axis_size] participants: for each
    rank the output and the saved [(numerator, denominator, max_score)].
    The [float32_logits] argument only selects a cast and is left out. *)
Definition _ring_attention_fwd (axis_size : nat) (q k v attn_bias : nat -> Tensor4 R)
    (kw : blockwise_kwargs key) : nat -> Tensor4 R * fwd_carry :=
  let init rank :=
    mkRing (mkCarry (fun _ _ _ _ => 0%R) (fun _ _ _ => 0%R) (fun _ _ _ => NegInf))
           (k rank) (v rank) in
  let final :=
    scan (ring_fwd_scan_kv_block axis_size q attn_bias
            (fun rank => dim1 (shape (k rank))) kw) init axis_size in
  fun rank =>
    let c := rs_carry (final rank) in
    (mkT4 (shape (q rank))
          (fun b pos h d => c_num c b pos h d / c_den c b h pos)%R, c).

(** [ring_attention] *)
Definition ring_attention (axis_size : nat) (q k v attn_bias : nat -> Tensor4 R)
    (kw : blockwise_kwargs key) : nat -> Tensor4 R :=
  fun rank => fst (_ring_attention_fwd axis_size q k v attn_bias kw rank).

(** What one participant carries from hop to hop in the backward pass. *)
Record ring_bwd_state : Type := mkRingBwd {
  rb_dq : Tensor4 R;
  rb_dk : Tensor4 R;
  rb_dv : Tensor4 R;
  rb_k : Tensor4 R;
  rb_v : Tensor4 R
}.

(** The saved values [res] of the forward pass, for one rank. *)
Record ring_res : Type := mkRes {
  res_output : Tensor4 R;
  res_q : Tensor4 R;
  res_k : Tensor4 R;
  res_v : Tensor4 R;
  res_attn_bias : Tensor4 R;
  res_carry : fwd_carry
}.

(** [scan_kv_block] of [_ring_attention_bwd], for all ranks at once. *)
Definition ring_bwd_scan_kv_block (axis_size : nat) (res : nat -> ring_res)
    (g : nat -> Tensor4 R) (kw : blockwise_kwargs key)
    (state : nat -> ring_bwd_state) (idx : nat) : nat -> ring_bwd_state :=
  let query_chunk_size := kw_query_chunk_size kw in
  let key_chunk_size := kw_key_chunk_size kw in
  let local rank : grads :=
    let q := res_q (res rank) in
    let kv_len := dim1 (shape (res_k (res rank))) in
    let block_size := dim1 (shape q) in
    let attn_bias_slice :=
      dynamic_slice_in_dim (res_attn_bias (res rank))
        (ring_k_block_idx axis_size rank idx * kv_len) kv_len in
    let q_block_idx := rank in
    let k_block_idx := ring_k_block_idx axis_size rank idx in
    let q_chunk_idx_start := q_block_idx * (block_size / query_chunk_size) in
    let k_chunk_idx_start := k_block_idx * (block_size / key_chunk_size) in
    _blockwise_attention_bwd q (rb_k (state rank)) (rb_v (state rank)) (g rank)
      (at4 (rb_dq (state rank))) (at4 (rb_dk (state rank))) (at4 (rb_dv (state rank)))
      (at4 (res_output (res rank))) (res_carry (res rank))
      q_chunk_idx_start k_chunk_idx_start (Some attn_bias_slice) kw in
  let rot (f : nat -> Tensor4 R) :=
    ppermute (zeros4 (0, 0, 0, 0)) (ring_perm axis_size) f in
  fun rank =>
    mkRingBwd (g_dq (local rank))
              (rot (fun r => g_dk (local r)) rank)
              (rot (fun r => g_dv (local r)) rank)
              (rot (fun r => rb_k (state r)) rank)
              (rot (fun r => rb_v (state r)) rank).

(** [_ring_attention_bwd]: the gradients [(dq, dk, dv)] of every rank. *)
Definition _ring_attention_bwd (axis_size : nat) (kw : blockwise_kwargs key)
    (res : nat -> ring_res) (g : nat -> Tensor4 R) : nat -> grads :=
  let init rank :=
    mkRingBwd (zeros4 (shape (res_q (res rank))))
              (zeros4 (shape (res_k (res rank))))
              (zeros4 (shape (res_v (res rank))))
              (res_k (res rank)) (res_v (res rank)) in
  let final := scan (ring_bwd_scan_kv_block axis_size res g kw) init axis_size in
  fun rank => mkGrads (rb_dq (final rank)) (rb_dk (final rank)) (rb_dv (final rank)).

(** The residuals [_ring_attention_fwd] hands to the backward pass. *)
Definition ring_residuals (axis_size : nat) (q k v attn_bias : nat -> Tensor4 R)
    (kw : blockwise_kwargs key) : nat -> ring_res :=
  fun rank =>
    let r := _ring_attention_fwd axis_size q k v attn_bias kw rank in
    mkRes (fst r) (q rank) (k rank) (v rank) (attn_bias rank) (snd r).

End Kernels.

(** ** Token permutation *)

Definition opt_list {X : Type} (o : option X) : list X :=
  match o with Some x => [x] | None => [] end.

(** The elements [f a b] for [a < n] and [b < m], [a] outermost. *)
Definition tabulate2 {X : Type} (n m : nat) (f : nat -> nat -> option X) : list X :=
  flat_map (fun a => flat_map (fun b => opt_list (f a b)) (seq 0 m)) (seq 0 n).

(** A row of length [rows * cols], read as a [rows x cols] matrix in
    row-major order, written out column by column: the [einops] pattern
    [(r c) -> (c r)]. *)
Definition transpose_flat {X : Type} (rows cols : nat) (l : list X) : list X :=
  tabulate2 cols rows (fun c r => nth_error l (r * cols + c)).

(** Arrays of rank two [(b, length)] and rank three [(b, length, x)]; the
    trailing axis of a rank-three array is carried as one element. *)
Inductive ndarray (A : Type) : Type :=
| Rank2 (a : list (list A))
| Rank3 (a : list (list (list A))).

Arguments Rank2 {A} a.
Arguments Rank3 {A} a.

(** The length axis splits into groups of [d]: [einops] raises otherwise. *)
Definition splits_by {X : Type} (d : nat) (rows : list (list X)) : bool :=
  (0 <? d) && forallb (fun row => List.length row mod d =? 0) rows.

(** [rearrange(tokens, "b (n d) -> b (d n)", d=num_devices)]: defined on
    rank-two arrays only. *)
Definition rearrange_nd_dn {A : Type} (tokens : ndarray A) (d : nat)
  : option (ndarray A) :=
  match tokens with
  | Rank2 rows =>
      if splits_by d rows
      then Some (Rank2 (map (fun row => transpose_flat (List.length row / d) d row) rows))
      else None
  | Rank3 _ => None
  end.

(** [rearrange(outputs, "b (d n) x -> b (n d) x", d=num_devices)]: defined
    on rank-three arrays only. *)
Definition rearrange_dnx_ndx {A : Type} (outputs : ndarray A) (d : nat)
  : option (ndarray A) :=
  match outputs with
  | Rank3 rows =>
      if splits_by d rows
      then Some (Rank3 (map (fun row => transpose_flat d (List.length row / d) row) rows))
      else None
  | Rank2 _ => None
  end.

(** [permute_tokens] *)
Definition permute_tokens {A : Type} (attention_type : string) (tokens : ndarray A)
    (num_devices : nat) : option (ndarray A) :=
  if String.eqb attention_type "striped" then rearrange_nd_dn tokens num_devices
  else Some tokens.

(** [unpermute_outputs] *)
Definition unpermute_outputs {A : Type} (attention_type : string) (outputs : ndarray A)
    (num_devices : nat) : option (ndarray A) :=
  if String.eqb attention_type "striped" then rearrange_dnx_ndx outputs num_devices
  else Some outputs.

(** ** Blockwise feed-forward *)

(** [blockwise_ffn] on [inputs] of shape [(batch, seq_len, dim)], a feature
    vector being one element.  After ['b (c n) d -> b c n d'] with
    [c = chunk_size] the scan runs over axis [ndim - 2], the [n] axis: step
    [i] applies [remat_ffn] to the [(batch, c, dim)] slice at [n = i], and
    the outputs are stacked back on that axis before
    ['b c n d -> b (c n) d']. *)
Definition blockwise_ffn {X Y : Type}
    (remat_ffn : bool -> list (list X) -> list (list Y))
    (inputs : list (list X)) (chunk_size : nat) (deterministic : bool)
  : list (list Y) :=
  let seq_len := match inputs with [] => 0 | row :: _ => List.length row end in
  let n := seq_len / chunk_size in
  let hidden_states i :=
    map (fun row =>
           flat_map (fun c => opt_list (nth_error row (c * n + i))) (seq 0 chunk_size))
        inputs in
  let outputs i := remat_ffn deterministic (hidden_states i) in
  map (fun b =>
         tabulate2 chunk_size n
           (fun c i =>
              match nth_error (outputs i) b with
              | Some row => nth_error row c
              | None => None
              end))
      (seq 0 (List.length inputs)).

(** ** Reference definitions *)

(** The skip rule in the words of the specification: for the contiguous
    layout a pair of tiles is skipped when the query tile's position range
    lies entirely below the key tile's ([q_hi <= k_lo], from the global tile
    indices); for the striped layout the same with positions taken modulo
    [block_size]; never for layout none. *)
Definition spec_skip (causal_layout : option layout)
    (query_chunk_size key_chunk_size block_size q_tile_idx k_tile_idx : nat) : bool :=
  match causal_layout with
  | None => false
  | Some normal =>
      q_tile_idx * query_chunk_size + query_chunk_size <=? k_tile_idx * key_chunk_size
  | Some striped =>
      (q_tile_idx * query_chunk_size) mod block_size + query_chunk_size
      <=? (k_tile_idx * key_chunk_size) mod block_size
  end.

(** Dense scaled-dot-product attention, [softmax(Q K^T / sqrt(d)) V],
    with the full score matrix materialised. *)
Definition dense_scores (query key_ : Tensor4 R) (b h i j : nat) : R :=
  (Rsum (fun d => at4 query b i h d * at4 key_ b j h d) (dim3 (shape query))
   / sqrt (INR (dim3 (shape query))))%R.

Definition softmax (n : nat) (s : nat -> R) (j : nat) : R :=
  (exp (s j) / Rsum (fun j' => exp (s j')) n)%R.

Definition dense_attention (query key_ value : Tensor4 R) : Tensor4 R :=
  mkT4 (shape query)
       (fun b i h d =>
          Rsum (fun j => softmax (dim1 (shape key_)) (dense_scores query key_ b h i) j
                         * at4 value b j h d) (dim1 (shape key_)))%R.

(** Causal attention on a whole sequence: query position [i] attends to
    the key positions [j <= i]. *)
Definition causal_attention (query key_ value : Tensor4 R) : Tensor4 R :=
  mkT4 (shape query)
       (fun b i h d =>
          Rsum (fun j => if j <=? i
                         then exp (dense_scores query key_ b h i j) * at4 value b j h d
                         else 0) (dim1 (shape key_))
          / Rsum (fun j => if j <=? i then exp (dense_scores query key_ b h i j) else 0)
                 (dim1 (shape key_)))%R.

(** Chunked application in the words of the specification: the sequence is
    cut into chunks of [chunk_size] consecutive positions, the function is
    applied to each chunk on its own, and the results are concatenated in
    order. *)
Definition spec_blockwise_ffn {X Y : Type}
    (remat_ffn : bool -> list (list X) -> list (list Y))
    (inputs : list (list X)) (chunk_size : nat) (deterministic : bool)
  : list (list Y) :=
  let seq_len := match inputs with [] => 0 | row :: _ => List.length row end in
  let n := seq_len / chunk_size in
  let chunk j := map (fun row => firstn chunk_size (skipn (j * chunk_size) row)) inputs in
  let outputs j := remat_ffn deterministic (chunk j) in
  map (fun b =>
         flat_map (fun j =>
           match nth_error (outputs j) b with
           | Some row => row
           | None => []
           end) (seq 0 n))
      (seq 0 (List.length inputs)).

(** [unpermute_outputs(t, permute_tokens(t, x, P), P)], an error of either
    call being an error of the whole. *)
Definition unpermute_after_permute {A : Type} (attention_type : string)
    (x : ndarray A) (num_devices : nat) : option (ndarray A) :=
  match permute_tokens attention_type x num_devices with
  | Some y => unpermute_outputs attention_type y num_devices
  | None => None
  end.

(** Chunk [i] as [blockwise_ffn] forms it: of every row the [chunk_size]
    positions [i], [i + n], [i + 2 n], ... *)
Definition strided_chunk {X : Type} (n chunk_size i : nat) (inputs : list (list X))
  : list (list X) :=
  map (fun row =>
         flat_map (fun c => opt_list (nth_error row (c * n + i))) (seq 0 chunk_size))
      inputs.

(** A function that reverses each chunk along the sequence axis. *)
Definition reverse_chunk (_ : bool) (t : list (list nat)) : list (list nat) :=
  map (@rev nat) t.

(** ** One query row of the streaming softmax *)

(** The state of one query position, for one batch entry, head and output
    coordinate: its numerator, denominator and running maximum. *)
Record rowstate : Type := mkRow {
  r_num : R;
  r_den : R;
  r_max : score
}.

(** What [scan_kv_block] does to one row: [x] are the scores of the row
    against the [kc] keys of the tile, [v] the values of those keys. *)
Definition row_step (kc : nat) (x : nat -> score) (v : nat -> R) (st : rowstate)
  : rowstate :=
  let m' := smax (r_max st) (smax_n x kc) in
  mkRow (r_num st * sexp_sub (r_max st) m'
         + Rsum (fun j => sexp_sub (x j) m' * v j) kc)%R
        (r_den st * sexp_sub (r_max st) m' + Rsum (fun j => sexp_sub (x j) m') kc)%R
        m'.

(** The inner scan over key tiles seen from one row. *)
Definition row_fold (kc : nat) (skip : nat -> bool) (x : nat -> nat -> score)
    (v : nat -> nat -> R) (st : rowstate) (n : nat) : rowstate :=
  scan (fun st t => if skip t then st else row_step kc (x t) (v t) st) st n.

(** The softmax weight a score carries before normalisation: [exp] of a
    finite score, nothing for a masked one. *)
Definition fin_exp (x : score) : R :=
  match x with Fin a => exp a | _ => 0%R end.

Definition is_fmin (x : score) : R :=
  match x with FMin => 1%R | _ => 0%R end.

(** The sums a row has accumulated: over the finite scores folded so far
    [exp s] and [exp s * v], over the masked ones their number and the sum
    of their values. *)
Record rowsums : Type := mkSums {
  s_exp : R;
  s_expv : R;
  s_cnt : R;
  s_cntv : R
}.

Definition tile_sums (kc : nat) (x : nat -> score) (v : nat -> R) : rowsums :=
  mkSums (Rsum (fun j => fin_exp (x j)) kc)
         (Rsum (fun j => fin_exp (x j) * v j) kc)%R
         (Rsum (fun j => is_fmin (x j)) kc)
         (Rsum (fun j => is_fmin (x j) * v j) kc)%R.

Definition sums_add (a b : rowsums) : rowsums :=
  mkSums (s_exp a + s_exp b) (s_expv a + s_expv b)
         (s_cnt a + s_cnt b) (s_cntv a + s_cntv b)%R.

Definition sums_zero : rowsums := mkSums 0 0 0 0.

Definition fold_sums (kc : nat) (skip : nat -> bool) (x : nat -> nat -> score)
    (v : nat -> nat -> R) (acc : rowsums) (n : nat) : rowsums :=
  scan (fun acc t => if skip t then acc else sums_add acc (tile_sums kc (x t) (v t)))
       acc n.

(** The state of a row determined by the sums it has accumulated. *)
Definition row_inv (st : rowstate) (s : rowsums) : Prop :=
  match r_max st with
  | NegInf =>
      r_den st = 0%R /\ r_num st = 0%R /\ s_exp s = 0%R /\ s_expv s = 0%R
      /\ s_cnt s = 0%R /\ s_cntv s = 0%R
  | FMin =>
      r_den st = s_cnt s /\ r_num st = s_cntv s /\ s_exp s = 0%R /\ s_expv s = 0%R
      /\ (0 < s_cnt s)%R
  | Fin mu =>
      r_den st = (s_exp s * exp (- mu))%R /\ r_num st = (s_expv s * exp (- mu))%R
      /\ (0 < s_exp s)%R
  end.

(** The row of a carry at batch entry [b], head [h], query position [pos]
    and output coordinate [d]. *)
Definition row_of (c : fwd_carry) (b h pos d : nat) : rowstate :=
  mkRow (c_num c b pos h d) (c_den c b h pos) (c_max c b h pos).

(** The score [attn_weights] of the forward pass for query position [c] of
    query tile [qi] against key [j] of key tile [t]. *)
Definition fwd_entry (q k : Tensor4 R) (_chunk_bias_fn : nat -> nat -> Tensor4 score)
    (query_chunk_size key_chunk_size q_chunk_idx_start k_chunk_idx_start : nat)
    (b h qi c t j : nat) : score :=
  sadd (Fin (einsum_qk (dim3 (shape q)) (chunk_of q query_chunk_size qi)
               (chunk_of k key_chunk_size t) b h c j
             / sqrt (INR (dim3 (shape q)))))
       (bread (_chunk_bias_fn (q_chunk_idx_start + qi) (k_chunk_idx_start + t)) b h c j).

(** The bias function the forward pass builds from its arguments. *)
Definition fwd_bias_fn (key : Type) (random_split : key -> key * key)
    (random_bernoulli : key -> R -> shape4 -> nat -> nat -> nat -> nat -> bool)
    (q k : Tensor4 R) (bias : option (Tensor4 R)) (kw : blockwise_kwargs key)
  : nat -> nat -> Tensor4 score :=
  _chunk_attention_bias (kw_query_chunk_size kw) (kw_key_chunk_size kw)
    (kw_block_size kw) bias (kw_deterministic kw)
    (draw_attn_dropout random_split random_bernoulli (kw_deterministic kw)
       (kw_dropout_rng kw) (kw_attn_pdrop kw)
       (dim0 (shape q)) (dim2 (shape q)) (dim1 (shape q)) (dim1 (shape k)))
    (kw_attn_pdrop kw) (kw_causal_layout kw).

(** The row of the state of [blockwise_attn] at position [c] of a query
    tile. *)
Definition attn_row_of (c : attn_carry) (b h pos d : nat) : rowstate :=
  mkRow (a_num c b pos h d) (a_den c b pos h d) (a_max c b pos h).

(** The output a row state stands for: [numerator / denominator]. *)
Definition row_output (st : rowstate) : R := (r_num st / r_den st)%R.

(** The streaming softmax of one query row over a key sequence that is
    presented in blocks of [L] positions, [kc] keys to a tile.  The blocks
    are taken in the order [order 0], [order 1], ..., [order (n - 1)], the
    tiles of a block in increasing order; tile [t] of block [kb] is left
    out when [skip kb t].  The entry folded for the key at position [p] is
    [score p] plus the mask, which is zero for a visible key and
    [finfo.min] for a hidden one; [value p] is the value of that key.  The
    fold starts from numerator and denominator zero and running maximum
    [-inf]. *)
Definition streaming_row (L kc : nat) (skip : nat -> nat -> bool) (score : nat -> R)
    (visible : nat -> bool) (value : nat -> R) (order : nat -> nat) (n : nat)
  : rowstate :=
  scan (fun st idx =>
          let kb := order idx in
          row_fold kc (skip kb)
            (fun t j => sadd (Fin (score (kb * L + (t * kc + j))))
                             (if visible (kb * L + (t * kc + j)) then Fin 0 else FMin))
            (fun t j => value (kb * L + (t * kc + j)))
            st (L / kc))
       (mkRow 0 0 NegInf) n.

(** The scores as [blockwise_attn] computes them: the query is divided by
    [sqrt(head_dim)] before the dot product ([dense_scores] divides the
    dot product, as [_blockwise_attention_fwd] does). *)
Definition prescaled_scores (query key_ : Tensor4 R) (b h i j : nat) : R :=
  Rsum (fun d => at4 query b i h d / sqrt (INR (dim3 (shape query))) * at4 key_ b j h d)%R
       (dim3 (shape query)).

(** ** The ring seen from one query row *)

Section RingView.

Variable key : Type.
Variable random_split : key -> key * key.
Variable random_bernoulli : key -> R -> shape4 -> nat -> nat -> nat -> nat -> bool.
Variable axis_size : nat.
Variables q k v attn_bias : nat -> Tensor4 R.
Variable kw : blockwise_kwargs key.

(** The state of every rank after [n] hops of [_ring_attention_fwd]. *)
Definition ring_states (n : nat) : nat -> ring_state :=
  scan (ring_fwd_scan_kv_block random_split random_bernoulli axis_size q attn_bias
          (fun rank => dim1 (shape (k rank))) kw)
       (fun rank =>
          mkRing (mkCarry (fun _ _ _ _ => 0%R) (fun _ _ _ => 0%R) (fun _ _ _ => NegInf))
                 (k rank) (v rank)) n.

Variables (rank b h qi c d : nat).

(** The arguments hop [idx] passes to [_blockwise_attention_fwd] at
    [rank]: the key block held, the bias slice and the tile offsets. *)
Definition hop_k_block (idx : nat) : nat := ring_k_block_idx axis_size rank idx.

Definition hop_bias (idx : nat) : option (Tensor4 R) :=
  Some (dynamic_slice_in_dim (attn_bias rank)
          (hop_k_block idx * dim1 (shape (k rank))) (dim1 (shape (k rank)))).

Definition hop_qs : nat :=
  rank * (dim1 (shape (q rank)) / kw_query_chunk_size kw).

Definition hop_ks (idx : nat) : nat :=
  hop_k_block idx * (dim1 (shape (q rank)) / kw_key_chunk_size kw).

Definition hop_skip (idx t : nat) : bool :=
  fwd_skip_block (kw_causal_layout kw) (kw_query_chunk_size kw) (kw_key_chunk_size kw)
    (kw_block_size kw) hop_qs (hop_ks idx) qi t.

Definition hop_entry (idx t j : nat) : score :=
  fwd_entry (q rank) (k (hop_k_block idx))
    (fwd_bias_fn random_split random_bernoulli (q rank) (k (hop_k_block idx))
       (hop_bias idx) kw)
    (kw_query_chunk_size kw) (kw_key_chunk_size kw) hop_qs (hop_ks idx) b h qi c t j.

Definition hop_value (idx t j : nat) : R :=
  at4 (v (hop_k_block idx)) b (t * kw_key_chunk_size kw + j) h d.

Definition hop_tiles (idx : nat) : nat :=
  dim1 (shape (k (hop_k_block idx))) / kw_key_chunk_size kw.

(** The row of query position [qi * qc + c] of [rank] after [n] hops, and
    the sums it has accumulated. *)
Definition ring_row (n : nat) : rowstate :=
  scan (fun st idx =>
          row_fold (kw_key_chunk_size kw) (hop_skip idx) (hop_entry idx) (hop_value idx)
            st (hop_tiles idx))
       (mkRow 0 0 NegInf) n.

Definition ring_sums (n : nat) : rowsums :=
  scan (fun acc idx =>
          fold_sums (kw_key_chunk_size kw) (hop_skip idx) (hop_entry idx) (hop_value idx)
            acc (hop_tiles idx))
       sums_zero n.

End RingView.

(** ** Shards of a whole sequence *)

(** Shard [r] of a tensor along its length axis, [L] positions long: what
    the sharding hands to rank [r]. *)
Definition shard (t : Tensor4 R) (L r : nat) : Tensor4 R :=
  mkT4 (dim0 (shape t), L, dim2 (shape t), dim3 (shape t))
       (fun b i h d => at4 t b (r * L + i) h d).

(** The original position of the token that [permute_tokens] puts at
    position [p] of a sequence of [P] blocks of length [L]. *)
Definition striped_position (P L p : nat) : nat := (p mod L) * P + p / L.

(** A tensor with its length axis in striped order. *)
Definition permute_length (P L : nat) (t : Tensor4 R) : Tensor4 R :=
  mkT4 (shape t) (fun b p h d => at4 t b (striped_position P L p) h d).

(** The offset added to [query_idx] by [_chunk_attention_bias]. *)
Definition causal_offset (l : layout) (qc kc bs qi ki : nat) : Z :=
  match l with
  | normal => (Z.of_nat (qi * qc) - Z.of_nat (ki * kc))%Z
  | striped => striped_offset bs (qi * qc) (ki * kc)
  end.

(** Whether the key at position [p] of key block [kb] is visible to the
    query at position [i] of query block [r]: always without a causal
    layout; by global position [block * L + position] in the contiguous
    layout; by original position [position * P + block] in the striped
    layout. *)
Definition ring_visible (P L : nat) (causal_layout : option layout) (r i kb p : nat)
  : bool :=
  match causal_layout with
  | None => true
  | Some normal => kb * L + p <=? r * L + i
  | Some striped => p * P + kb <=? i * P + r
  end.

(** The same for two positions of the sequence the ring is run on, the
    shards laid end to end: the query at position [g], the key at position
    [p]. *)
Definition position_visible (P L : nat) (causal_layout : option layout) (g p : nat)
  : bool :=
  match causal_layout with
  | None => true
  | Some normal => p <=? g
  | Some striped => striped_position P L p <=? striped_position P L g
  end.

(** [ring_attention] run on the [P] shards of a whole sequence, with an
    all-zero [attn_bias]; [block_size] is the local length [L]. *)
Definition ring_on_shards (key : Type) (random_split : key -> key * key)
    (random_bernoulli : key -> R -> shape4 -> nat -> nat -> nat -> nat -> bool)
    (P L : nat) (Q K V : Tensor4 R) (causal_layout : option layout) (qc kc : nat)
    (deterministic : bool) (dropout_rng : key) (attn_pdrop : R) : nat -> Tensor4 R :=
  ring_attention random_split random_bernoulli P
    (fun r => shard Q L r) (fun r => shard K L r) (fun r => shard V L r)
    (fun _ => zeros4 (dim0 (shape Q), dim2 (shape Q), L, P * L))
    (mkKwargs causal_layout qc kc L deterministic dropout_rng attn_pdrop).

(** The per-rank outputs gathered along the length axis. *)
Definition gather (P L : nat) (outs : nat -> Tensor4 R) : Tensor4 R :=
  mkT4 (dim0 (shape (outs 0)), P * L, dim2 (shape (outs 0)), dim3 (shape (outs 0)))
       (fun b g h d => at4 (outs (g / L)) b (g mod L) h d).

(** [unpermute_outputs] on a tensor: original position [g] is read from
    position [(g mod P) * L + g / P] of the striped order. *)
Definition unpermute_length (P L : nat) (t : Tensor4 R) : Tensor4 R :=
  mkT4 (shape t) (fun b g h d => at4 t b ((g mod P) * L + g / P) h d).

(** ** Binary32 evaluation of the forward passes *)

(** The forward passes once more, computed in IEEE 754 binary32 as the
    source computes them with [dtype = float32]: the same functions of
    [src/bpt.py], translated line by line, with rounding, overflow,
    infinities and NaN.  The index arithmetic, the skip tests, the slices
    and the rotation are those defined above.  [skip_upper_half] is the
    [if] inside the scan over key tiles. *)

Module F32.

(** The format: 24 bits of precision, infinities at exponent 128. *)
Definition prec : Z := 24.
Definition emax : Z := 128.

(** A binary32 value, or [None] where the value is not fixed by IEEE 754
    (see [exp] below); every operation passes [None] on. *)
Definition f32 : Type := option spec_float.

Definition lift2 (op : spec_float -> spec_float -> spec_float) (x y : f32) : f32 :=
  match x, y with
  | Some a, Some b => Some (op a b)
  | _, _ => None
  end.

(** Addition, subtraction, multiplication and division, rounded to
    nearest, ties to even. *)
Definition add : f32 -> f32 -> f32 := lift2 (SFadd prec emax).
Definition sub : f32 -> f32 -> f32 := lift2 (SFsub prec emax).
Definition mul : f32 -> f32 -> f32 := lift2 (SFmul prec emax).
Definition div : f32 -> f32 -> f32 := lift2 (SFdiv prec emax).

(** [x < y], false when an operand is NaN. *)
Definition ltb (x y : f32) : option bool :=
  match x, y with
  | Some a, Some b => Some (SFltb a b)
  | _, _ => None
  end.

(** [jnp.maximum]: NaN when an operand is NaN. *)
Definition maximum : f32 -> f32 -> f32 :=
  lift2 (fun a b =>
           match SFcompare a b with
           | None => S754_nan
           | Some Lt => b
           | Some _ => a
           end).

(** The value [m * 2^e], rounded. *)
Definition of_Z (m e : Z) : f32 := Some (binary_normalize prec emax m e false).

Definition zero : f32 := Some (S754_zero false).
Definition one : f32 := of_Z 1 0.
Definition inf : f32 := Some (S754_infinity false).
Definition neg_inf : f32 := Some (S754_infinity true).
Definition nan : f32 := Some S754_nan.

(** [jnp.finfo(jnp.float32).min], [-(2^24 - 1) * 2^104]. *)
Definition finfo_min : f32 := Some (S754_finite true (2 ^ 24 - 1) 104).

Definition of_nat (n : nat) : f32 := of_Z (Z.of_nat n) 0.

(** A boolean cast to [0.0] or [1.0]. *)
Definition of_bool (b : bool) : f32 := if b then one else zero.

Definition sqrt (x : f32) : f32 :=
  match x with
  | Some a => Some (SFsqrt prec emax a)
  | None => None
  end.

(** [jnp.exp] where every implementation returns the same value: NaN at
    NaN, [+inf] at [+inf], [0] at [-inf], [1] at zero, [0] at or below
    [-104] (the result lies below half the least subnormal [2^-149]) and
    [+inf] at or above [89] (the result exceeds the largest finite
    value).  Elsewhere the value depends on the implementation: [None]. *)
Definition exp (x : f32) : f32 :=
  match x with
  | None => None
  | Some S754_nan => nan
  | Some (S754_infinity false) => inf
  | Some (S754_infinity true) => zero
  | Some (S754_zero _) => one
  | Some (S754_finite _ _ _ as a) =>
      if SFleb a (binary_normalize prec emax (-104) 0 false) then zero
      else if SFleb (binary_normalize prec emax 89 0 false) a then inf
      else None
  end.

(** [x.sum(axis=-1)] and the contraction of an [einsum] over an axis of
    length [n], accumulated from zero in index order; [jnp.max] over an
    axis.  The source does not fix the order of a sum; the evaluations
    below only sum axes of length one or values whose sum does not depend
    on the order. *)
Fixpoint sum (f : nat -> f32) (n : nat) : f32 :=
  match n with
  | O => zero
  | S n' => add (sum f n') (f n')
  end.

Fixpoint max_n (f : nat -> f32) (n : nat) : f32 :=
  match n with
  | O => neg_inf
  | S n' => maximum (max_n f n') (f n')
  end.

(** Tensors of binary32 values. *)
Definition zeros4 (s : shape4) : Tensor4 f32 := mkT4 s (fun _ _ _ _ => zero).

Definition tile_add (x y : Tensor4 f32) : Tensor4 f32 :=
  mkT4 (bshape (shape x) (shape y))
       (fun b h i j => add (bread x b h i j) (bread y b h i j)).

(** [(query_idx < key_idx) * jnp.finfo(dtype).min]: the comparison is cast
    to [0.0] or [1.0] and multiplied. *)
Definition causal_mask_value (query_chunk_size key_chunk_size : nat) (offset : Z)
  : Tensor4 f32 :=
  mkT4 (1, 1, query_chunk_size, key_chunk_size)
       (fun _ _ i j => mul (of_bool (Z.of_nat i + offset <? Z.of_nat j)%Z) finfo_min).

Definition dropout_penalty (m : Tensor4 bool) : Tensor4 f32 :=
  mkT4 (shape m) (fun b h i j => mul (of_bool (at4 m b h i j)) finfo_min).

Definition _chunk_attention_bias (query_chunk_size key_chunk_size block_size : nat)
    (bias : option (Tensor4 f32)) (deterministic : bool)
    (attn_dropout : option (Tensor4 bool)) (attn_pdrop : R)
    (causal_layout : option layout)
    (query_chunk_idx key_chunk_idx : nat) : Tensor4 f32 :=
  let query_offset := query_chunk_idx * query_chunk_size in
  let key_offset := key_chunk_idx * key_chunk_size in
  let chunk_bias := zeros4 (1, 1, 1, 1) in
  let chunk_bias :=
    match bias with
    | Some b => dynamic_slice b query_offset key_offset query_chunk_size key_chunk_size
    | None => chunk_bias
    end in
  let chunk_bias :=
    match causal_layout with
    | Some normal =>
        let offset := (Z.of_nat query_offset - Z.of_nat key_offset)%Z in
        tile_add chunk_bias (causal_mask_value query_chunk_size key_chunk_size offset)
    | Some striped =>
        let offset := striped_offset block_size query_offset key_offset in
        tile_add chunk_bias (causal_mask_value query_chunk_size key_chunk_size offset)
    | None => chunk_bias
    end in
  if dropout_on deterministic attn_pdrop then
    match attn_dropout with
    | Some m => tile_add chunk_bias
                  (dropout_penalty (dynamic_slice m query_offset key_offset
                                      query_chunk_size key_chunk_size))
    | None => chunk_bias
    end
  else chunk_bias.

Definition tile4 : Type := nat -> nat -> nat -> nat -> f32.

Record fwd_carry : Type := mkCarry {
  c_num : nat -> nat -> nat -> nat -> f32;
  c_den : nat -> nat -> nat -> f32;
  c_max : nat -> nat -> nat -> f32
}.

Definition chunk_of (t : Tensor4 f32) (chunk_size n : nat) : tile4 :=
  fun b c h d => at4 t b (n * chunk_size + c) h d.

(** [scan_kv_block] of [_blockwise_attention_fwd]. *)
Definition fwd_scan_kv_block (key_chunk_size dim_per_head : nat) (scale : f32)
    (_chunk_bias_fn : nat -> nat -> Tensor4 f32)
    (q_chunk_idx_start k_chunk_idx_start : nat)
    (q_chunk : tile4) (q_chunk_idx : nat)
    (carry : fwd_carry) (k_chunk value_chunk : tile4) (k_chunk_idx : nat) : fwd_carry :=
  let prev_max_score_chunk := c_max carry in
  let bias_chunk :=
    _chunk_bias_fn (q_chunk_idx_start + q_chunk_idx) (k_chunk_idx_start + k_chunk_idx) in
  let attn_weights b h q k :=
    add (div (sum (fun d => mul (q_chunk b q h d) (k_chunk b k h d)) dim_per_head) scale)
        (bread bias_chunk b h q k) in
  let max_score_chunk b h q :=
    maximum (prev_max_score_chunk b h q) (max_n (attn_weights b h q) key_chunk_size) in
  let exp_weights b h q k := exp (sub (attn_weights b h q k) (max_score_chunk b h q)) in
  let exp_values b q h d :=
    sum (fun k => mul (exp_weights b h q k) (value_chunk b k h d)) key_chunk_size in
  let correction b q h := exp (sub (prev_max_score_chunk b h q) (max_score_chunk b h q)) in
  mkCarry
    (fun b q h d => add (mul (c_num carry b q h d) (correction b q h)) (exp_values b q h d))
    (fun b h q =>
       add (mul (c_den carry b h q)
                (exp (sub (prev_max_score_chunk b h q) (max_score_chunk b h q))))
           (sum (exp_weights b h q) key_chunk_size))
    max_score_chunk.

Definition carry_chunk (carry : fwd_carry) (query_chunk_size n : nat) : fwd_carry :=
  mkCarry (fun b c h d => c_num carry b (n * query_chunk_size + c) h d)
          (fun b h c => c_den carry b h (n * query_chunk_size + c))
          (fun b h c => c_max carry b h (n * query_chunk_size + c)).

Definition carry_unchunk (query_chunk_size : nat) (tiles : nat -> fwd_carry) : fwd_carry :=
  mkCarry
    (fun b pos h d =>
       c_num (tiles (pos / query_chunk_size)) b (pos mod query_chunk_size) h d)
    (fun b h pos => c_den (tiles (pos / query_chunk_size)) b h (pos mod query_chunk_size))
    (fun b h pos => c_max (tiles (pos / query_chunk_size)) b h (pos mod query_chunk_size)).

Section Passes.

Variable key : Type.
Variable random_split : key -> key * key.
Variable random_bernoulli : key -> R -> shape4 -> nat -> nat -> nat -> nat -> bool.

(** [_blockwise_attention_fwd] *)
Definition _blockwise_attention_fwd (q k v : Tensor4 f32) (carry : fwd_carry)
    (q_chunk_idx_start k_chunk_idx_start : nat) (bias : option (Tensor4 f32))
    (kw : blockwise_kwargs key) : fwd_carry :=
  let causal_layout := kw_causal_layout kw in
  let query_chunk_size := kw_query_chunk_size kw in
  let key_chunk_size := kw_key_chunk_size kw in
  let block_size := kw_block_size kw in
  let batch := dim0 (shape q) in
  let q_len := dim1 (shape q) in
  let num_heads := dim2 (shape q) in
  let dim_per_head := dim3 (shape q) in
  let kv_len := dim1 (shape k) in
  let num_kv := kv_len / key_chunk_size in
  let scale := sqrt (of_nat dim_per_head) in
  let attn_dropout :=
    draw_attn_dropout random_split random_bernoulli (kw_deterministic kw)
      (kw_dropout_rng kw) (kw_attn_pdrop kw) batch num_heads q_len kv_len in
  let _chunk_bias_fn :=
    _chunk_attention_bias query_chunk_size key_chunk_size block_size bias
      (kw_deterministic kw) attn_dropout (kw_attn_pdrop kw) causal_layout in
  let scan_attention q_chunk_idx :=
    let q_chunk := chunk_of q query_chunk_size q_chunk_idx in
    scan (fun carry k_chunk_idx =>
            if fwd_skip_block causal_layout query_chunk_size key_chunk_size block_size
                 q_chunk_idx_start k_chunk_idx_start q_chunk_idx k_chunk_idx
            then carry
            else fwd_scan_kv_block key_chunk_size dim_per_head scale _chunk_bias_fn
                   q_chunk_idx_start k_chunk_idx_start q_chunk q_chunk_idx carry
                   (chunk_of k key_chunk_size k_chunk_idx)
                   (chunk_of v key_chunk_size k_chunk_idx) k_chunk_idx)
         (carry_chunk carry query_chunk_size q_chunk_idx) num_kv in
  carry_unchunk query_chunk_size scan_attention.

Record ring_state : Type := mkRing {
  rs_carry : fwd_carry;
  rs_k : Tensor4 f32;
  rs_v : Tensor4 f32
}.

(** [scan_kv_block] of [_ring_attention_fwd], for all ranks at once. *)
Definition ring_fwd_scan_kv_block (axis_size : nat) (q attn_bias : nat -> Tensor4 f32)
    (kv_len : nat -> nat) (kw : blockwise_kwargs key)
    (state : nat -> ring_state) (idx : nat) : nat -> ring_state :=
  let query_chunk_size := kw_query_chunk_size kw in
  let key_chunk_size := kw_key_chunk_size kw in
  let local rank : fwd_carry :=
    let block_size := dim1 (shape (q rank)) in
    let attn_bias_slice :=
      dynamic_slice_in_dim (attn_bias rank)
        (ring_k_block_idx axis_size rank idx * kv_len rank) (kv_len rank) in
    let q_block_idx := rank in
    let k_block_idx := ring_k_block_idx axis_size rank idx in
    let q_chunk_idx_start := q_block_idx * (block_size / query_chunk_size) in
    let k_chunk_idx_start := k_block_idx * (block_size / key_chunk_size) in
    _blockwise_attention_fwd (q rank) (rs_k (state rank)) (rs_v (state rank))
      (rs_carry (state rank)) q_chunk_idx_start k_chunk_idx_start
      (Some attn_bias_slice) kw in
  let k' := ppermute (zeros4 (0, 0, 0, 0)) (ring_perm axis_size)
              (fun rank => rs_k (state rank)) in
  let v' := ppermute (zeros4 (0, 0, 0, 0)) (ring_perm axis_size)
              (fun rank => rs_v (state rank)) in
  fun rank => mkRing (local rank) (k' rank) (v' rank).

(** [_ring_attention_fwd]: the output and the saved
    [(numerator, denominator, max_score)] of every rank. *)
Definition _ring_attention_fwd (axis_size : nat) (q k v attn_bias : nat -> Tensor4 f32)
    (kw : blockwise_kwargs key) : nat -> Tensor4 f32 * fwd_carry :=
  let init rank :=
    mkRing (mkCarry (fun _ _ _ _ => zero) (fun _ _ _ => zero) (fun _ _ _ => neg_inf))
           (k rank) (v rank) in
  let final :=
    scan (ring_fwd_scan_kv_block axis_size q attn_bias
            (fun rank => dim1 (shape (k rank))) kw) init axis_size in
  fun rank =>
    let c := rs_carry (final rank) in
    (mkT4 (shape (q rank))
          (fun b pos h d => div (c_num c b pos h d) (c_den c b h pos)), c).

Definition ring_attention (axis_size : nat) (q k v attn_bias : nat -> Tensor4 f32)
    (kw : blockwise_kwargs key) : nat -> Tensor4 f32 :=
  fun rank => fst (_ring_attention_fwd axis_size q k v attn_bias kw rank).

Record attn_carry : Type := mkAttnCarry {
  a_num : tile4;
  a_den : tile4;
  a_max : nat -> nat -> nat -> f32
}.

(** [scan_kv_block] of [blockwise_attn]. *)
Definition attn_scan_kv_block (key_chunk_size dim_per_head : nat)
    (_chunk_bias_fn : nat -> nat -> Tensor4 f32)
    (query_chunk : tile4) (query_chunk_idx : nat)
    (carry : attn_carry) (key_chunk value_chunk : tile4) (key_chunk_idx : nat)
  : attn_carry :=
  let prev_max_score := a_max carry in
  let bias_chunk := _chunk_bias_fn query_chunk_idx key_chunk_idx in
  let attn_weights b q h k :=
    add (sum (fun d => mul (query_chunk b q h d) (key_chunk b k h d)) dim_per_head)
        (bread bias_chunk b h q k) in
  let max_score b q h :=
    maximum (prev_max_score b q h) (max_n (attn_weights b q h) key_chunk_size) in
  let exp_weights b q h k := exp (sub (attn_weights b q h k) (max_score b q h)) in
  let exp_values b q h d :=
    sum (fun k => mul (exp_weights b q h k) (value_chunk b k h d)) key_chunk_size in
  let correction b q h := exp (sub (prev_max_score b q h) (max_score b q h)) in
  mkAttnCarry
    (fun b q h d => add (mul (a_num carry b q h d) (correction b q h)) (exp_values b q h d))
    (fun b q h d =>
       add (mul (a_den carry b q h d) (correction b q h))
           (sum (exp_weights b q h) key_chunk_size))
    max_score.

(** [blockwise_attn] *)
Definition blockwise_attn (query key_ value : Tensor4 f32) (bias : option (Tensor4 f32))
    (deterministic : bool) (dropout_rng : key) (attn_pdrop : R) (causal : bool)
    (query_chunk_size key_chunk_size : nat) : Tensor4 f32 :=
  let batch := dim0 (shape query) in
  let q_len := dim1 (shape query) in
  let num_heads := dim2 (shape query) in
  let dim_per_head := dim3 (shape query) in
  let kv_len := dim1 (shape key_) in
  let query :=
    mkT4 (shape query)
      (fun b pos h d => div (at4 query b pos h d) (sqrt (of_nat dim_per_head))) in
  let num_q := q_len / query_chunk_size in
  let num_kv := kv_len / key_chunk_size in
  let attn_dropout :=
    draw_attn_dropout random_split random_bernoulli deterministic dropout_rng attn_pdrop
      batch num_heads q_len kv_len in
  let _chunk_bias_fn :=
    _chunk_attention_bias query_chunk_size key_chunk_size 0 bias deterministic
      attn_dropout attn_pdrop (if causal then Some normal else None) in
  let scan_attention query_chunk_idx : tile4 :=
    let query_chunk := chunk_of query query_chunk_size query_chunk_idx in
    let init_carry :=
      mkAttnCarry (fun _ _ _ _ => zero) (fun _ _ _ _ => zero) (fun _ _ _ => neg_inf) in
    let final :=
      scan (fun carry key_chunk_idx =>
              if attn_skip_block causal query_chunk_idx key_chunk_idx then carry
              else attn_scan_kv_block key_chunk_size dim_per_head _chunk_bias_fn
                     query_chunk query_chunk_idx carry
                     (chunk_of key_ key_chunk_size key_chunk_idx)
                     (chunk_of value key_chunk_size key_chunk_idx) key_chunk_idx)
           init_carry num_kv in
    fun b c h d => div (a_num final b c h d) (a_den final b c h d) in
  mkT4 (batch, num_q * query_chunk_size, num_heads, dim_per_head)
       (fun b pos h d =>
          scan_attention (pos / query_chunk_size) b (pos mod query_chunk_size) h d).

End Passes.

(** Dense attention in the words of the specification,
    [softmax(Q K^T / sqrt(head_dim)) V]: the score matrix, its softmax
    along the keys (with the row maximum subtracted, as [jax.nn.softmax]
    does), and the weighted sum of the values. *)
Definition dense_attention (query key_ value : Tensor4 f32) : Tensor4 f32 :=
  let dim := dim3 (shape query) in
  let n := dim1 (shape key_) in
  let scores b h i j :=
    div (sum (fun d => mul (at4 query b i h d) (at4 key_ b j h d)) dim)
        (sqrt (of_nat dim)) in
  let e b h i j := exp (sub (scores b h i j) (max_n (scores b h i) n)) in
  let softmax b h i j := div (e b h i j) (sum (e b h i) n) in
  mkT4 (shape query)
       (fun b i h d => sum (fun j => mul (softmax b h i j) (at4 value b j h d)) n).

Definition shard (t : Tensor4 f32) (L r : nat) : Tensor4 f32 :=
  mkT4 (dim0 (shape t), L, dim2 (shape t), dim3 (shape t))
       (fun b i h d => at4 t b (r * L + i) h d).

Definition permute_length (P L : nat) (t : Tensor4 f32) : Tensor4 f32 :=
  mkT4 (shape t) (fun b p h d => at4 t b (striped_position P L p) h d).

Definition gather (P L : nat) (outs : nat -> Tensor4 f32) : Tensor4 f32 :=
  mkT4 (dim0 (shape (outs 0)), P * L, dim2 (shape (outs 0)), dim3 (shape (outs 0)))
       (fun b g h d => at4 (outs (g / L)) b (g mod L) h d).

Definition unpermute_length (P L : nat) (t : Tensor4 f32) : Tensor4 f32 :=
  mkT4 (shape t) (fun b g h d => at4 t b ((g mod P) * L + g / P) h d).

(** [ring_attention] on the [P] shards of a whole sequence, all-zero
    [attn_bias], dropout inactive. *)
Definition ring_on_shards (P L : nat) (Q K V : Tensor4 f32)
    (causal_layout : option layout) (qc kc : nat) : nat -> Tensor4 f32 :=
  ring_attention (fun u : unit => (u, u)) (fun _ _ _ _ _ _ _ => false) P
    (fun r => shard Q L r) (fun r => shard K L r) (fun r => shard V L r)
    (fun _ => zeros4 (dim0 (shape Q), dim2 (shape Q), L, P * L))
    (mkKwargs causal_layout qc kc L true tt 0%R).

(** A tensor of shape [(1, n, 1, 1)] that holds the listed values along
    its length axis. *)
Definition of_list (l : list f32) : Tensor4 f32 :=
  mkT4 (1, List.length l, 1, 1) (fun _ p _ _ => nth p l zero).

End F32.

(** ** Further definitions *)

(** The order of scores: [-inf] below [finfo.min] below every finite
    score. *)
Definition sle (x y : score) : Prop :=
  match x, y with
  | NegInf, _ => True
  | FMin, NegInf => False
  | FMin, _ => True
  | Fin a, Fin b => (a <= b)%R
  | Fin _, _ => False
  end.

(** [jnp.concatenate([k1, k2], axis=1)] *)
Definition concat_length (k1 k2 : Tensor4 R) : Tensor4 R :=
  mkT4 (dim0 (shape k1), dim1 (shape k1) + dim1 (shape k2),
        dim2 (shape k1), dim3 (shape k1))
       (fun b p h d =>
          if p <? dim1 (shape k1) then at4 k1 b p h d
          else at4 k2 b (p - dim1 (shape k1)) h d).

(** The state of every rank after [n] hops of [_ring_attention_bwd]. *)
Definition ring_bwd_states (key : Type) (random_split : key -> key * key)
    (random_bernoulli : key -> R -> shape4 -> nat -> nat -> nat -> nat -> bool)
    (axis_size : nat) (kw : blockwise_kwargs key) (res : nat -> ring_res)
    (g : nat -> Tensor4 R) (n : nat) : nat -> ring_bwd_state :=
  scan (ring_bwd_scan_kv_block random_split random_bernoulli axis_size res g kw)
       (fun rank =>
          mkRingBwd (zeros4 (shape (res_q (res rank))))
                    (zeros4 (shape (res_k (res rank))))
                    (zeros4 (shape (res_v (res rank))))
                    (res_k (res rank)) (res_v (res rank))) n.

(** What one call of [_blockwise_attention_bwd] inside the ring
    contributes when query rank [rank] meets key block [kb]: the call of
    [scan_kv_block] in [_ring_attention_bwd], started from zero
    accumulators. *)
Definition ring_pair_grads (key : Type) (random_split : key -> key * key)
    (random_bernoulli : key -> R -> shape4 -> nat -> nat -> nat -> nat -> bool)
    (kw : blockwise_kwargs key) (res : nat -> ring_res) (g : nat -> Tensor4 R)
    (rank kb : nat) : grads :=
  let q := res_q (res rank) in
  let kv_len := dim1 (shape (res_k (res rank))) in
  let block_size := dim1 (shape q) in
  _blockwise_attention_bwd random_split random_bernoulli q
    (res_k (res kb)) (res_v (res kb)) (g rank)
    (fun _ _ _ _ => 0%R) (fun _ _ _ _ => 0%R) (fun _ _ _ _ => 0%R)
    (at4 (res_output (res rank))) (res_carry (res rank))
    (rank * (block_size / kw_query_chunk_size kw))
    (kb * (block_size / kw_key_chunk_size kw))
    (Some (dynamic_slice_in_dim (res_attn_bias (res rank)) (kb * kv_len) kv_len)) kw.

(** The factor [dl] of the "einsum version" that the source keeps as a
    comment in [_ring_attention_bwd], for dense attention with no mask:
    [exp_weights] is the softmax weight,
    [ds = einsum("bqhd,bkd->bhqk", g, v)] and
    [dl = (ds - einsum("bqhd,bqhd->bhs", g, output)[..., None]) * exp_weights]. *)
Definition einsum_dl (q k v g : Tensor4 R) (b h qpos kpos : nat) : R :=
  let exp_weights := softmax (dim1 (shape k)) (dense_scores q k b h qpos) kpos in
  let ds := Rsum (fun d => at4 g b qpos h d * at4 v b kpos h d)%R (dim3 (shape q)) in
  let dl_part :=
    Rsum (fun d => at4 g b qpos h d * at4 (dense_attention q k v) b qpos h d)%R
         (dim3 (shape q)) in
  ((ds - dl_part) * exp_weights)%R.

(** [train_step] of [llamabpt/train.py], the part that does not go through
    the model or the optimizer: [batch['target_tokens']] and
    [batch['loss_masks']] are each passed through [permute_tokens] with the
    model's attention type and the size of the last mesh axis; an error of
    either call is an error of the step. *)
Definition train_step_targets {A B : Type} (attention_type : string)
    (target_tokens : ndarray A) (loss_masks : ndarray B) (num_devices : nat)
  : option (ndarray A * ndarray B) :=
  match permute_tokens attention_type target_tokens num_devices with
  | None => None
  | Some t =>
      match permute_tokens attention_type loss_masks num_devices with
      | None => None
      | Some m => Some (t, m)
      end
  end.

(** The pairs (target, mask) that the loss reads position by position from
    two arrays of shape [(batch, length)]. *)
Definition zip_rows {A B : Type} (t : list (list A)) (m : list (list B))
  : list (list (A * B)) :=
  map (fun p => combine (fst p) (snd p)) (combine t m).

(** ** Concrete inputs *)

Definition ones4 (s : shape4) : Tensor4 R := mkT4 s (fun _ _ _ _ => 1%R).

Definition unit_kwargs (causal_layout : option layout) (qc kc bs : nat)
  : blockwise_kwargs unit :=
  mkKwargs causal_layout qc kc bs true tt 0%R.

(** A value tensor that is one at position [g0] of the length axis and
    zero elsewhere. *)
Definition mark_position (s : shape4) (g0 : nat) : Tensor4 R :=
  mkT4 s (fun _ g _ _ => if g =? g0 then 1%R else 0%R).

(** * Properties *)

(** ** The bias tile *)

Lemma bidx_in_range (n i : nat) : i < n -> bidx n i = i.
Proof.
  intros Hi. unfold bidx. destruct (Nat.eqb_spec n 1) as [->|]; [lia | reflexivity].
Qed.

Lemma bread_causal_mask_value (qc kc : nat) (offset : Z) (b h i j : nat) :
  i < qc -> j < kc ->
  bread (causal_mask_value qc kc offset) b h i j
  = if (Z.of_nat i + offset <? Z.of_nat j)%Z then FMin else Fin 0.
Proof.
  intros Hi Hj. unfold bread, causal_mask_value; simpl.
  unfold dim2, dim3; simpl. now rewrite !bidx_in_range.
Qed.

Lemma sadd_zero_l (x : score) : sadd (Fin 0) x = x.
Proof. destruct x; simpl; try reflexivity. f_equal; lra. Qed.

Lemma dropout_off (deterministic : bool) (attn_pdrop : R) :
  deterministic = true \/ (attn_pdrop <= 0)%R ->
  dropout_on deterministic attn_pdrop = false.
Proof.
  intros [-> | Hp]; unfold dropout_on; [reflexivity|].
  destruct (Rlt_dec 0 attn_pdrop); [lra | apply andb_false_r].
Qed.

(** C8.  Contiguous layout, no user bias, dropout inactive: the bias tile
    has shape [(1, 1, query_chunk_size, key_chunk_size)]; its entry [(i, j)]
    is the most negative finite value [FMin] (which is not [NegInf]) exactly
    when the global key position [k_tile_idx * key_chunk_size + j] exceeds
    the global query position [q_tile_idx * query_chunk_size + i], and zero
    otherwise. *)
Theorem chunk_bias_normal_entries
    (query_chunk_size key_chunk_size block_size : nat) (deterministic : bool)
    (attn_dropout : option (Tensor4 bool)) (attn_pdrop : R)
    (q_tile_idx k_tile_idx i j : nat) :
  dropout_on deterministic attn_pdrop = false ->
  i < query_chunk_size -> j < key_chunk_size ->
  let tile := _chunk_attention_bias query_chunk_size key_chunk_size block_size None
                deterministic attn_dropout attn_pdrop (Some normal)
                q_tile_idx k_tile_idx in
  shape tile = (1, 1, query_chunk_size, key_chunk_size)
  /\ (q_tile_idx * query_chunk_size + i < k_tile_idx * key_chunk_size + j ->
      at4 tile 0 0 i j = FMin)
  /\ (k_tile_idx * key_chunk_size + j <= q_tile_idx * query_chunk_size + i ->
      at4 tile 0 0 i j = Fin 0)
  /\ FMin <> NegInf.
Proof.
  intros Hdrop Hi Hj tile. subst tile. unfold _chunk_attention_bias.
  rewrite Hdrop. cbn [tile_add shape at4].
  split; [reflexivity|].
  rewrite bread_causal_mask_value by assumption.
  unfold bread; cbn [shape at4]. rewrite sadd_zero_l.
  split; [|split]; try discriminate.
  - intros Hlt. destruct (Z.ltb_spec (Z.of_nat i + (Z.of_nat (q_tile_idx * query_chunk_size)
        - Z.of_nat (k_tile_idx * key_chunk_size))) (Z.of_nat j)); [reflexivity | lia].
  - intros Hle. destruct (Z.ltb_spec (Z.of_nat i + (Z.of_nat (q_tile_idx * query_chunk_size)
        - Z.of_nat (k_tile_idx * key_chunk_size))) (Z.of_nat j)); [lia | reflexivity].
Qed.

Lemma chunk_bias_normal_entries_witness :
  let tile := _chunk_attention_bias 2 2 0 None true None 0 (Some normal) 0 1 in
  shape tile = (1, 1, 2, 2)
  /\ (0 * 2 + 1 < 1 * 2 + 0 -> at4 tile 0 0 1 0 = FMin)
  /\ (1 * 2 + 0 <= 0 * 2 + 1 -> at4 tile 0 0 1 0 = Fin 0)
  /\ FMin <> NegInf.
Proof.
  apply (@chunk_bias_normal_entries 2 2 0 true None 0 0 1 1 0);
    [reflexivity | lia | lia].
Defined.

(** ** The skip rule *)

Lemma fwd_skip_block_spec (causal_layout : option layout)
    (qc kc bs qs ks qi ki : nat) :
  fwd_skip_block causal_layout qc kc bs qs ks qi ki
  = spec_skip causal_layout qc kc bs (qs + qi) (ks + ki).
Proof. destruct causal_layout as [[|]|]; reflexivity. Qed.

Lemma bwd_skip_block_spec (causal_layout : option layout)
    (qc kc bs qs ks qi ki : nat) :
  bwd_skip_block causal_layout qc kc bs qs ks qi ki
  = spec_skip causal_layout qc kc bs (qs + qi) (ks + ki).
Proof. destruct causal_layout as [[|]|]; reflexivity. Qed.

(** With equal chunk sizes the tile-index test of [blockwise_attn] is the
    position-range rule. *)
Lemma attn_skip_block_equal_chunks (c qi ki : nat) :
  0 < c ->
  attn_skip_block true qi ki = spec_skip (Some normal) c c 0 qi ki.
Proof.
  intros Hc. unfold attn_skip_block, spec_skip.
  destruct (Nat.ltb_spec qi ki), (Nat.leb_spec (qi * c + c) (ki * c)); try reflexivity; nia.
Qed.

(** ** Skipped pairs in the backward pass *)

Lemma bwd_inner_skipped (key : Type) (random_split : key -> key * key)
    (random_bernoulli : key -> R -> shape4 -> nat -> nat -> nat -> nat -> bool)
    (q k v g : Tensor4 R) (output : tile4) (carry : fwd_carry)
    (qs ks : nat) (bias : option (Tensor4 R)) (kw : blockwise_kwargs key)
    (qi ki : nat) (dq_chunk : tile4) :
  bwd_skip_block (kw_causal_layout kw) (kw_query_chunk_size kw) (kw_key_chunk_size kw)
    (kw_block_size kw) qs ks qi ki = true ->
  bwd_inner random_split random_bernoulli q k v g output carry qs ks bias kw qi
    dq_chunk ki
  = (dq_chunk,
     (zeros4 (dim0 (shape q), kw_key_chunk_size kw, dim2 (shape q), dim3 (shape q)),
      zeros4 (dim0 (shape q), kw_key_chunk_size kw, dim2 (shape q), dim3 (shape q)))).
Proof.
  intros Hskip. unfold bwd_inner, bwd_skip_upper_half. now rewrite Hskip.
Qed.

(** C7.  In the inner scan of the backward pass over the key tiles of one
    query tile, a skipped pair (query tile [qi], key tile [ki]) emits a
    [dk] tile and a [dv] tile that are exactly [jnp.zeros] of shape
    [(batch, key_chunk_size, heads, head_dim)], and the [dq_chunk]
    accumulator after that step is the one before it. *)
Theorem bwd_skipped_pair (key : Type) (random_split : key -> key * key)
    (random_bernoulli : key -> R -> shape4 -> nat -> nat -> nat -> nat -> bool)
    (q k v g : Tensor4 R) (output : tile4) (carry : fwd_carry)
    (qs ks : nat) (bias : option (Tensor4 R)) (kw : blockwise_kwargs key)
    (qi ki : nat) (dq_init : tile4) :
  bwd_skip_block (kw_causal_layout kw) (kw_query_chunk_size kw) (kw_key_chunk_size kw)
    (kw_block_size kw) qs ks qi ki = true ->
  let inner :=
    bwd_inner random_split random_bernoulli q k v g output carry qs ks bias kw qi in
  let tile_shape :=
    (dim0 (shape q), kw_key_chunk_size kw, dim2 (shape q), dim3 (shape q)) in
  scan_out inner dq_init ki = (zeros4 tile_shape, zeros4 tile_shape)
  /\ scan_carry inner dq_init (S ki) = scan_carry inner dq_init ki.
Proof.
  intros Hskip inner tile_shape. subst inner tile_shape.
  unfold scan_out, scan_carry. cbn [scan].
  rewrite !bwd_inner_skipped by assumption. split; reflexivity.
Qed.

Lemma bwd_skipped_pair_witness :
  let inner :=
    bwd_inner (fun u : unit => (u, u)) (fun _ _ _ _ _ _ _ => false)
      (ones4 (1, 2, 1, 1)) (ones4 (1, 2, 1, 1)) (ones4 (1, 2, 1, 1)) (ones4 (1, 2, 1, 1))
      (fun _ _ _ _ => 1%R)
      (mkCarry (fun _ _ _ _ => 1%R) (fun _ _ _ => 1%R) (fun _ _ _ => Fin 0))
      0 0 None (unit_kwargs (Some normal) 1 1 2) 0 in
  scan_out inner (fun _ _ _ _ => 0%R) 1 = (zeros4 (1, 1, 1, 1), zeros4 (1, 1, 1, 1))
  /\ scan_carry inner (fun _ _ _ _ => 0%R) 2 = scan_carry inner (fun _ _ _ _ => 0%R) 1.
Proof.
  apply (@bwd_skipped_pair unit (fun u => (u, u)) (fun _ _ _ _ _ _ _ => false)
           (ones4 (1, 2, 1, 1)) (ones4 (1, 2, 1, 1)) (ones4 (1, 2, 1, 1))
           (ones4 (1, 2, 1, 1)) (fun _ _ _ _ => 1%R)
           (mkCarry (fun _ _ _ _ => 1%R) (fun _ _ _ => 1%R) (fun _ _ _ => Fin 0))
           0 0 None (unit_kwargs (Some normal) 1 1 2) 0 1 (fun _ _ _ _ => 0%R)).
  reflexivity.
Defined.

(** ** Independence of the random key when dropout is inactive *)

Section RngUnused.

Variable key : Type.
Variables split1 split2 : key -> key * key.
Variables bern1 bern2 : key -> R -> shape4 -> nat -> nat -> nat -> nat -> bool.
Variable deterministic : bool.
Variable attn_pdrop : R.
Hypothesis inactive : deterministic = true \/ (attn_pdrop <= 0)%R.

Lemma draw_attn_dropout_off (random_split : key -> key * key)
    (random_bernoulli : key -> R -> shape4 -> nat -> nat -> nat -> nat -> bool)
    (rng : key) (b h ql kl : nat) :
  draw_attn_dropout random_split random_bernoulli deterministic rng attn_pdrop b h ql kl
  = None.
Proof. unfold draw_attn_dropout. now rewrite (dropout_off inactive). Qed.

Variables (causal_layout : option layout) (qc kc bs : nat) (rng1 rng2 : key).

Let kw1 := mkKwargs causal_layout qc kc bs deterministic rng1 attn_pdrop.
Let kw2 := mkKwargs causal_layout qc kc bs deterministic rng2 attn_pdrop.

Lemma fwd_rng_unused (q k v : Tensor4 R) (carry : fwd_carry) (qs ks : nat)
    (bias : option (Tensor4 R)) :
  _blockwise_attention_fwd split1 bern1 q k v carry qs ks bias kw1
  = _blockwise_attention_fwd split2 bern2 q k v carry qs ks bias kw2.
Proof.
  unfold _blockwise_attention_fwd, kw1, kw2. cbn [kw_causal_layout kw_query_chunk_size
    kw_key_chunk_size kw_block_size kw_deterministic kw_dropout_rng kw_attn_pdrop].
  now rewrite !draw_attn_dropout_off.
Qed.

Lemma bwd_rng_unused (q k v g : Tensor4 R) (dq dk dv output : tile4)
    (carry : fwd_carry) (qs ks : nat) (bias : option (Tensor4 R)) :
  _blockwise_attention_bwd split1 bern1 q k v g dq dk dv output carry qs ks bias kw1
  = _blockwise_attention_bwd split2 bern2 q k v g dq dk dv output carry qs ks bias kw2.
Proof.
  unfold _blockwise_attention_bwd, bwd_inner, kw1, kw2.
  cbn [kw_causal_layout kw_query_chunk_size
    kw_key_chunk_size kw_block_size kw_deterministic kw_dropout_rng kw_attn_pdrop].
  now rewrite !draw_attn_dropout_off.
Qed.

Lemma ring_fwd_rng_unused (axis_size : nat) (q k v attn_bias : nat -> Tensor4 R) :
  _ring_attention_fwd split1 bern1 axis_size q k v attn_bias kw1
  = _ring_attention_fwd split2 bern2 axis_size q k v attn_bias kw2.
Proof.
  unfold _ring_attention_fwd.
  replace (ring_fwd_scan_kv_block split1 bern1 axis_size q attn_bias
             (fun rank => dim1 (shape (k rank))) kw1)
    with (ring_fwd_scan_kv_block split2 bern2 axis_size q attn_bias
             (fun rank => dim1 (shape (k rank))) kw2); [reflexivity|].
  extensionality state. extensionality idx. extensionality rank.
  unfold ring_fwd_scan_kv_block. now rewrite fwd_rng_unused.
Qed.

Lemma ring_bwd_rng_unused (axis_size : nat) (res : nat -> ring_res)
    (g : nat -> Tensor4 R) :
  _ring_attention_bwd split1 bern1 axis_size kw1 res g
  = _ring_attention_bwd split2 bern2 axis_size kw2 res g.
Proof.
  unfold _ring_attention_bwd.
  replace (ring_bwd_scan_kv_block split1 bern1 axis_size res g kw1)
    with (ring_bwd_scan_kv_block split2 bern2 axis_size res g kw2); [reflexivity|].
  extensionality state. extensionality idx.
  unfold ring_bwd_scan_kv_block.
  assert (Hloc : forall rank,
    _blockwise_attention_bwd split2 bern2 (res_q (res rank)) (rb_k (state rank))
      (rb_v (state rank)) (g rank) (at4 (rb_dq (state rank)))
      (at4 (rb_dk (state rank))) (at4 (rb_dv (state rank)))
      (at4 (res_output (res rank))) (res_carry (res rank))
      (rank * (dim1 (shape (res_q (res rank))) / kw_query_chunk_size kw2))
      (ring_k_block_idx axis_size rank idx
       * (dim1 (shape (res_q (res rank))) / kw_key_chunk_size kw2))
      (Some (dynamic_slice_in_dim (res_attn_bias (res rank))
               (ring_k_block_idx axis_size rank idx
                * dim1 (shape (res_k (res rank))))
               (dim1 (shape (res_k (res rank)))))) kw2
    = _blockwise_attention_bwd split1 bern1 (res_q (res rank)) (rb_k (state rank))
      (rb_v (state rank)) (g rank) (at4 (rb_dq (state rank)))
      (at4 (rb_dk (state rank))) (at4 (rb_dv (state rank)))
      (at4 (res_output (res rank))) (res_carry (res rank))
      (rank * (dim1 (shape (res_q (res rank))) / kw_query_chunk_size kw1))
      (ring_k_block_idx axis_size rank idx
       * (dim1 (shape (res_q (res rank))) / kw_key_chunk_size kw1))
      (Some (dynamic_slice_in_dim (res_attn_bias (res rank))
               (ring_k_block_idx axis_size rank idx
                * dim1 (shape (res_k (res rank))))
               (dim1 (shape (res_k (res rank)))))) kw1).
  { intros rank. symmetry. apply bwd_rng_unused. }
  extensionality rank. f_equal; try (now rewrite Hloc).
  - f_equal. extensionality r. now rewrite Hloc.
  - f_equal. extensionality r. now rewrite Hloc.
Qed.

(** C10.  With [deterministic = True] or [attn_pdrop <= 0.0] neither
    [blockwise_attn] nor [ring_attention], nor the backward passes, depend
    on [dropout_rng] or on [jax.random]: two calls that differ only in the
    key (and in what [split] and [bernoulli] would return) give equal
    outputs and equal gradients. *)
Theorem dropout_rng_unused
    (query key_ value : Tensor4 R) (bias : option (Tensor4 R)) (causal : bool)
    (axis_size : nat) (q k v attn_bias : nat -> Tensor4 R)
    (res : nat -> ring_res) (g : nat -> Tensor4 R)
    (dq dk dv output : tile4) (carry : fwd_carry) (qs ks : nat) :
  blockwise_attn split1 bern1 query key_ value bias deterministic rng1 attn_pdrop
    causal qc kc
  = blockwise_attn split2 bern2 query key_ value bias deterministic rng2 attn_pdrop
      causal qc kc
  /\ ring_attention split1 bern1 axis_size q k v attn_bias kw1
     = ring_attention split2 bern2 axis_size q k v attn_bias kw2
  /\ _ring_attention_bwd split1 bern1 axis_size kw1 res g
     = _ring_attention_bwd split2 bern2 axis_size kw2 res g
  /\ _blockwise_attention_bwd split1 bern1 query key_ value (g 0) dq dk dv output
       carry qs ks bias kw1
     = _blockwise_attention_bwd split2 bern2 query key_ value (g 0) dq dk dv output
         carry qs ks bias kw2.
Proof.
  split; [|split; [|split]].
  - unfold blockwise_attn. now rewrite !draw_attn_dropout_off.
  - unfold ring_attention. now rewrite ring_fwd_rng_unused.
  - apply ring_bwd_rng_unused.
  - apply bwd_rng_unused.
Qed.

End RngUnused.

Lemma dropout_rng_unused_witness :
  let q := ones4 (1, 2, 1, 1) in
  let kw1 := mkKwargs (Some normal) 1 1 2 true 0 1%R in
  let kw2 := mkKwargs (Some normal) 1 1 2 true 1 1%R in
  let split1 (n : nat) := (n, n) in
  let split2 (n : nat) := (S n, S n) in
  let bern1 (_ : nat) (_ : R) (_ : shape4) (_ _ _ _ : nat) := false in
  let bern2 (_ : nat) (_ : R) (_ : shape4) (_ _ _ _ : nat) := true in
  let res (_ : nat) :=
    mkRes q q q q (zeros4 (1, 1, 2, 2))
      (mkCarry (fun _ _ _ _ => 1%R) (fun _ _ _ => 1%R) (fun _ _ _ => Fin 0)) in
  let carry := mkCarry (fun _ _ _ _ => 1%R) (fun _ _ _ => 1%R) (fun _ _ _ => Fin 0) in
  let z (_ _ _ _ : nat) := 0%R in
  blockwise_attn split1 bern1 q q q None true 0 1%R true 1 1
  = blockwise_attn split2 bern2 q q q None true 1 1%R true 1 1
  /\ ring_attention split1 bern1 1 (fun _ => q) (fun _ => q) (fun _ => q)
       (fun _ => zeros4 (1, 1, 2, 2)) kw1
     = ring_attention split2 bern2 1 (fun _ => q) (fun _ => q) (fun _ => q)
         (fun _ => zeros4 (1, 1, 2, 2)) kw2
  /\ _ring_attention_bwd split1 bern1 1 kw1 res (fun _ => q)
     = _ring_attention_bwd split2 bern2 1 kw2 res (fun _ => q)
  /\ _blockwise_attention_bwd split1 bern1 q q q q z z z z carry 0 0 None kw1
     = _blockwise_attention_bwd split2 bern2 q q q q z z z z carry 0 0 None kw2.
Proof.
  intros q kw1 kw2 split1 split2 bern1 bern2 res carry z.
  apply (@dropout_rng_unused nat split1 split2 bern1 bern2 true 1%R
           (or_introl eq_refl) (Some normal) 1 1 2 0 1 q q q None true 1
           (fun _ => q) (fun _ => q) (fun _ => q) (fun _ => zeros4 (1, 1, 2, 2))
           res (fun _ => q) z z z z carry 0 0).
Defined.

(** ** Rearrangements of the length axis *)

Section Tabulate.

Context {X : Type}.

Lemma tabulate_row (g : nat -> option X) (m : nat) :
  (forall b, b < m -> g b <> None) ->
  List.length (flat_map (fun b => opt_list (g b)) (seq 0 m)) = m
  /\ forall b, b < m ->
       nth_error (flat_map (fun b => opt_list (g b)) (seq 0 m)) b = g b.
Proof.
  induction m as [|m IH]; intros Hg.
  - split; [reflexivity | intros b Hb; lia].
  - destruct IH as [Hlen Hnth]; [intros b Hb; apply Hg; lia|].
    rewrite seq_S, flat_map_app; cbn [flat_map Nat.add]. rewrite app_nil_r.
    assert (Hm : g m <> None) by (apply Hg; lia).
    destruct (g m) as [x|] eqn:Egm; [|congruence]. cbn [opt_list].
    split.
    + rewrite length_app, Hlen. simpl. lia.
    + intros b Hb. destruct (Nat.eq_dec b m) as [->|Hne].
      * rewrite nth_error_app2 by lia. rewrite Hlen, Nat.sub_diag. now rewrite Egm.
      * rewrite nth_error_app1 by lia. apply Hnth. lia.
Qed.

Lemma tabulate2_spec (n m : nat) (f : nat -> nat -> option X) :
  (forall a b, a < n -> b < m -> f a b <> None) ->
  List.length (tabulate2 n m f) = n * m
  /\ forall a b, a < n -> b < m -> nth_error (tabulate2 n m f) (a * m + b) = f a b.
Proof.
  unfold tabulate2. induction n as [|n IH]; intros Hf.
  - split; [reflexivity | intros a b Ha; lia].
  - destruct IH as [Hlen Hnth]; [intros a b Ha Hb; apply Hf; lia|].
    destruct (@tabulate_row (f n) m) as [Hrl Hrn]; [intros b Hb; apply Hf; lia|].
    rewrite seq_S, flat_map_app; cbn [flat_map Nat.add]. rewrite app_nil_r.
    split.
    + rewrite length_app, Hlen, Hrl. lia.
    + intros a b Ha Hb. destruct (Nat.eq_dec a n) as [->|Hne].
      * rewrite nth_error_app2 by (rewrite Hlen; lia).
        rewrite Hlen. replace (n * m + b - n * m) with b by lia. now apply Hrn.
      * rewrite nth_error_app1 by (rewrite Hlen; nia). apply Hnth; lia.
Qed.

Lemma transpose_flat_spec (rows cols : nat) (l : list X) :
  List.length l = rows * cols ->
  List.length (transpose_flat rows cols l) = rows * cols
  /\ forall r c, r < rows -> c < cols ->
       nth_error (transpose_flat rows cols l) (c * rows + r) = nth_error l (r * cols + c).
Proof.
  intros Hl. unfold transpose_flat.
  destruct (@tabulate2_spec cols rows (fun c r => nth_error l (r * cols + c)))
    as [Hlen Hnth].
  - intros c r Hc Hr. apply nth_error_Some. nia.
  - split; [lia|]. intros r c Hr Hc. now apply Hnth.
Qed.

(** Transposing twice gives the row back. *)
Lemma transpose_flat_involutive (rows cols : nat) (l : list X) :
  List.length l = rows * cols ->
  transpose_flat cols rows (transpose_flat rows cols l) = l.
Proof.
  intros Hl.
  destruct (transpose_flat_spec rows cols l Hl) as [Hlen1 Hnth1].
  destruct (@transpose_flat_spec cols rows (transpose_flat rows cols l)) as [Hlen2 Hnth2];
    [lia|].
  apply nth_error_ext. intros i.
  destruct (Nat.lt_ge_cases i (rows * cols)) as [Hi|Hi].
  - assert (Hc : 0 < cols) by nia.
    assert (Hr : i / cols < rows) by (apply Nat.Div0.div_lt_upper_bound; lia).
    assert (Hm : i mod cols < cols) by (apply Nat.mod_upper_bound; lia).
    assert (Ei : i = i / cols * cols + i mod cols)
      by (rewrite (Nat.div_mod_eq i cols) at 1; lia).
    rewrite Ei at 1. rewrite Hnth2 by assumption.
    rewrite Hnth1 by assumption. now rewrite <- Ei.
  - transitivity (@None X); [|symmetry]; apply nth_error_None; lia.
Qed.

End Tabulate.

Lemma flat_map_opt_map {X Y : Type} (f : X -> Y) (g : nat -> option X) (s : list nat) :
  flat_map (fun b => opt_list (option_map f (g b))) s
  = map f (flat_map (fun b => opt_list (g b)) s).
Proof.
  induction s as [|b s IH]; [reflexivity|]. cbn [flat_map].
  rewrite map_app, IH. now destruct (g b).
Qed.

Lemma transpose_flat_map {X Y : Type} (f : X -> Y) (rows cols : nat) (l : list X) :
  transpose_flat rows cols (map f l) = map f (transpose_flat rows cols l).
Proof.
  unfold transpose_flat, tabulate2.
  induction (seq 0 cols) as [|c s IH]; [reflexivity|]. cbn [flat_map].
  rewrite map_app, <- IH. f_equal.
  rewrite <- flat_map_opt_map. apply flat_map_ext. intros r.
  now rewrite nth_error_map.
Qed.

(** ** Token permutation: the inverse law *)

Lemma splits_by_rows {X : Type} (d : nat) (rows : list (list X)) :
  splits_by d rows = true ->
  0 < d /\ forall row, In row rows -> List.length row = List.length row / d * d.
Proof.
  unfold splits_by. intros H. apply andb_prop in H as [Hd Hall].
  apply Nat.ltb_lt in Hd. split; [assumption|].
  intros row Hin. rewrite forallb_forall in Hall.
  specialize (Hall row Hin). apply Nat.eqb_eq in Hall.
  rewrite (Nat.div_mod_eq (List.length row) d) at 1. lia.
Qed.

Lemma splits_by_same_lengths {X Y : Type} (d : nat) (rows : list (list X))
    (g : list X -> list Y) :
  (forall row, List.length (g row) = List.length row) ->
  splits_by d (map g rows) = splits_by d rows.
Proof.
  intros Hg. unfold splits_by. f_equal.
  induction rows as [|row rows IH]; [reflexivity|].
  cbn [map forallb]. now rewrite Hg, IH.
Qed.

(** C6 (amended).  [permute_tokens] takes a rank-two array [(b, length)]
    and [unpermute_outputs] a rank-three array [(b, length, x)].  On the
    length axis the second inverts the first: when [P >= 1] divides the
    length, attaching any feature vector [f t] to each token [t] of the
    permuted array and un-permuting gives the original tokens, in their
    original order, with their feature vectors.  For an attention type
    other than ["striped"] both functions return their argument. *)
Theorem unpermute_inverts_permute {A B : Type} (f : A -> list B)
    (attention_type : string) (rows : list (list A)) (P : nat) :
  splits_by P rows = true ->
  exists permuted,
    permute_tokens attention_type (Rank2 rows) P = Some (Rank2 permuted)
    /\ unpermute_outputs attention_type (Rank3 (map (map f) permuted)) P
       = Some (Rank3 (map (map f) rows))
    /\ (String.eqb attention_type "striped" = false -> permuted = rows).
Proof.
  intros Hs. unfold permute_tokens, unpermute_outputs.
  destruct (String.eqb attention_type "striped") eqn:Ety.
  - exists (map (fun row => transpose_flat (List.length row / P) P row) rows).
    destruct (splits_by_rows _ _ Hs) as [HP Hlen].
    cbn [rearrange_nd_dn rearrange_dnx_ndx]. rewrite Hs.
    split; [reflexivity|]. split; [|discriminate].
    assert (Hsame : forall row, In row rows ->
              List.length (transpose_flat (List.length row / P) P row) = List.length row).
    { intros row Hin.
      destruct (@transpose_flat_spec _ (List.length row / P) P row (Hlen row Hin))
        as [Hl _].
      rewrite Hl. symmetry. now apply Hlen. }
    assert (Hs' : splits_by P
              (map (map f) (map (fun row => transpose_flat (List.length row / P) P row) rows))
            = true).
    { rewrite map_map. unfold splits_by in *.
      apply andb_prop in Hs as [Hd Hall]. rewrite Hd. cbn [andb].
      rewrite forallb_forall in *. intros row' Hin'.
      apply in_map_iff in Hin' as [row [<- Hin]].
      rewrite length_map, Hsame by assumption. now apply Hall. }
    rewrite Hs'. do 2 f_equal. rewrite !map_map.
    apply map_ext_in. intros row Hin.
    rewrite length_map, Hsame by assumption.
    rewrite transpose_flat_map. f_equal.
    apply transpose_flat_involutive. now apply Hlen.
  - exists rows. repeat split; reflexivity.
Qed.

Lemma unpermute_inverts_permute_witness :
  exists permuted,
    permute_tokens "striped" (Rank2 [[0; 1; 2; 3; 4; 5]]) 2 = Some (Rank2 permuted)
    /\ unpermute_outputs "striped" (Rank3 (map (map (fun t => [t; t])) permuted)) 2
       = Some (Rank3 (map (map (fun t => [t; t])) [[0; 1; 2; 3; 4; 5]]))
    /\ (String.eqb "striped" "striped" = false -> permuted = [[0; 1; 2; 3; 4; 5]]).
Proof.
  apply (@unpermute_inverts_permute nat nat (fun t => [t; t]) "striped"
           [[0; 1; 2; 3; 4; 5]] 2).
  reflexivity.
Defined.

(** C6, as stated, fails for the striped type: [permute_tokens] accepts
    only a rank-two array and returns one, which [unpermute_outputs]
    rejects; a rank-three array is rejected by [permute_tokens]. *)
Lemma unpermute_after_permute_raises :
  unpermute_after_permute "striped" (Rank2 [[0; 1; 2; 3]]) 2 <> Some (Rank2 [[0; 1; 2; 3]])
  /\ unpermute_after_permute "striped" (Rank3 [[[0]; [1]; [2]; [3]]]) 2
     <> Some (Rank3 [[[0]; [1]; [2]; [3]]]).
Proof. split; discriminate. Qed.

Example permute_tokens_example :
  permute_tokens "striped" (Rank2 [[0; 1; 2; 3; 4; 5]]) 2
  = Some (Rank2 [[0; 2; 4; 1; 3; 5]]).
Proof. reflexivity. Qed.

(** ** Blockwise feed-forward *)






Section PositionWise.

Context {X Y : Type}.
Variable g : bool -> X -> Y.
Variable remat_ffn : bool -> list (list X) -> list (list Y).
Hypothesis position_wise : forall det t, remat_ffn det t = map (map (g det)) t.

Variables (inputs : list (list X)) (chunk_size n : nat) (deterministic : bool).
Hypothesis chunk_pos : 0 < chunk_size.
Hypothesis rows_len : forall row, In row inputs -> List.length row = chunk_size * n.




End PositionWise.



(** The chunks [blockwise_ffn] forms are strided: with four positions and
    [chunk_size = 2] the function sees positions [0; 2] and then [1; 3]. *)
Example blockwise_ffn_chunks_strided :
  strided_chunk 2 2 0 [[0; 1; 2; 3]] = [[0; 2]]
  /\ strided_chunk 2 2 1 [[0; 1; 2; 3]] = [[1; 3]]
  /\ blockwise_ffn reverse_chunk [[0; 1; 2; 3]] 2 true = [[2; 3; 0; 1]]
  /\ spec_blockwise_ffn reverse_chunk [[0; 1; 2; 3]] 2 true = [[1; 0; 3; 2]].
Proof. repeat split. Qed.

(** A function that mixes the positions of a chunk, which a feed-forward
    layer does not, can tell the chunks apart: on one row of four positions
    with [chunk_size = 2], reversing each chunk gives a result other than
    that of chunks of consecutive positions. *)
Lemma blockwise_ffn_not_contiguous :
  blockwise_ffn reverse_chunk [[0; 1; 2; 3]] 2 true
  <> spec_blockwise_ffn reverse_chunk [[0; 1; 2; 3]] 2 true.
Proof. discriminate. Qed.

(** ** Sums *)

Open Scope R_scope.

Lemma Rsum_ext (f g : nat -> R) (n : nat) :
  (forall j, (j < n)%nat -> f j = g j) -> Rsum f n = Rsum g n.
Proof.
  induction n as [|n IH]; intros H; [reflexivity|].
  cbn [Rsum]. rewrite IH by (intros j Hj; apply H; lia). now rewrite H by lia.
Qed.

Lemma Rsum_scale (f : nat -> R) (c : R) (n : nat) :
  Rsum (fun j => f j * c) n = Rsum f n * c.
Proof. induction n as [|n IH]; cbn [Rsum]; [lra | rewrite IH; lra]. Qed.

Lemma Rsum_plus (f g : nat -> R) (n : nat) :
  Rsum (fun j => f j + g j) n = Rsum f n + Rsum g n.
Proof. induction n as [|n IH]; cbn [Rsum]; [lra | rewrite IH; lra]. Qed.

Lemma Rsum_zero (n : nat) : Rsum (fun _ => 0) n = 0.
Proof. induction n as [|n IH]; cbn [Rsum]; [reflexivity | rewrite IH; lra]. Qed.

Lemma Rsum_const (c : R) (n : nat) : Rsum (fun _ => c) n = INR n * c.
Proof.
  induction n as [|n IH]; [cbn; lra|]. cbn [Rsum]. rewrite IH, S_INR. lra.
Qed.

Lemma Rsum_nonneg (f : nat -> R) (n : nat) :
  (forall j, (j < n)%nat -> 0 <= f j) -> 0 <= Rsum f n.
Proof.
  induction n as [|n IH]; intros H; cbn [Rsum]; [lra|].
  assert (0 <= Rsum f n) by (apply IH; intros j Hj; apply H; lia).
  assert (0 <= f n) by (apply H; lia). lra.
Qed.

Lemma Rsum_pos (f : nat -> R) (n j : nat) :
  (forall i, (i < n)%nat -> 0 <= f i) -> (j < n)%nat -> 0 < f j -> 0 < Rsum f n.
Proof.
  induction n as [|n IH]; intros H Hj Hp; [lia|]. cbn [Rsum].
  assert (0 <= Rsum f n) by (apply Rsum_nonneg; intros i Hi; apply H; lia).
  assert (0 <= f n) by (apply H; lia).
  destruct (Nat.eq_dec j n) as [->|Hne]; [lra|].
  assert (0 < Rsum f n) by (apply IH; [intros i Hi; apply H; lia | lia | assumption]).
  lra.
Qed.

(** ** The streaming-softmax state of one row *)

Lemma fin_exp_nonneg (x : score) : 0 <= fin_exp x.
Proof. destruct x; cbn; try lra. left. apply exp_pos. Qed.

Lemma sexp_sub_fin (x : score) (mu : R) :
  sexp_sub x (Fin mu) = fin_exp x * exp (- mu).
Proof.
  destruct x; cbn; try lra. unfold Rminus. now rewrite exp_plus.
Qed.

Lemma smax_n_cases (x : nat -> score) (n : nat) :
  (forall j, (j < n)%nat -> x j <> NegInf) -> (0 < n)%nat ->
  (smax_n x n = FMin /\ forall j, (j < n)%nat -> x j = FMin)
  \/ (exists rho, smax_n x n = Fin rho
      /\ exists j a, (j < n)%nat /\ x j = Fin a).
Proof.
  induction n as [|n IH]; intros Hx Hn; [lia|].
  cbn [smax_n]. assert (Hxn : x n <> NegInf) by (apply Hx; lia).
  destruct (Nat.eq_dec n 0) as [->|Hn0].
  - cbn [smax_n]. destruct (x 0%nat) as [| |a] eqn:E; [congruence| |].
    + left. split; [reflexivity|]. intros j Hj. now replace j with 0%nat by lia.
    + right. exists a. split; [reflexivity|]. exists 0%nat, a. split; [lia|assumption].
  - destruct IH as [[Hm Hall] | [rho [Hm [j [a [Hj Ha]]]]]];
      [intros j Hj; apply Hx; lia | lia | |].
    + rewrite Hm. destruct (x n) as [| |a] eqn:E; [congruence| |].
      * left. split; [reflexivity|]. intros j Hj.
        destruct (Nat.eq_dec j n) as [->|]; [assumption | apply Hall; lia].
      * right. exists a. split; [reflexivity|]. exists n, a. split; [lia|assumption].
    + rewrite Hm. right. destruct (x n) as [| |a'] eqn:E; [congruence| |].
      * exists rho. split; [reflexivity|]. exists j, a. split; [lia|assumption].
      * exists (Rmax rho a'). split; [reflexivity|]. exists j, a. split; [lia|assumption].
Qed.

Lemma tile_exp_pos (kc : nat) (x : nat -> score) (j : nat) (a : R) :
  (j < kc)%nat -> x j = Fin a -> 0 < Rsum (fun j => fin_exp (x j)) kc.
Proof.
  intros Hj Ha. apply Rsum_pos with (j := j); [|assumption|].
  - intros i _. apply fin_exp_nonneg.
  - rewrite Ha. cbn. apply exp_pos.
Qed.

Lemma row_step_inv (kc : nat) (x : nat -> score) (v : nat -> R)
    (st : rowstate) (s : rowsums) :
  (forall j, (j < kc)%nat -> x j <> NegInf) -> (0 < kc)%nat ->
  row_inv st s ->
  row_inv (row_step kc x v st) (sums_add s (tile_sums kc x v)).
Proof.
  intros Hx Hkc Hinv.
  assert (Hfin : forall mu,
    Rsum (fun j => sexp_sub (x j) (Fin mu)) kc
    = Rsum (fun j => fin_exp (x j)) kc * exp (- mu)
    /\ Rsum (fun j => sexp_sub (x j) (Fin mu) * v j) kc
       = Rsum (fun j => fin_exp (x j) * v j) kc * exp (- mu)).
  { intros mu. split.
    - rewrite <- Rsum_scale. apply Rsum_ext. intros j _. apply sexp_sub_fin.
    - rewrite <- Rsum_scale. apply Rsum_ext. intros j _. rewrite sexp_sub_fin. lra. }
  assert (Hnn : 0 <= Rsum (fun j => fin_exp (x j)) kc)
    by (apply Rsum_nonneg; intros; apply fin_exp_nonneg).
  unfold row_inv, row_step, tile_sums, sums_add in *. cbn [r_max r_den r_num
    s_exp s_expv s_cnt s_cntv] in *.
  destruct (smax_n_cases x Hx Hkc) as [[Hm Hall] | [rho [Hm [j [a [Hj Ha]]]]]];
    rewrite Hm.
  - (* every score of the tile is masked *)
    assert (Hc : Rsum (fun j => fin_exp (x j)) kc = 0
                 /\ Rsum (fun j => fin_exp (x j) * v j) kc = 0).
    { split; rewrite <- (Rsum_zero kc); apply Rsum_ext; intros j Hj;
        rewrite Hall by assumption; cbn; lra. }
    destruct Hc as [Hc0 Hc1].
    assert (Hcnt : Rsum (fun j => is_fmin (x j)) kc = INR kc).
    { rewrite <- (Rmult_1_r (INR kc)), <- Rsum_const. apply Rsum_ext.
      intros j Hj. now rewrite Hall. }
    assert (Hkpos : 0 < INR kc) by (apply lt_0_INR; lia).
    destruct (r_max st) as [| |mu]; cbn [smax].
    + destruct Hinv as (Hd & Hn & He & Hev & Hcn & Hcv).
      rewrite Hd, Hn, He, Hev, Hcn, Hcv, Hc0, Hc1, Hcnt.
      repeat split; try lra.
      * rewrite Rmult_0_l, Rplus_0_l, Rplus_0_l, <- (Rmult_1_r (INR kc)), <- Rsum_const.
        apply Rsum_ext. intros j Hj. now rewrite Hall.
      * rewrite Rmult_0_l, !Rplus_0_l. apply Rsum_ext. intros j Hj.
        now rewrite Hall.
    + destruct Hinv as (Hd & Hn & He & Hev & Hcn).
      rewrite Hd, Hn, He, Hev, Hc0, Hc1, Hcnt.
      repeat split; try lra.
      * cbn [sexp_sub]. rewrite Rmult_1_r. f_equal.
        rewrite <- (Rmult_1_r (INR kc)), <- Rsum_const.
        apply Rsum_ext. intros j Hj. now rewrite Hall.
      * cbn [sexp_sub]. rewrite Rmult_1_r. reflexivity.
    + destruct Hinv as (Hd & Hn & He).
      destruct (Hfin mu) as [H1 H2]. rewrite H1, H2, Hd, Hn, Hc0, Hc1.
      cbn [sexp_sub]. rewrite Rminus_diag, exp_0.
      repeat split; lra.
  - (* the tile has a finite score *)
    assert (Hpos : 0 < Rsum (fun j => fin_exp (x j)) kc)
      by (eapply tile_exp_pos; eassumption).
    destruct (r_max st) as [| |mu]; cbn [smax].
    + destruct Hinv as (Hd & Hn & He & Hev & Hcn & Hcv).
      destruct (Hfin rho) as [H1 H2]. rewrite H1, H2, Hd, Hn, He, Hev.
      repeat split; lra.
    + destruct Hinv as (Hd & Hn & He & Hev & Hcn).
      destruct (Hfin rho) as [H1 H2]. rewrite H1, H2, He, Hev.
      cbn [sexp_sub]. repeat split; lra.
    + destruct Hinv as (Hd & Hn & He).
      destruct (Hfin (Rmax mu rho)) as [H1 H2]. rewrite H1, H2, Hd, Hn.
      cbn [sexp_sub].
      replace (exp (mu - Rmax mu rho)) with (exp mu * exp (- Rmax mu rho))
        by (unfold Rminus; now rewrite exp_plus).
      assert (Hmu : exp (- mu) * exp mu = 1)
        by (rewrite <- exp_plus, Rplus_opp_l; apply exp_0).
      repeat split; try lra.
      * transitivity (s_exp s * (exp (- mu) * exp mu) * exp (- Rmax mu rho)
                      + Rsum (fun j => fin_exp (x j)) kc * exp (- Rmax mu rho));
          [lra | rewrite Hmu; lra].
      * transitivity (s_expv s * (exp (- mu) * exp mu) * exp (- Rmax mu rho)
                      + Rsum (fun j => fin_exp (x j) * v j) kc * exp (- Rmax mu rho));
          [lra | rewrite Hmu; lra].
Qed.

Lemma row_fold_inv (kc : nat) (skip : nat -> bool) (x : nat -> nat -> score)
    (v : nat -> nat -> R) (st : rowstate) (s : rowsums) (n : nat) :
  (0 < kc)%nat ->
  (forall t j, (t < n)%nat -> skip t = false -> (j < kc)%nat -> x t j <> NegInf) ->
  row_inv st s ->
  row_inv (row_fold kc skip x v st n) (fold_sums kc skip x v s n).
Proof.
  intros Hkc. induction n as [|n IH]; intros Hx Hinv; [assumption|].
  unfold row_fold, fold_sums in *. cbn [scan].
  destruct (skip n) eqn:Hs.
  - apply IH; [|assumption]. intros t j Ht. apply Hx. lia.
  - apply row_step_inv; [intros j Hj; apply Hx; auto | assumption |].
    apply IH; [|assumption]. intros t j Ht. apply Hx. lia.
Qed.

Lemma fold_sums_exp (kc : nat) (skip : nat -> bool) (x : nat -> nat -> score)
    (v : nat -> nat -> R) (s : rowsums) (n : nat) :
  s_exp (fold_sums kc skip x v s n)
  = s_exp s + Rsum (fun t => if skip t then 0
                             else Rsum (fun j => fin_exp (x t j)) kc) n
  /\ s_expv (fold_sums kc skip x v s n)
     = s_expv s + Rsum (fun t => if skip t then 0
                                 else Rsum (fun j => fin_exp (x t j) * v t j) kc) n.
Proof.
  induction n as [|n [IH1 IH2]]; [cbn; split; lra|].
  unfold fold_sums in *. cbn [scan Rsum].
  destruct (skip n); [rewrite IH1, IH2; split; lra|].
  cbn [sums_add tile_sums s_exp s_expv]. rewrite IH1, IH2. split; lra.
Qed.

(** Once the accumulated weight is positive the row is normalised by it,
    and the denominator is positive. *)
Lemma row_inv_output (st : rowstate) (s : rowsums) :
  row_inv st s -> 0 < s_exp s ->
  r_num st / r_den st = s_expv s / s_exp s /\ 0 < r_den st.
Proof.
  unfold row_inv. intros Hinv Hpos.
  destruct (r_max st) as [| |mu].
  - destruct Hinv as (_ & _ & He & _). lra.
  - destruct Hinv as (_ & _ & He & _). lra.
  - destruct Hinv as (Hd & Hn & _). rewrite Hd, Hn.
    pose proof (exp_pos (- mu)) as Hm. split.
    + field. split; lra.
    + apply Rmult_lt_0_compat; assumption.
Qed.

Lemma row_inv_den_pos (st : rowstate) (s : rowsums) :
  row_inv st s -> r_max st <> NegInf -> 0 < r_den st.
Proof.
  unfold row_inv. intros Hinv Hm. destruct (r_max st) as [| |mu]; [congruence| |].
  - destruct Hinv as (Hd & _ & _ & _ & Hc). lra.
  - destruct Hinv as (Hd & _ & He). rewrite Hd.
    apply Rmult_lt_0_compat; [assumption | apply exp_pos].
Qed.

Lemma row_inv_init : row_inv (mkRow 0 0 NegInf) sums_zero.
Proof. cbn. repeat split; reflexivity. Qed.

(** ** Folds that agree step by step *)

Lemma scan_ext {C : Type} (f g : C -> nat -> C) (init : C) (n : nat) :
  (forall c i, (i < n)%nat -> f c i = g c i) -> scan f init n = scan g init n.
Proof.
  intros H. induction n as [|n IH]; cbn [scan]; [reflexivity|].
  rewrite IH by (intros; apply H; lia). apply H. lia.
Qed.

Lemma smax_n_ext (x x' : nat -> score) (n : nat) :
  (forall j, (j < n)%nat -> x j = x' j) -> smax_n x n = smax_n x' n.
Proof.
  intros H. induction n as [|n IH]; cbn [smax_n]; [reflexivity|].
  rewrite IH by (intros; apply H; lia). now rewrite (H n) by lia.
Qed.

Lemma row_step_ext (kc : nat) (x x' : nat -> score) (v v' : nat -> R) (st : rowstate) :
  (forall j, (j < kc)%nat -> x j = x' j) -> (forall j, (j < kc)%nat -> v j = v' j) ->
  row_step kc x v st = row_step kc x' v' st.
Proof.
  intros Hx Hv. unfold row_step. rewrite (smax_n_ext _ _ Hx).
  f_equal; f_equal; apply Rsum_ext; intros j Hj; rewrite (Hx j Hj); try reflexivity.
  now rewrite (Hv j Hj).
Qed.

Lemma row_fold_ext (kc : nat) (skip skip' : nat -> bool) (x x' : nat -> nat -> score)
    (v v' : nat -> nat -> R) (st : rowstate) (n : nat) :
  (forall t, (t < n)%nat -> skip t = skip' t) ->
  (forall t j, (t < n)%nat -> skip t = false -> (j < kc)%nat -> x t j = x' t j) ->
  (forall t j, (t < n)%nat -> skip t = false -> (j < kc)%nat -> v t j = v' t j) ->
  row_fold kc skip x v st n = row_fold kc skip' x' v' st n.
Proof.
  intros Hs Hx Hv. unfold row_fold. apply scan_ext. intros c t Ht.
  rewrite <- (Hs t Ht). destruct (skip t) eqn:E; [reflexivity|].
  apply row_step_ext; intros j Hj; [now apply Hx | now apply Hv].
Qed.

Lemma streaming_row_ext (L kc : nat) (skip skip' : nat -> nat -> bool)
    (score score' : nat -> R) (visible visible' : nat -> bool) (value value' : nat -> R)
    (order : nat -> nat) (n : nat) :
  (forall idx t, (idx < n)%nat -> (t < L / kc)%nat ->
     skip (order idx) t = skip' (order idx) t) ->
  (forall idx t j, (idx < n)%nat -> (t < L / kc)%nat -> (j < kc)%nat ->
     skip (order idx) t = false ->
     score (order idx * L + (t * kc + j))%nat = score' (order idx * L + (t * kc + j))%nat
     /\ visible (order idx * L + (t * kc + j))%nat
        = visible' (order idx * L + (t * kc + j))%nat
     /\ value (order idx * L + (t * kc + j))%nat
        = value' (order idx * L + (t * kc + j))%nat) ->
  streaming_row L kc skip score visible value order n
  = streaming_row L kc skip' score' visible' value' order n.
Proof.
  intros Hs Hx. unfold streaming_row.
  induction n as [|n IH]; [reflexivity|].
  cbn [scan]. rewrite IH.
  - apply row_fold_ext.
    + intros t Ht. apply Hs; [lia | assumption].
    + intros t j Ht Hsk Hj.
      destruct (Hx n t j ltac:(lia) Ht Hj Hsk) as (-> & -> & _). reflexivity.
    + intros t j Ht Hsk Hj.
      destruct (Hx n t j ltac:(lia) Ht Hj Hsk) as (_ & _ & ->). reflexivity.
  - intros idx t Hidx Ht. apply Hs; [lia | assumption].
  - intros idx t j Hidx Ht Hj Hsk. apply Hx; [lia | assumption | assumption | assumption].
Qed.

(** ** The forward pass, row by row *)

Lemma fwd_step_row (causal_layout : option layout) (qc kc bs dim : nat) (scale : R)
    (bias_fn : nat -> nat -> Tensor4 score) (qs ks : nat) (q_chunk : tile4) (qi : nat)
    (carry : fwd_carry) (k_chunk v_chunk : tile4) (t : nat) (b h c d : nat) :
  row_of (fwd_skip_upper_half causal_layout qc kc bs dim scale bias_fn qs ks
            q_chunk qi carry k_chunk v_chunk t) b h c d
  = if fwd_skip_block causal_layout qc kc bs qs ks qi t then row_of carry b h c d
    else row_step kc
           (fun j => sadd (Fin (einsum_qk dim q_chunk k_chunk b h c j / scale))
                          (bread (bias_fn (qs + qi)%nat (ks + t)%nat) b h c j))
           (fun j => v_chunk b j h d) (row_of carry b h c d).
Proof.
  unfold fwd_skip_upper_half.
  destruct (fwd_skip_block causal_layout qc kc bs qs ks qi t); reflexivity.
Qed.

Lemma div_mod_tile (qc qi c : nat) :
  (c < qc)%nat -> ((qi * qc + c) / qc = qi /\ (qi * qc + c) mod qc = c)%nat.
Proof.
  intros Hc. split.
  - rewrite Nat.add_comm, Nat.div_add by lia. rewrite Nat.div_small by lia. lia.
  - rewrite Nat.add_comm, Nat.Div0.mod_add. now apply Nat.mod_small.
Qed.

Lemma fwd_inner_rows (causal_layout : option layout) (qc kc bs dim : nat) (scale : R)
    (bias_fn : nat -> nat -> Tensor4 score) (qs ks : nat) (q_chunk : tile4) (qi : nat)
    (k v : Tensor4 R) (init : fwd_carry) (b h c d n : nat) :
  row_of (scan (fun carry t =>
                  fwd_skip_upper_half causal_layout qc kc bs dim scale bias_fn qs ks
                    q_chunk qi carry (chunk_of k kc t) (chunk_of v kc t) t) init n)
         b h c d
  = row_fold kc (fun t => fwd_skip_block causal_layout qc kc bs qs ks qi t)
      (fun t j => sadd (Fin (einsum_qk dim q_chunk (chunk_of k kc t) b h c j / scale))
                       (bread (bias_fn (qs + qi)%nat (ks + t)%nat) b h c j))
      (fun t j => at4 v b (t * kc + j)%nat h d)
      (row_of init b h c d) n.
Proof.
  induction n as [|n IH]; [reflexivity|].
  unfold row_fold in *. cbn [scan]. rewrite fwd_step_row, IH. reflexivity.
Qed.

(** One call of [_blockwise_attention_fwd] seen from the row of query
    position [qi * qc + c]: a fold over the key tiles. *)
Lemma fwd_rows (key : Type) (random_split : key -> key * key)
    (random_bernoulli : key -> R -> shape4 -> nat -> nat -> nat -> nat -> bool)
    (q k v : Tensor4 R) (carry : fwd_carry) (qs ks : nat)
    (bias : option (Tensor4 R)) (kw : blockwise_kwargs key) (b h qi c d : nat) :
  (c < kw_query_chunk_size kw)%nat ->
  row_of (_blockwise_attention_fwd random_split random_bernoulli q k v carry qs ks
            bias kw) b h (qi * kw_query_chunk_size kw + c)%nat d
  = row_fold (kw_key_chunk_size kw)
      (fun t => fwd_skip_block (kw_causal_layout kw) (kw_query_chunk_size kw)
                  (kw_key_chunk_size kw) (kw_block_size kw) qs ks qi t)
      (fun t j => fwd_entry q k
                    (fwd_bias_fn random_split random_bernoulli q k bias kw)
                    (kw_query_chunk_size kw) (kw_key_chunk_size kw) qs ks b h qi c t j)
      (fun t j => at4 v b (t * kw_key_chunk_size kw + j)%nat h d)
      (row_of carry b h (qi * kw_query_chunk_size kw + c)%nat d)
      (dim1 (shape k) / kw_key_chunk_size kw).
Proof.
  intros Hc. destruct (div_mod_tile qi Hc) as [Hdiv Hmod].
  unfold _blockwise_attention_fwd, carry_unchunk, row_of at 1.
  cbn [c_num c_den c_max]. rewrite Hdiv, Hmod.
  match goal with
  | |- {| r_num := c_num ?S _ _ _ _; r_den := _; r_max := _ |} = _ =>
      change (row_of S b h c d = 
        row_fold (kw_key_chunk_size kw)
      (fun t => fwd_skip_block (kw_causal_layout kw) (kw_query_chunk_size kw)
                  (kw_key_chunk_size kw) (kw_block_size kw) qs ks qi t)
      (fun t j => fwd_entry q k
                    (fwd_bias_fn random_split random_bernoulli q k bias kw)
                    (kw_query_chunk_size kw) (kw_key_chunk_size kw) qs ks b h qi c t j)
      (fun t j => at4 v b (t * kw_key_chunk_size kw + j)%nat h d)
      (row_of carry b h (qi * kw_query_chunk_size kw + c)%nat d)
      (dim1 (shape k) / kw_key_chunk_size kw))
  end.
  rewrite fwd_inner_rows. reflexivity.
Qed.

(** ** The single-device pass, row by row *)

Lemma attn_inner_rows (causal : bool) (kc dim : nat)
    (bias_fn : nat -> nat -> Tensor4 score) (query_chunk : tile4) (qi : nat)
    (k v : Tensor4 R) (init : attn_carry) (b h c d n : nat) :
  attn_row_of (scan (fun carry t =>
                       attn_skip_upper_half causal kc dim bias_fn query_chunk qi carry
                         (chunk_of k kc t) (chunk_of v kc t) t) init n) b h c d
  = row_fold kc (fun t => attn_skip_block causal qi t)
      (fun t j =>
         sadd (Fin (Rsum (fun d' => query_chunk b c h d' * at4 k b (t * kc + j)%nat h d')
                         dim))
              (bread (bias_fn qi t) b h c j))
      (fun t j => at4 v b (t * kc + j)%nat h d)
      (attn_row_of init b h c d) n.
Proof.
  induction n as [|n IH]; [reflexivity|].
  unfold row_fold in *. cbn [scan]. rewrite <- IH.
  unfold attn_skip_upper_half.
  destruct (attn_skip_block causal qi n); reflexivity.
Qed.

Lemma Rsum_flatten (F : nat -> R) (n kc : nat) :
  Rsum (fun t => Rsum (fun j => F (t * kc + j)%nat) kc) n = Rsum F (n * kc).
Proof.
  induction n as [|n IH]; [reflexivity|].
  cbn [Rsum]. rewrite IH. replace (S n * kc)%nat with (n * kc + kc)%nat by lia.
  generalize (n * kc)%nat as a. intros a. clear IH.
  induction kc as [|m IHm]; [now rewrite Nat.add_0_r; cbn; lra|].
  rewrite Nat.add_succ_r. cbn [Rsum]. rewrite <- IHm. lra.
Qed.

Lemma Rsum_div (f : nat -> R) (c : R) (n : nat) :
  Rsum (fun j => f j / c) n = Rsum f n / c.
Proof. unfold Rdiv. apply Rsum_scale. Qed.

Lemma Rsum_exp_pos (s : nat -> R) (n : nat) :
  (0 < n)%nat -> 0 < Rsum (fun j => exp (s j)) n.
Proof.
  intros Hn. apply Rsum_pos with (j := 0%nat); [|assumption|apply exp_pos].
  intros i _. left. apply exp_pos.
Qed.

Lemma divides_mul (n c : nat) : (n mod c = 0)%nat -> (n / c * c = n)%nat.
Proof. intros H. rewrite (Nat.div_mod_eq n c) at 2. lia. Qed.

Lemma chunk_bias_plain (qc kc bs : nat) (deterministic : bool)
    (attn_dropout : option (Tensor4 bool)) (attn_pdrop : R) (qi ki b h c j : nat) :
  dropout_on deterministic attn_pdrop = false ->
  bread (_chunk_attention_bias qc kc bs None deterministic attn_dropout attn_pdrop
           None qi ki) b h c j = Fin 0.
Proof.
  intros Hd. unfold _chunk_attention_bias. rewrite Hd. reflexivity.
Qed.

(** The value [blockwise_attn] returns at an index, without causal mask,
    bias or dropout, is that of dense attention. *)
Lemma blockwise_attn_dense_value (key : Type) (random_split : key -> key * key)
    (random_bernoulli : key -> R -> shape4 -> nat -> nat -> nat -> nat -> bool)
    (query key_ value : Tensor4 R) (deterministic : bool) (dropout_rng : key)
    (attn_pdrop : R) (query_chunk_size key_chunk_size : nat) (b pos h d : nat) :
  dropout_on deterministic attn_pdrop = false ->
  (0 < query_chunk_size)%nat -> (0 < key_chunk_size)%nat ->
  (dim1 (shape key_) mod key_chunk_size = 0)%nat ->
  (0 < dim1 (shape key_))%nat ->
  at4 (blockwise_attn random_split random_bernoulli query key_ value None
         deterministic dropout_rng attn_pdrop false
         query_chunk_size key_chunk_size) b pos h d
  = at4 (dense_attention query key_ value) b pos h d.
Proof.
  intros Hdrop Hqc Hkc Hk Hlen.
  unfold blockwise_attn, dense_attention. cbn [at4 shape].
  set (qi := (pos / query_chunk_size)%nat).
  set (c := (pos mod query_chunk_size)%nat).
  set (dim := dim3 (shape query)).
  set (kv_len := dim1 (shape key_)).
  match goal with
  | |- a_num ?S _ _ _ _ / _ = _ =>
      change (r_num (attn_row_of S b h c d) / r_den (attn_row_of S b h c d)
              = Rsum (fun j => softmax kv_len (dense_scores query key_ b h pos) j
                               * at4 value b j h d) kv_len)
  end.
  rewrite attn_inner_rows.
  change (fun t : nat => attn_skip_block false qi t) with (fun _ : nat => false).
  set (x := fun t j : nat => sadd _ _).
  set (v := fun t j : nat => at4 value b (t * key_chunk_size + j)%nat h d).
  assert (Hpos : (qi * query_chunk_size + c = pos)%nat).
  { subst qi c. rewrite (Nat.div_mod_eq pos query_chunk_size) at 3. lia. }
  assert (Hx : forall t j, x t j
               = Fin (dense_scores query key_ b h pos (t * key_chunk_size + j)%nat)).
  { intros t j. subst x. cbn beta. rewrite chunk_bias_plain by assumption.
    cbn [sadd]. f_equal. unfold chunk_of, dense_scores. cbn [at4].
    rewrite Hpos, Rplus_0_r. fold dim. rewrite <- Rsum_div.
    apply Rsum_ext. intros d' _. unfold Rdiv. ring. }
  set (num_kv := (kv_len / key_chunk_size)%nat).
  assert (Hnk : (num_kv * key_chunk_size = kv_len)%nat)
    by (apply divides_mul; assumption).
  assert (Hinv := @row_fold_inv key_chunk_size (fun _ : nat => false)
                    x v (mkRow 0 0 NegInf) sums_zero num_kv Hkc).
  destruct (fold_sums_exp key_chunk_size (fun _ : nat => false)
              x v sums_zero num_kv) as [He Hev].
  cbn [sums_zero s_exp s_expv] in He, Hev.
  rewrite Rplus_0_l in He, Hev.
  rewrite (Rsum_ext _ (fun t => Rsum (fun j =>
             exp (dense_scores query key_ b h pos (t * key_chunk_size + j)%nat))
             key_chunk_size)) in He
    by (intros t _; apply Rsum_ext; intros j _; now rewrite Hx).
  rewrite (Rsum_ext _ (fun t => Rsum (fun j =>
             exp (dense_scores query key_ b h pos (t * key_chunk_size + j)%nat)
             * at4 value b (t * key_chunk_size + j)%nat h d) key_chunk_size)) in Hev
    by (intros t _; apply Rsum_ext; intros j _; now rewrite Hx).
  rewrite (Rsum_flatten (fun p => exp (dense_scores query key_ b h pos p))) in He.
  rewrite (Rsum_flatten (fun p => exp (dense_scores query key_ b h pos p)
                                    * at4 value b p h d)) in Hev.
  rewrite Hnk in He, Hev.
  destruct (@row_inv_output _ _ (Hinv ltac:(intros t j _ _ _; rewrite Hx; discriminate)
                                   row_inv_init)) as [Hout _].
  { rewrite He. apply Rsum_exp_pos. assumption. }
  change (attn_row_of _ b h c d) with (mkRow 0 0 NegInf).
  rewrite Hout, He, Hev. unfold softmax.
  unfold Rdiv at 1. rewrite <- Rsum_scale. apply Rsum_ext. intros j _.
  unfold Rdiv. ring.
Qed.

(** In exact arithmetic (every float taken as the real number it stands
    for, no rounding and no overflow): with [causal = false], no bias and
    dropout inactive, for chunk sizes that divide the sequence lengths,
    [blockwise_attn] returns dense scaled-dot-product attention
    [softmax(Q K^T / sqrt(head_dim)) V], the same shape and the same value
    at every index.  The binary32 evaluations further below show that the
    equality does not survive rounding. *)
Lemma blockwise_attn_is_dense_exact (key : Type) (random_split : key -> key * key)
    (random_bernoulli : key -> R -> shape4 -> nat -> nat -> nat -> nat -> bool)
    (query key_ value : Tensor4 R) (deterministic : bool) (dropout_rng : key)
    (attn_pdrop : R) (query_chunk_size key_chunk_size : nat) (b pos h d : nat) :
  dropout_on deterministic attn_pdrop = false ->
  (0 < query_chunk_size)%nat -> (0 < key_chunk_size)%nat ->
  (dim1 (shape query) mod query_chunk_size = 0)%nat ->
  (dim1 (shape key_) mod key_chunk_size = 0)%nat ->
  (0 < dim1 (shape key_))%nat ->
  let out := blockwise_attn random_split random_bernoulli query key_ value None
               deterministic dropout_rng attn_pdrop false
               query_chunk_size key_chunk_size in
  shape out = shape (dense_attention query key_ value)
  /\ at4 out b pos h d = at4 (dense_attention query key_ value) b pos h d.
Proof.
  intros Hdrop Hqc Hkc Hq Hk Hlen out. subst out. split.
  - unfold blockwise_attn, dense_attention. cbn [shape].
    rewrite (divides_mul _ _ Hq).
    destruct (shape query) as [[[d0 d1] d2] d3]. reflexivity.
  - now apply blockwise_attn_dense_value.
Qed.

(** ** The ring rotation *)

Close Scope R_scope.

Lemma find_map_seq {T : Type} (g : nat -> T) (test : T -> bool) (n a i0 : nat) :
  a <= i0 < a + n -> test (g i0) = true ->
  (forall i, a <= i < i0 -> test (g i) = false) ->
  find test (map g (seq a n)) = Some (g i0).
Proof.
  revert a. induction n as [|n IH]; intros a Hi Ht Hf; [lia|].
  cbn [seq map find]. destruct (Nat.eq_dec a i0) as [->|Hne].
  - now rewrite Ht.
  - rewrite Hf by lia. apply IH; [lia | assumption | intros i Hi'; apply Hf; lia].
Qed.

Lemma ring_k_block_idx_nat (P r idx : nat) :
  0 < P -> idx <= r + P ->
  ring_k_block_idx P r idx = (r + P - idx) mod P.
Proof.
  intros HP Hidx. unfold ring_k_block_idx.
  replace (Z.of_nat r - Z.of_nat idx)%Z
    with (Z.of_nat (r + P - idx) + (-1) * Z.of_nat P)%Z by lia.
  rewrite Z.mod_add by lia. rewrite <- Nat2Z.inj_mod. apply Nat2Z.id.
Qed.

Lemma ring_k_block_idx_lt (P r idx : nat) : 0 < P -> ring_k_block_idx P r idx < P.
Proof.
  intros HP. unfold ring_k_block_idx.
  pose proof (Z.mod_pos_bound (Z.of_nat r - Z.of_nat idx) (Z.of_nat P) ltac:(lia)). lia.
Qed.

Lemma ring_k_block_idx_0 (P r : nat) : r < P -> ring_k_block_idx P r 0 = r.
Proof.
  intros Hr. rewrite ring_k_block_idx_nat by lia.
  replace (r + P - 0) with (r + 1 * P) by lia.
  rewrite Nat.Div0.mod_add. now apply Nat.mod_small.
Qed.

Lemma ring_k_block_idx_S (P r idx : nat) :
  0 < P ->
  ring_k_block_idx P (ring_k_block_idx P r 1) idx = ring_k_block_idx P r (S idx).
Proof.
  intros HP. unfold ring_k_block_idx.
  rewrite Z2Nat.id by (apply Z.mod_pos_bound; lia).
  rewrite Zminus_mod_idemp_l. f_equal. f_equal. lia.
Qed.

(** The rotation hands rank [r] the value of rank [(r - 1) mod P]. *)
Lemma ppermute_ring {T : Type} (zero : T) (P : nat) (x : nat -> T) (r : nat) :
  r < P ->
  ppermute zero (ring_perm P) x r = x (ring_k_block_idx P r 1).
Proof.
  intros Hr. unfold ppermute, ring_perm.
  rewrite ring_k_block_idx_nat by lia.
  set (i0 := (r + P - 1) mod P).
  assert (Hi0 : i0 < P) by (apply Nat.mod_upper_bound; lia).
  assert (Hi0r : (i0 + 1) mod P = r).
  { unfold i0. rewrite Nat.Div0.add_mod_idemp_l.
    replace (r + P - 1 + 1) with (r + 1 * P) by lia.
    rewrite Nat.Div0.mod_add. now apply Nat.mod_small. }
  rewrite (@find_map_seq _ (fun i => (i, (i + 1) mod P)) (fun p => snd p =? r) P 0 i0).
  - reflexivity.
  - lia.
  - cbn [snd]. now apply Nat.eqb_eq.
  - intros i Hi. cbn [snd]. apply Nat.eqb_neq. intros Heq.
    assert (i < P) by lia.
    destruct (Nat.eq_dec (i + 1) P) as [E|E].
    + rewrite E, Nat.Div0.mod_same in Heq. unfold i0 in *. subst r.
      replace (0 + P - 1) with (P - 1) in * by lia.
      rewrite Nat.mod_small in Hi by lia. lia.
    + rewrite Nat.mod_small in Heq by lia. unfold i0 in *. subst r.
      replace (i + 1 + P - 1) with (i + 1 * P) in Hi by lia.
      rewrite Nat.Div0.mod_add, Nat.mod_small in Hi by lia. lia.
Qed.

Section RingRows.

Variable key : Type.
Variable random_split : key -> key * key.
Variable random_bernoulli : key -> R -> shape4 -> nat -> nat -> nat -> nat -> bool.
Variable P : nat.
Variables q k v attn_bias : nat -> Tensor4 R.
Variable kw : blockwise_kwargs key.
Hypothesis P_pos : 0 < P.

Let states := ring_states random_split random_bernoulli P q k v attn_bias kw.

Lemma ring_states_S (n : nat) :
  states (S n)
  = ring_fwd_scan_kv_block random_split random_bernoulli P q attn_bias
      (fun rank => dim1 (shape (k rank))) kw (states n) n.
Proof. reflexivity. Qed.

(** After [n] hops rank [r] holds the key and value shards of rank
    [(r - n) mod P]. *)
Lemma ring_states_kv (n r : nat) :
  r < P ->
  rs_k (states n r) = k (ring_k_block_idx P r n)
  /\ rs_v (states n r) = v (ring_k_block_idx P r n).
Proof.
  revert r. induction n as [|n IH]; intros r Hr.
  - rewrite ring_k_block_idx_0 by assumption. split; reflexivity.
  - rewrite ring_states_S. unfold ring_fwd_scan_kv_block. cbn [rs_k rs_v].
    rewrite !ppermute_ring by assumption.
    destruct (IH (ring_k_block_idx P r 1)) as [Hk Hv];
      [now apply ring_k_block_idx_lt|].
    rewrite Hk, Hv, ring_k_block_idx_S by assumption. split; reflexivity.
Qed.

Lemma ring_rows (r b h qi c d n : nat) :
  r < P -> c < kw_query_chunk_size kw ->
  row_of (rs_carry (states n r)) b h (qi * kw_query_chunk_size kw + c) d
  = ring_row random_split random_bernoulli P q k v attn_bias kw r b h qi c d n.
Proof.
  intros Hr Hc. induction n as [|n IH]; [reflexivity|].
  rewrite ring_states_S. unfold ring_fwd_scan_kv_block. cbn [rs_carry].
  destruct (ring_states_kv n Hr) as [Hk Hv]. rewrite Hk, Hv.
  rewrite fwd_rows by assumption. rewrite IH. reflexivity.
Qed.

(** The output of [ring_attention] at a query position is the ratio of
    the row's numerator and denominator after [P] hops. *)
Lemma ring_attention_row (r b h qi c d : nat) :
  r < P -> c < kw_query_chunk_size kw ->
  at4 (ring_attention random_split random_bernoulli P q k v attn_bias kw r)
      b (qi * kw_query_chunk_size kw + c) h d
  = (r_num (ring_row random_split random_bernoulli P q k v attn_bias kw r b h qi c d P)
     / r_den (ring_row random_split random_bernoulli P q k v attn_bias kw r b h qi c d P))%R.
Proof.
  intros Hr Hc. rewrite <- (@ring_rows r b h qi c d P Hr Hc). reflexivity.
Qed.

End RingRows.

(** ** Scores are never [-inf] while dropout is inactive *)

Lemma chunk_bias_not_neginf (qc kc bs : nat) (bias : option (Tensor4 R))
    (deterministic : bool) (attn_dropout : option (Tensor4 bool)) (attn_pdrop : R)
    (causal_layout : option layout) (qi ki b h c j : nat) :
  dropout_on deterministic attn_pdrop = false ->
  bread (_chunk_attention_bias qc kc bs bias deterministic attn_dropout attn_pdrop
           causal_layout qi ki) b h c j <> NegInf.
Proof.
  intros Hd. unfold _chunk_attention_bias. rewrite Hd.
  set (base := match bias with Some b0 => _ | None => _ end).
  assert (Hbase : forall b' h' i' j', exists a, at4 base b' h' i' j' = Fin a).
  { intros. subst base. destruct bias; cbn; eexists; reflexivity. }
  assert (Hmask : forall off b' h' i' j',
            bread (causal_mask_value qc kc off) b' h' i' j' <> NegInf).
  { intros. unfold bread, causal_mask_value. cbn [at4].
    match goal with |- (if ?t then _ else _) <> _ => destruct t end; discriminate. }
  destruct causal_layout as [[|]|].
  - unfold bread at 1. cbn [tile_add at4].
    match goal with |- sadd (bread base ?b' ?h' ?i' ?j') ?y <> _ =>
      unfold bread at 1; destruct (Hbase (bidx (dim0 (shape base)) b')
        (bidx (dim1 (shape base)) h') (bidx (dim2 (shape base)) i')
        (bidx (dim3 (shape base)) j')) as [a ->];
      pose proof (Hmask (Z.of_nat (qi * qc) - Z.of_nat (ki * kc))%Z b' h' i' j') as Hm;
      destruct y; [congruence | discriminate | discriminate]
    end.
  - unfold bread at 1. cbn [tile_add at4].
    match goal with |- sadd (bread base ?b' ?h' ?i' ?j') ?y <> _ =>
      unfold bread at 1; destruct (Hbase (bidx (dim0 (shape base)) b')
        (bidx (dim1 (shape base)) h') (bidx (dim2 (shape base)) i')
        (bidx (dim3 (shape base)) j')) as [a ->];
      pose proof (Hmask (striped_offset bs (qi * qc) (ki * kc)) b' h' i' j') as Hm;
      destruct y; [congruence | discriminate | discriminate]
    end.
  - unfold bread. destruct (Hbase (bidx (dim0 (shape base)) b)
        (bidx (dim1 (shape base)) h) (bidx (dim2 (shape base)) c)
        (bidx (dim3 (shape base)) j)) as [a ->]. discriminate.
Qed.

Lemma fwd_entry_not_neginf (key : Type) (random_split : key -> key * key)
    (random_bernoulli : key -> R -> shape4 -> nat -> nat -> nat -> nat -> bool)
    (q k : Tensor4 R) (bias : option (Tensor4 R)) (kw : blockwise_kwargs key)
    (qs ks b h qi c t j : nat) :
  dropout_on (kw_deterministic kw) (kw_attn_pdrop kw) = false ->
  fwd_entry q k (fwd_bias_fn random_split random_bernoulli q k bias kw)
    (kw_query_chunk_size kw) (kw_key_chunk_size kw) qs ks b h qi c t j <> NegInf.
Proof.
  intros Hd. unfold fwd_entry, fwd_bias_fn.
  match goal with |- sadd _ ?y <> _ =>
    assert (Hy : y <> NegInf) by (now apply chunk_bias_not_neginf); destruct y
  end; [congruence | discriminate | discriminate].
Qed.

(** ** The running maximum leaves [-inf] with the first folded tile *)

Lemma smax_not_neginf_l (m y : score) : m <> NegInf -> smax m y <> NegInf.
Proof. destruct m, y; cbn; congruence. Qed.

Lemma smax_not_neginf_r (m y : score) : y <> NegInf -> smax m y <> NegInf.
Proof. destruct m, y; cbn; congruence. Qed.

Lemma row_step_max (kc : nat) (x : nat -> score) (v : nat -> R) (st : rowstate) :
  (forall j, j < kc -> x j <> NegInf) -> 0 < kc ->
  r_max (row_step kc x v st) <> NegInf.
Proof.
  intros Hx Hkc. unfold row_step. cbn [r_max]. apply smax_not_neginf_r.
  destruct (smax_n_cases x Hx Hkc) as [[-> _] | [rho [-> _]]]; discriminate.
Qed.

Lemma row_fold_max_keep (kc : nat) (skip : nat -> bool) (x : nat -> nat -> score)
    (v : nat -> nat -> R) (st : rowstate) (n : nat) :
  r_max st <> NegInf -> r_max (row_fold kc skip x v st n) <> NegInf.
Proof.
  intros Hm. induction n as [|n IH]; [assumption|].
  unfold row_fold in *. cbn [scan]. destruct (skip n); [assumption|].
  unfold row_step. cbn [r_max]. now apply smax_not_neginf_l.
Qed.

Lemma row_fold_max (kc : nat) (skip : nat -> bool) (x : nat -> nat -> score)
    (v : nat -> nat -> R) (st : rowstate) (n t0 : nat) :
  0 < kc -> t0 < n -> skip t0 = false ->
  (forall j, j < kc -> x t0 j <> NegInf) ->
  r_max (row_fold kc skip x v st n) <> NegInf.
Proof.
  intros Hkc Ht Hs Hx. induction n as [|n IH]; [lia|].
  destruct (Nat.eq_dec t0 n) as [->|Hne].
  - unfold row_fold. cbn [scan]. rewrite Hs. now apply row_step_max.
  - assert (Hn : r_max (row_fold kc skip x v st n) <> NegInf) by (apply IH; lia).
    unfold row_fold in *. cbn [scan]. destruct (skip n); [assumption|].
    unfold row_step. cbn [r_max]. now apply smax_not_neginf_l.
Qed.

(** ** The diagonal tile *)

Lemma tile_bounds (pos c : nat) : 0 < c -> pos / c * c <= pos < pos / c * c + c.
Proof.
  intros Hc. pose proof (Nat.div_mod_eq pos c).
  pose proof (Nat.mod_upper_bound pos c). lia.
Qed.

Lemma block_offset_mod (r L a : nat) : a < L -> (r * L + a) mod L = a.
Proof.
  intros Ha. rewrite Nat.add_comm, Nat.Div0.mod_add. now apply Nat.mod_small.
Qed.

(** The key tile that holds a query position of the rank's own block is
    not skipped at the first hop, in either causal layout. *)
Lemma diagonal_not_skipped (l : layout) (qc kc L r pos : nat) :
  0 < qc -> 0 < kc -> L mod qc = 0 -> L mod kc = 0 -> pos < L ->
  fwd_skip_block (Some l) qc kc L (r * (L / qc)) (r * (L / kc)) (pos / qc) (pos / kc)
  = false
  /\ pos / kc < L / kc.
Proof.
  intros Hqc Hkc HLq HLk Hpos.
  pose proof (divides_mul _ _ HLq) as Eq. pose proof (divides_mul _ _ HLk) as Ek.
  pose proof (tile_bounds pos Hqc) as Bq. pose proof (tile_bounds pos Hkc) as Bk.
  split.
  - unfold fwd_skip_block.
    replace ((r * (L / qc) + pos / qc) * qc) with (r * L + pos / qc * qc) by nia.
    replace ((r * (L / kc) + pos / kc) * kc) with (r * L + pos / kc * kc) by nia.
    destruct l.
    + apply Nat.leb_gt. lia.
    + rewrite !block_offset_mod by lia. apply Nat.leb_gt. lia.
  - apply Nat.Div0.div_lt_upper_bound. lia.
Qed.

Section RingPositivity.

Variable key : Type.
Variable random_split : key -> key * key.
Variable random_bernoulli : key -> R -> shape4 -> nat -> nat -> nat -> nat -> bool.
Variable P : nat.
Variables q k v attn_bias : nat -> Tensor4 R.
Variable kw : blockwise_kwargs key.
Variables (rank b h qi c d : nat).

Hypothesis dropout_inactive :
  dropout_on (kw_deterministic kw) (kw_attn_pdrop kw) = false.
Hypothesis kc_pos : 0 < kw_key_chunk_size kw.

Let row := ring_row random_split random_bernoulli P q k v attn_bias kw rank b h qi c d.
Let sums := ring_sums random_split random_bernoulli P q k v attn_bias kw rank b h qi c d.

Lemma ring_row_inv (n : nat) : row_inv (row n) (sums n).
Proof.
  induction n as [|n IH]; [apply row_inv_init|].
  unfold row, sums, ring_row, ring_sums in *. cbn [scan].
  apply row_fold_inv; [assumption | | assumption].
  intros t j _ _ _. unfold hop_entry. now apply fwd_entry_not_neginf.
Qed.

Lemma ring_row_max (n t0 : nat) :
  t0 < hop_tiles P k kw rank 0 ->
  hop_skip P q kw rank qi 0 t0 = false ->
  r_max (row (S n)) <> NegInf.
Proof.
  intros Ht Hs. induction n as [|n IH].
  - unfold row, ring_row. cbn [scan].
    apply row_fold_max with (t0 := t0); try assumption.
    intros j _. unfold hop_entry. now apply fwd_entry_not_neginf.
  - unfold row, ring_row in *. cbn [scan] in *. now apply row_fold_max_keep.
Qed.

End RingPositivity.



(** In exact arithmetic (every float taken as the real number it stands
    for, so that no score overflows and [exp] never meets [inf - inf]), and
    with dropout inactive, the diagonal tile makes every entry of the
    denominator [_ring_attention_fwd] returns strictly positive.  The
    binary32 evaluations further below show that the code can return a
    denominator that is not positive. *)
Lemma ring_denominator_positive_exact (key : Type) (random_split : key -> key * key)
    (random_bernoulli : key -> R -> shape4 -> nat -> nat -> nat -> nat -> bool)
    (P : nat) (q k v attn_bias : nat -> Tensor4 R) (l : layout)
    (qc kc L : nat) (deterministic : bool) (dropout_rng : key) (attn_pdrop : R)
    (rank b h pos : nat) :
  0 < P -> rank < P ->
  dropout_on deterministic attn_pdrop = false ->
  0 < qc -> 0 < kc -> L mod qc = 0 -> L mod kc = 0 -> pos < L ->
  dim1 (shape (q rank)) = L -> dim1 (shape (k rank)) = L ->
  let kw := mkKwargs (Some l) qc kc L deterministic dropout_rng attn_pdrop in
  fwd_skip_block (Some l) qc kc L (rank * (L / qc))
    (ring_k_block_idx P rank 0 * (L / kc)) (pos / qc) (pos / kc) = false
  /\ pos / kc < L / kc
  /\ (0 < c_den (snd (_ring_attention_fwd random_split random_bernoulli P q k v
                        attn_bias kw rank)) b h pos)%R.
Proof.
  intros HP Hr Hdrop Hqc Hkc HLq HLk Hpos Hq Hk kw.
  destruct (diagonal_not_skipped l rank Hqc Hkc HLq HLk Hpos) as [Hskip Hlt].
  rewrite ring_k_block_idx_0 by assumption.
  split; [assumption|]. split; [assumption|].
  change (0 < r_den (row_of (rs_carry (ring_states random_split random_bernoulli P q k v
                                         attn_bias kw P rank)) b h pos 0))%R.
  assert (Epos : pos = pos / qc * kw_query_chunk_size kw + pos mod qc)
    by (cbn; rewrite (Nat.div_mod_eq pos qc) at 1; lia).
  rewrite Epos.
  rewrite ring_rows;
    [| assumption | assumption | cbn; apply Nat.mod_upper_bound; lia].
  destruct P as [|n]; [lia|].
  eapply row_inv_den_pos.
  - apply ring_row_inv; assumption.
  - apply ring_row_max with (t0 := pos / kc); try assumption.
    + unfold hop_tiles, hop_k_block. rewrite ring_k_block_idx_0 by assumption.
      cbn. now rewrite Hk.
    + unfold hop_skip, hop_qs, hop_ks, hop_k_block.
      rewrite ring_k_block_idx_0 by assumption. cbn. now rewrite Hq.
Qed.

(** ** Reindexing sums *)

Open Scope R_scope.

Lemma Rsum_split (f : nat -> R) (a b : nat) :
  Rsum f (a + b) = Rsum f a + Rsum (fun i => f (a + i)%nat) b.
Proof.
  induction b as [|b IH]; [rewrite Nat.add_0_r; cbn; lra|].
  rewrite Nat.add_succ_r. cbn [Rsum]. rewrite IH. lra.
Qed.

Lemma Rsum_shift (f : nat -> R) (n : nat) :
  Rsum f (S n) = f 0%nat + Rsum (fun i => f (S i)) n.
Proof.
  induction n as [|n IH]; [cbn; lra|].
  cbn [Rsum] in *. rewrite IH. lra.
Qed.

Lemma Rsum_rev (f : nat -> R) (n : nat) :
  Rsum (fun i => f (n - 1 - i)%nat) n = Rsum f n.
Proof.
  revert f. induction n as [|n IH]; intros f; [reflexivity|].
  rewrite (Rsum_shift f). cbn [Rsum].
  replace (S n - 1 - n)%nat with 0%nat by lia.
  rewrite <- (IH (fun i => f (S i))).
  rewrite (Rsum_ext (fun i => f (S n - 1 - i)%nat) (fun i => f (S (n - 1 - i)))).
  - lra.
  - intros j Hj. f_equal. lia.
Qed.

Lemma Rsum_swap (f : nat -> nat -> R) (n m : nat) :
  Rsum (fun a => Rsum (fun b => f a b) m) n = Rsum (fun b => Rsum (fun a => f a b) n) m.
Proof.
  induction n as [|n IH]; cbn [Rsum]; [now rewrite Rsum_zero|].
  rewrite IH, <- Rsum_plus. reflexivity.
Qed.

(** Over the [P] hops a rank meets every key block once. *)
Lemma Rsum_ring (H : nat -> R) (P r : nat) :
  (r < P)%nat ->
  Rsum (fun idx => H (ring_k_block_idx P r idx)) P = Rsum H P.
Proof.
  intros Hr.
  rewrite (Rsum_ext _ (fun idx => H (if (idx <=? r)%nat then (r - idx)%nat
                                     else (r + P - idx)%nat))).
  2:{ intros idx Hidx. f_equal. rewrite ring_k_block_idx_nat by lia.
      destruct (Nat.leb_spec idx r).
      - replace (r + P - idx)%nat with (r - idx + 1 * P)%nat by lia.
        rewrite Nat.Div0.mod_add. apply Nat.mod_small. lia.
      - apply Nat.mod_small. lia. }
  replace P with (S r + (P - S r))%nat at 1 by lia.
  rewrite Rsum_split.
  rewrite (@Rsum_ext _ (fun i => H (S r - 1 - i)%nat) (S r)).
  2:{ intros i Hi. destruct (Nat.leb_spec i r); [f_equal; lia | lia]. }
  rewrite (@Rsum_ext (fun i => H (if (S r + i <=? r)%nat then _ else _))
             (fun i => (fun i' => H (S r + i')%nat) (P - S r - 1 - i)%nat) (P - S r)).
  2:{ intros i Hi. destruct (Nat.leb_spec (S r + i) r); [lia | f_equal; lia]. }
  rewrite (Rsum_rev H (S r)).
  rewrite (Rsum_rev (fun i' => H (S r + i')%nat) (P - S r)).
  rewrite <- Rsum_split. f_equal. lia.
Qed.

(** A fold over tiles whose weights come from one function of the key
    position sums that function over all positions, skipped tiles carrying
    no weight. *)
Lemma fold_sums_weights (kc : nat) (skip : nat -> bool) (x : nat -> nat -> score)
    (v : nat -> nat -> R) (s : rowsums) (n : nat) (W V : nat -> R) :
  (forall t j, (t < n)%nat -> (j < kc)%nat ->
     fin_exp (x t j) = W (t * kc + j)%nat /\ v t j = V (t * kc + j)%nat) ->
  (forall t j, (t < n)%nat -> (j < kc)%nat -> skip t = true ->
     W (t * kc + j)%nat = 0) ->
  s_exp (fold_sums kc skip x v s n) = s_exp s + Rsum W (n * kc)
  /\ s_expv (fold_sums kc skip x v s n)
     = s_expv s + Rsum (fun p => W p * V p) (n * kc).
Proof.
  intros HW Hskip.
  destruct (fold_sums_exp kc skip x v s n) as [He Hev]. rewrite He, Hev.
  rewrite <- !Rsum_flatten. split; f_equal; apply Rsum_ext; intros t Ht.
  - destruct (skip t) eqn:Es.
    + symmetry. rewrite <- (Rsum_zero kc). apply Rsum_ext. intros j Hj.
      now apply Hskip.
    + apply Rsum_ext. intros j Hj. now apply HW.
  - destruct (skip t) eqn:Es.
    + symmetry. rewrite <- (Rsum_zero kc). apply Rsum_ext. intros j Hj.
      rewrite Hskip by assumption. lra.
    + apply Rsum_ext. intros j Hj. destruct (HW t j Ht Hj) as [-> ->]. reflexivity.
Qed.

Close Scope R_scope.

(** ** The bias tile over an all-zero bias *)

Lemma bdim_min (n c : nat) : n = 1 \/ c <= n -> bdim (Nat.min n c) c = c.
Proof.
  intros [-> | Hle]; unfold bdim.
  - destruct c as [|[|c]]; reflexivity.
  - rewrite Nat.min_r by assumption. destruct (c =? 1); reflexivity.
Qed.

Lemma chunk_bias_zero (qc kc bs : nat) (zb : Tensor4 R) (deterministic : bool)
    (attn_dropout : option (Tensor4 bool)) (attn_pdrop : R)
    (causal_layout : option layout) (qi ki b h c j : nat) :
  (forall b' h' i' j', at4 zb b' h' i' j' = 0%R) ->
  dim2 (shape zb) = 1 \/ qc <= dim2 (shape zb) ->
  dim3 (shape zb) = 1 \/ kc <= dim3 (shape zb) ->
  dropout_on deterministic attn_pdrop = false ->
  c < qc -> j < kc ->
  bread (_chunk_attention_bias qc kc bs (Some zb) deterministic attn_dropout attn_pdrop
           causal_layout qi ki) b h c j
  = match causal_layout with
    | None => Fin 0
    | Some l =>
        if (Z.of_nat c + causal_offset l qc kc bs qi ki <? Z.of_nat j)%Z
        then FMin else Fin 0
    end.
Proof.
  intros Hz H2 H3 Hd Hc Hj. unfold _chunk_attention_bias. rewrite Hd.
  set (base := lift_bias (dynamic_slice zb (qi * qc) (ki * kc) qc kc)).
  assert (Hbase : forall b' h' i' j', bread base b' h' i' j' = Fin 0)
    by (intros; unfold bread, base; cbn; now rewrite Hz).
  assert (Hadd : forall off,
            bread (tile_add base (causal_mask_value qc kc off)) b h c j
            = if (Z.of_nat c + off <? Z.of_nat j)%Z then FMin else Fin 0).
  { intros off. unfold bread at 1. cbn [tile_add at4 shape].
    rewrite Hbase, sadd_zero_l.
    unfold bshape. cbn [dim0 dim1 dim2 dim3 fst snd].
    change (dim2 (shape base)) with (Nat.min (dim2 (shape zb)) qc).
    change (dim3 (shape base)) with (Nat.min (dim3 (shape zb)) kc).
    rewrite !bdim_min by assumption.
    change (dim2 (shape (causal_mask_value qc kc off))) with qc.
    change (dim3 (shape (causal_mask_value qc kc off))) with kc.
    rewrite (bidx_in_range Hc), (bidx_in_range Hj).
    now apply bread_causal_mask_value. }
  destruct causal_layout as [[|]|]; [apply Hadd | apply Hadd | apply Hbase].
Qed.

(** ** The masks and the skip rule in terms of positions *)

Lemma block_offset_div (r L a : nat) : a < L -> (r * L + a) / L = r.
Proof.
  intros Ha. rewrite Nat.add_comm, Nat.div_add by lia.
  rewrite Nat.div_small by lia. reflexivity.
Qed.

(** The mask of a tile, entry by entry: an entry is masked exactly when
    the key is not visible to the query. *)
Lemma causal_offset_visible (l : layout) (P L qc kc r kb qi t c j : nat) :
  L / qc * qc = L -> L / kc * kc = L ->
  c < qc -> j < kc -> qi * qc + c < L -> t * kc + j < L -> r < P -> kb < P ->
  (Z.of_nat c + causal_offset l qc kc L (r * (L / qc) + qi) (kb * (L / kc) + t)
   <? Z.of_nat j)%Z
  = negb (ring_visible P L (Some l) r (qi * qc + c) kb (t * kc + j)).
Proof.
  intros HLq HLk Hc Hj Hi Hp Hr Hkb.
  assert (Eq : (r * (L / qc) + qi) * qc = r * L + qi * qc) by nia.
  assert (Ek : (kb * (L / kc) + t) * kc = kb * L + t * kc) by nia.
  unfold causal_offset, ring_visible. rewrite Eq, Ek. destruct l.
  - destruct (Z.ltb_spec (Z.of_nat c + (Z.of_nat (r * L + qi * qc)
                                        - Z.of_nat (kb * L + t * kc))) (Z.of_nat j)),
             (Nat.leb_spec (kb * L + (t * kc + j)) (r * L + (qi * qc + c)));
      cbn [negb]; try reflexivity; lia.
  - unfold striped_offset.
    rewrite !block_offset_div, !block_offset_mod by lia.
    destruct (Nat.ltb_spec r kb);
      match goal with |- (?a <? ?b)%Z = _ => destruct (Z.ltb_spec a b) end;
      destruct (Nat.leb_spec ((t * kc + j) * P + kb) ((qi * qc + c) * P + r));
      cbn [negb]; try reflexivity; nia.
Qed.

(** A skipped pair of tiles holds no visible key. *)
Lemma skipped_tile_invisible (causal_layout : option layout)
    (P L qc kc r kb qi t c j : nat) :
  L / qc * qc = L -> L / kc * kc = L ->
  c < qc -> j < kc -> qi * qc + c < L -> t * kc + j < L -> r < P -> kb < P ->
  fwd_skip_block causal_layout qc kc L (r * (L / qc)) (kb * (L / kc)) qi t = true ->
  ring_visible P L causal_layout r (qi * qc + c) kb (t * kc + j) = false.
Proof.
  intros HLq HLk Hc Hj Hi Hp Hr Hkb.
  assert (Eq : (r * (L / qc) + qi) * qc = r * L + qi * qc) by nia.
  assert (Ek : (kb * (L / kc) + t) * kc = kb * L + t * kc) by nia.
  unfold fwd_skip_block, ring_visible. destruct causal_layout as [[|]|];
    [| |discriminate]; rewrite Eq, Ek.
  - intros Hs. apply Nat.leb_le in Hs. apply Nat.leb_gt. lia.
  - rewrite !block_offset_mod by lia.
    intros Hs. apply Nat.leb_le in Hs. apply Nat.leb_gt. nia.
Qed.

Lemma striped_position_block (P L r i : nat) :
  (i < L)%nat -> striped_position P L (r * L + i) = (i * P + r)%nat.
Proof.
  intros Hi. unfold striped_position.
  now rewrite block_offset_mod, block_offset_div.
Qed.

(** ** The ring on the shards of a whole sequence *)

Section RingSums.

Variable key : Type.
Variable random_split : key -> key * key.
Variable random_bernoulli : key -> R -> shape4 -> nat -> nat -> nat -> nat -> bool.
Variables (P L qc kc : nat).
Variables Q K V : Tensor4 R.
Variable causal_layout : option layout.
Variables (deterministic : bool) (dropout_rng : key) (attn_pdrop : R).

Hypothesis P_pos : 0 < P.
Hypothesis qc_pos : 0 < qc.
Hypothesis kc_pos : 0 < kc.
Hypothesis L_qc : L mod qc = 0.
Hypothesis L_kc : L mod kc = 0.
Hypothesis dropout_inactive : dropout_on deterministic attn_pdrop = false.

Let kw := mkKwargs causal_layout qc kc L deterministic dropout_rng attn_pdrop.
Let q (r : nat) := shard Q L r.
Let k (r : nat) := shard K L r.
Let v (r : nat) := shard V L r.
Let attn_bias (_ : nat) := zeros4 (dim0 (shape Q), dim2 (shape Q), L, P * L).

Variables (r b h i d : nat).
Hypothesis r_lt : r < P.
Hypothesis i_lt : i < L.

Let qi := i / qc.
Let c := i mod qc.

Lemma ring_tile_facts :
  c < qc /\ qi * qc + c = i /\ L / qc * qc = L /\ L / kc * kc = L /\ qc <= L /\ kc <= L.
Proof.
  unfold qi, c. pose proof (Nat.mod_upper_bound i qc ltac:(lia)).
  pose proof (Nat.div_mod_eq i qc).
  pose proof (divides_mul _ _ L_qc). pose proof (divides_mul _ _ L_kc).
  repeat split; try lia.
  - destruct (L / qc); [lia | nia].
  - destruct (L / kc); [lia | nia].
Qed.

(** The score the ring computes for the query against key [t * kc + j] of
    the block held at hop [idx]. *)
Lemma ring_hop_entry (idx t j : nat) :
  j < kc -> t * kc + j < L ->
  let kb := ring_k_block_idx P r idx in
  hop_entry random_split random_bernoulli P q k attn_bias kw r b h qi c idx t j
  = match causal_layout with
    | None => Fin (dense_scores Q K b h (r * L + i) (kb * L + (t * kc + j)))
    | Some l =>
        if (Z.of_nat c
            + causal_offset l qc kc L (r * (L / qc) + qi) (kb * (L / kc) + t)
            <? Z.of_nat j)%Z
        then FMin
        else Fin (dense_scores Q K b h (r * L + i) (kb * L + (t * kc + j)))
    end.
Proof.
  intros Hj Hp kb. destruct ring_tile_facts as (Hc & Hi & HLq & HLk & Hql & Hkl).
  unfold hop_entry, fwd_entry, fwd_bias_fn, hop_bias, hop_qs, hop_ks, hop_k_block.
  fold kb. cbn [kw_query_chunk_size kw_key_chunk_size kw_block_size kw_deterministic
                kw_attn_pdrop kw_causal_layout kw].
  rewrite chunk_bias_zero; try assumption.
  - assert (Hs : (einsum_qk (dim3 (shape (q r))) (chunk_of (q r) qc qi)
                    (chunk_of (k kb) kc t) b h c j / sqrt (INR (dim3 (shape (q r)))))%R
                 = dense_scores Q K b h (r * L + i) (kb * L + (t * kc + j))).
    { unfold dense_scores, einsum_qk, chunk_of, q, k, shard. cbn [at4 shape dim3 snd].
      now rewrite Hi. }
    rewrite Hs. change (dim1 (shape (q r))) with L.
    destruct causal_layout as [l|]; cbn [sadd].
    + match goal with |- context [if ?t then _ else _] => destruct t end; cbn [sadd];
        [reflexivity | f_equal; lra].
    + f_equal. lra.
  - intros. reflexivity.
  - right. cbn. lia.
  - right. cbn. unfold k, shard. cbn. lia.
Qed.

(** The same score with the mask kept apart, as the source adds it. *)
Lemma ring_hop_entry_mask (idx t j : nat) :
  j < kc -> t * kc + j < L ->
  let kb := ring_k_block_idx P r idx in
  hop_entry random_split random_bernoulli P q k attn_bias kw r b h qi c idx t j
  = sadd (Fin (dense_scores Q K b h (r * L + i) (kb * L + (t * kc + j))))
         (if position_visible P L causal_layout (r * L + i) (kb * L + (t * kc + j))
          then Fin 0 else FMin).
Proof.
  intros Hj Hp kb. destruct ring_tile_facts as (Hc & Hi & HLq & HLk & Hql & Hkl).
  assert (Hkb : kb < P) by (apply ring_k_block_idx_lt; assumption).
  unfold hop_entry, fwd_entry, fwd_bias_fn, hop_bias, hop_qs, hop_ks, hop_k_block.
  fold kb. cbn [kw_query_chunk_size kw_key_chunk_size kw_block_size kw_deterministic
                kw_attn_pdrop kw_causal_layout kw].
  rewrite chunk_bias_zero; try assumption.
  - assert (Hs : (einsum_qk (dim3 (shape (q r))) (chunk_of (q r) qc qi)
                    (chunk_of (k kb) kc t) b h c j / sqrt (INR (dim3 (shape (q r)))))%R
                 = dense_scores Q K b h (r * L + i) (kb * L + (t * kc + j))).
    { unfold dense_scores, einsum_qk, chunk_of, q, k, shard. cbn [at4 shape dim3 snd].
      now rewrite Hi. }
    rewrite Hs. change (dim1 (shape (q r))) with L.
    destruct causal_layout as [l|]; [|reflexivity].
    rewrite (@causal_offset_visible l P L qc kc r kb qi t c j) by (assumption || lia).
    rewrite Hi. unfold ring_visible, position_visible.
    destruct l.
    + destruct (kb * L + (t * kc + j) <=? r * L + i); reflexivity.
    + rewrite !striped_position_block by assumption.
      destruct ((t * kc + j) * P + kb <=? i * P + r); reflexivity.
  - intros. reflexivity.
  - right. cbn. lia.
  - right. cbn. unfold k, shard. cbn. lia.
Qed.

(** The output of the ring at a query position as a streaming softmax over
    the key blocks in the order the hops bring them. *)
Lemma ring_output_streaming :
  at4 (ring_attention random_split random_bernoulli P q k v attn_bias kw r) b i h d
  = row_output
      (streaming_row L kc
         (fun kb t => fwd_skip_block causal_layout qc kc L (r * (L / qc)) (kb * (L / kc))
                        (i / qc) t)
         (dense_scores Q K b h (r * L + i))
         (position_visible P L causal_layout (r * L + i))
         (fun p => at4 V b p h d)
         (fun idx => ring_k_block_idx P r idx) P).
Proof.
  destruct ring_tile_facts as (Hc & Hi & HLq & HLk & Hql & Hkl).
  rewrite <- Hi at 1.
  pose proof (@ring_attention_row key random_split random_bernoulli P q k v attn_bias kw
                P_pos r b h qi c d r_lt Hc) as Hrow.
  change (kw_query_chunk_size kw) with qc in Hrow. rewrite Hrow. clear Hrow.
  unfold row_output. fold qi.
  assert (E : forall n,
            ring_row random_split random_bernoulli P q k v attn_bias kw r b h qi c d n
            = streaming_row L kc
                (fun kb t => fwd_skip_block causal_layout qc kc L (r * (L / qc))
                               (kb * (L / kc)) qi t)
                (dense_scores Q K b h (r * L + i))
                (position_visible P L causal_layout (r * L + i))
                (fun p => at4 V b p h d)
                (fun idx => ring_k_block_idx P r idx) n).
  { unfold ring_row, streaming_row.
    induction n as [|n IH]; [reflexivity|].
    cbn [scan]. rewrite IH. cbn zeta.
    change (hop_tiles P k kw r n) with (L / kc).
    change (kw_key_chunk_size kw) with kc.
    apply row_fold_ext.
    - intros t _. reflexivity.
    - intros t j Ht _ Hj. apply ring_hop_entry_mask; [assumption|].
      assert (t * kc + j < L / kc * kc) by nia. now rewrite HLk in *.
    - intros t j _ _ _. reflexivity. }
  now rewrite E.
Qed.

(** The weight of key [p] of block [kb] for the query, and its value. *)
Let G (kb p : nat) : R :=
  if ring_visible P L causal_layout r i kb p
  then exp (dense_scores Q K b h (r * L + i) (kb * L + p)) else 0%R.

Let Vv (kb p : nat) : R := at4 V b (kb * L + p) h d.

Lemma ring_hop_sums (idx : nat) (acc : rowsums) :
  let kb := ring_k_block_idx P r idx in
  let s := fold_sums kc
             (hop_skip P q kw r qi idx)
             (hop_entry random_split random_bernoulli P q k attn_bias kw r b h qi c idx)
             (hop_value P v kw r b h d idx) acc (hop_tiles P k kw r idx) in
  s_exp s = (s_exp acc + Rsum (G kb) L)%R
  /\ s_expv s = (s_expv acc + Rsum (fun p => G kb p * Vv kb p) L)%R.
Proof.
  intros kb s. destruct ring_tile_facts as (Hc & Hi & HLq & HLk & Hql & Hkl).
  assert (Hkb : kb < P) by (apply ring_k_block_idx_lt; assumption).
  assert (Hn : hop_tiles P k kw r idx * kc = L) by exact HLk.
  assert (Hlt : forall t j, t < hop_tiles P k kw r idx -> j < kc -> t * kc + j < L).
  { intros t j Ht Hj. rewrite <- Hn. nia. }
  subst s. rewrite <- Hn at 1 2.
  apply fold_sums_weights.
  - intros t j Ht Hj. pose proof (Hlt t j Ht Hj) as Hp. split.
    + rewrite ring_hop_entry by assumption. fold kb. unfold G.
      destruct causal_layout as [l|]; [|reflexivity].
      rewrite (@causal_offset_visible l P L qc kc r kb qi t c j) by (assumption || lia).
      rewrite Hi. destruct (ring_visible P L (Some l) r i kb (t * kc + j)); reflexivity.
    + reflexivity.
  - intros t j Ht Hj Hs. pose proof (Hlt t j Ht Hj) as Hp. unfold G.
    rewrite <- Hi.
    rewrite (@skipped_tile_invisible causal_layout P L qc kc r kb qi t c j);
      try (assumption || lia). reflexivity.
Qed.

Lemma ring_sums_hops (n : nat) :
  let s := ring_sums random_split random_bernoulli P q k v attn_bias kw r b h qi c d n in
  s_exp s = Rsum (fun idx => Rsum (G (ring_k_block_idx P r idx)) L) n
  /\ s_expv s
     = Rsum (fun idx => Rsum (fun p => G (ring_k_block_idx P r idx) p
                                      * Vv (ring_k_block_idx P r idx) p)%R L) n.
Proof.
  induction n as [|n [IH1 IH2]]; [split; reflexivity|].
  unfold ring_sums in *. cbn [scan Rsum].
  destruct (ring_hop_sums n
              (scan (fun acc idx =>
                       fold_sums (kw_key_chunk_size kw) (hop_skip P q kw r qi idx)
                         (hop_entry random_split random_bernoulli P q k attn_bias kw r
                            b h qi c idx)
                         (hop_value P v kw r b h d idx) acc (hop_tiles P k kw r idx))
                    sums_zero n)) as [H1 H2].
  cbn zeta in IH1, IH2. split.
  - etransitivity; [exact H1|]. now rewrite IH1.
  - etransitivity; [exact H2|]. now rewrite IH2.
Qed.

Lemma ring_weight_nonneg (kb p : nat) : (0 <= G kb p)%R.
Proof.
  unfold G. destruct (ring_visible P L causal_layout r i kb p); [|lra].
  left. apply exp_pos.
Qed.

Lemma ring_weight_total_pos : (0 < Rsum (fun kb => Rsum (G kb) L) P)%R.
Proof.
  apply Rsum_pos with (j := r); [|assumption|].
  - intros kb _. apply Rsum_nonneg. intros p _. apply ring_weight_nonneg.
  - apply Rsum_pos with (j := i); [|assumption|].
    + intros p _. apply ring_weight_nonneg.
    + unfold G.
      assert (Hv : ring_visible P L causal_layout r i r i = true)
        by (unfold ring_visible; destruct causal_layout as [[|]|];
            try reflexivity; apply Nat.leb_refl).
      rewrite Hv. apply exp_pos.
Qed.

(** The output of the ring at a query position: the visible keys of all
    blocks, weighted by [exp] of their scores and normalised. *)
Lemma ring_output_sums :
  at4 (ring_attention random_split random_bernoulli P q k v attn_bias kw r) b i h d
  = (Rsum (fun kb => Rsum (fun p => G kb p * Vv kb p) L) P
     / Rsum (fun kb => Rsum (G kb) L) P)%R.
Proof.
  destruct ring_tile_facts as (Hc & Hi & _).
  rewrite <- Hi at 1.
  pose proof (@ring_attention_row key random_split random_bernoulli P q k v attn_bias kw
                P_pos r b h qi c d r_lt Hc) as Hrow.
  change (kw_query_chunk_size kw) with qc in Hrow. rewrite Hrow. clear Hrow.
  destruct (ring_sums_hops P) as [He Hev]. cbn zeta in He, Hev.
  rewrite (Rsum_ring (fun kb => Rsum (G kb) L) r_lt) in He.
  rewrite (Rsum_ring (fun kb => Rsum (fun p => G kb p * Vv kb p)%R L) r_lt) in Hev.
  destruct (@row_inv_output _ _
              (@ring_row_inv key random_split random_bernoulli P q k v attn_bias kw
                 r b h qi c d dropout_inactive kc_pos P)) as [Hout _].
  - rewrite He. apply ring_weight_total_pos.
  - rewrite Hout, He, Hev. reflexivity.
Qed.

End RingSums.

(** ** The ring against the reference attention *)

Open Scope R_scope.

Lemma if_mult (t : bool) (a x : R) :
  (if t then a else 0) * x = if t then a * x else 0.
Proof. destruct t; lra. Qed.

Section RingReference.

Variable key : Type.
Variable random_split : key -> key * key.
Variable random_bernoulli : key -> R -> shape4 -> nat -> nat -> nat -> nat -> bool.
Variables (P L qc kc : nat).
Variables Q K V : Tensor4 R.
Variables (deterministic : bool) (dropout_rng : key) (attn_pdrop : R).

Hypothesis P_pos : (0 < P)%nat.
Hypothesis qc_pos : (0 < qc)%nat.
Hypothesis kc_pos : (0 < kc)%nat.
Hypothesis L_qc : (L mod qc = 0)%nat.
Hypothesis L_kc : (L mod kc = 0)%nat.
Hypothesis dropout_inactive : dropout_on deterministic attn_pdrop = false.
Hypothesis K_len : dim1 (shape K) = (P * L)%nat.

Variables (r b h i d : nat).
Hypothesis r_lt : (r < P)%nat.
Hypothesis i_lt : (i < L)%nat.

(** Without a causal layout the ring computes dense attention. *)
Lemma ring_none_dense :
  at4 (ring_on_shards random_split random_bernoulli P L Q K V None qc kc
         deterministic dropout_rng attn_pdrop r) b i h d
  = at4 (dense_attention Q K V) b (r * L + i)%nat h d.
Proof.
  unfold ring_on_shards.
  rewrite ring_output_sums by assumption.
  cbn [ring_visible]. unfold dense_attention. cbn [at4]. rewrite K_len.
  rewrite (Rsum_flatten (fun g => exp (dense_scores Q K b h (r * L + i) g)
                                  * at4 V b g h d)).
  rewrite (Rsum_flatten (fun g => exp (dense_scores Q K b h (r * L + i) g))).
  unfold softmax. unfold Rdiv at 1. rewrite <- Rsum_scale.
  apply Rsum_ext. intros j _. unfold Rdiv. ring.
Qed.

(** In the contiguous layout the ring computes causal attention. *)
Lemma ring_normal_causal :
  at4 (ring_on_shards random_split random_bernoulli P L Q K V (Some normal) qc kc
         deterministic dropout_rng attn_pdrop r) b i h d
  = at4 (causal_attention Q K V) b (r * L + i)%nat h d.
Proof.
  unfold ring_on_shards.
  rewrite ring_output_sums by assumption.
  cbn [ring_visible]. unfold causal_attention. cbn [at4]. rewrite K_len.
  rewrite <- (Rsum_flatten
                (fun g => if (g <=? r * L + i)%nat
                          then exp (dense_scores Q K b h (r * L + i) g) * at4 V b g h d
                          else 0)).
  rewrite <- (Rsum_flatten
                (fun g => if (g <=? r * L + i)%nat
                          then exp (dense_scores Q K b h (r * L + i) g) else 0)).
  f_equal. apply Rsum_ext. intros kb _. apply Rsum_ext. intros p _. apply if_mult.
Qed.

End RingReference.

Section RingStriped.

Variable key : Type.
Variable random_split : key -> key * key.
Variable random_bernoulli : key -> R -> shape4 -> nat -> nat -> nat -> nat -> bool.
Variables (P L qc kc : nat).
Variables Q K V : Tensor4 R.
Variables (deterministic : bool) (dropout_rng : key) (attn_pdrop : R).

Hypothesis P_pos : (0 < P)%nat.
Hypothesis qc_pos : (0 < qc)%nat.
Hypothesis kc_pos : (0 < kc)%nat.
Hypothesis L_qc : (L mod qc = 0)%nat.
Hypothesis L_kc : (L mod kc = 0)%nat.
Hypothesis dropout_inactive : dropout_on deterministic attn_pdrop = false.
Hypothesis K_len : dim1 (shape K) = (P * L)%nat.

Variables (r b h i d : nat).
Hypothesis r_lt : (r < P)%nat.
Hypothesis i_lt : (i < L)%nat.

(** In the striped layout, on the shards of the permuted sequence, the
    ring computes causal attention of the original sequence: rank [r] at
    local position [i] holds original position [i * P + r]. *)
Lemma ring_striped_causal :
  at4 (ring_on_shards random_split random_bernoulli P L
         (permute_length P L Q) (permute_length P L K) (permute_length P L V)
         (Some striped) qc kc deterministic dropout_rng attn_pdrop r) b i h d
  = at4 (causal_attention Q K V) b (i * P + r)%nat h d.
Proof.
  unfold ring_on_shards.
  rewrite ring_output_sums by assumption.
  cbn [ring_visible]. unfold causal_attention. cbn [at4]. rewrite K_len.
  set (W := fun g => if (g <=? i * P + r)%nat
                     then exp (dense_scores Q K b h (i * P + r) g) else 0).
  assert (Hs : forall kb p, (p < L)%nat ->
            dense_scores (permute_length P L Q) (permute_length P L K) b h
              (r * L + i) (kb * L + p)
            = dense_scores Q K b h (i * P + r) (p * P + kb)).
  { intros kb p Hp. unfold dense_scores, permute_length. cbn [at4 shape].
    now rewrite !striped_position_block. }
  rewrite (Rsum_ext _ (fun kb => Rsum (fun p => W (p * P + kb)%nat
                                               * at4 V b (p * P + kb)%nat h d) L)).
  2:{ intros kb _. apply Rsum_ext. intros p Hp. rewrite Hs by assumption.
      unfold permute_length at 1. cbn [at4].
      now rewrite striped_position_block. }
  rewrite (Rsum_ext (fun kb => Rsum (fun p => if (p * P + kb <=? i * P + r)%nat
                                              then _ else 0) L)
             (fun kb => Rsum (fun p => W (p * P + kb)%nat) L)).
  2:{ intros kb _. apply Rsum_ext. intros p Hp. now rewrite Hs. }
  rewrite (Rsum_swap (fun kb p => W (p * P + kb)%nat * at4 V b (p * P + kb)%nat h d)).
  rewrite (Rsum_swap (fun kb p => W (p * P + kb)%nat)).
  rewrite (Rsum_flatten (fun g => W g * at4 V b g h d)).
  rewrite (Rsum_flatten W).
  rewrite (Nat.mul_comm L P). f_equal.
  apply Rsum_ext. intros g _. unfold W. apply if_mult.
Qed.

End RingStriped.

(** ** The single-device pass against the reference attention *)

Lemma chunk_bias_none_normal (qc kc bs : nat) (deterministic : bool)
    (attn_dropout : option (Tensor4 bool)) (attn_pdrop : R) (qi ki b h c j : nat) :
  dropout_on deterministic attn_pdrop = false -> (c < qc)%nat -> (j < kc)%nat ->
  bread (_chunk_attention_bias qc kc bs None deterministic attn_dropout attn_pdrop
           (Some normal) qi ki) b h c j
  = if (ki * kc + j <=? qi * qc + c)%nat then Fin 0 else FMin.
Proof.
  intros Hd Hc Hj. unfold _chunk_attention_bias. rewrite Hd.
  unfold bread at 1. cbn [tile_add at4 shape].
  unfold bread at 1. cbn [at4]. rewrite sadd_zero_l.
  unfold bshape. cbn [dim0 dim1 dim2 dim3 fst snd shape causal_mask_value].
  change (bdim 1 qc) with qc. change (bdim 1 kc) with kc.
  rewrite (bidx_in_range Hc), (bidx_in_range Hj).
  rewrite bread_causal_mask_value by assumption.
  destruct (Z.ltb_spec (Z.of_nat c + (Z.of_nat (qi * qc) - Z.of_nat (ki * kc)))
                       (Z.of_nat j)),
           (Nat.leb_spec (ki * kc + j) (qi * qc + c)); try reflexivity; lia.
Qed.

(** [blockwise_attn] without bias and dropout, row by row: a streaming
    softmax over the key sequence taken as one block, tile by tile in
    increasing order. *)
Lemma blockwise_attn_streaming (key : Type) (random_split : key -> key * key)
    (random_bernoulli : key -> R -> shape4 -> nat -> nat -> nat -> nat -> bool)
    (query key_ value : Tensor4 R) (deterministic : bool) (dropout_rng : key)
    (attn_pdrop : R) (causal : bool) (qc kc : nat) (b pos h d : nat) :
  dropout_on deterministic attn_pdrop = false -> (0 < qc)%nat ->
  at4 (blockwise_attn random_split random_bernoulli query key_ value None
         deterministic dropout_rng attn_pdrop causal qc kc) b pos h d
  = row_output
      (streaming_row (dim1 (shape key_)) kc
         (fun _ t => attn_skip_block causal (pos / qc) t)
         (prescaled_scores query key_ b h pos)
         (fun p => if causal then (p <=? pos)%nat else true)
         (fun p => at4 value b p h d)
         (fun _ => 0%nat) 1).
Proof.
  intros Hdrop Hqc.
  unfold blockwise_attn, row_output, streaming_row. cbn [at4 shape scan].
  set (qi := (pos / qc)%nat). set (c := (pos mod qc)%nat).
  assert (Hc : (c < qc)%nat) by (apply Nat.mod_upper_bound; lia).
  assert (Ep : (qi * qc + c = pos)%nat).
  { subst qi c. rewrite (Nat.div_mod_eq pos qc) at 3. lia. }
  match goal with
  | |- a_num ?S _ _ _ _ / _ = ?rhs =>
      change (r_num (attn_row_of S b h c d) / r_den (attn_row_of S b h c d) = rhs)
  end.
  rewrite attn_inner_rows.
  change (attn_row_of (mkAttnCarry _ _ _) b h c d) with (mkRow 0 0 NegInf).
  match goal with
  | |- r_num ?X / r_den ?X = r_num ?Y / r_den ?Y => assert (E : X = Y)
  end.
  { apply row_fold_ext.
    - intros t _. reflexivity.
    - intros t j _ _ Hj. cbn [Nat.mul Nat.add]. f_equal.
      + f_equal. unfold prescaled_scores, chunk_of. cbn [at4 shape].
        now rewrite Ep.
      + destruct causal.
        * rewrite chunk_bias_none_normal by assumption. now rewrite Ep.
        * now apply chunk_bias_plain.
    - intros t j _ _ _. reflexivity. }
  now rewrite E.
Qed.

(** C2 (amended).  With [causal = false], no bias and dropout inactive,
    for chunk sizes that divide the sequence lengths, [blockwise_attn]
    returns a tensor of the shape of dense attention whose value at every
    index is [numerator / denominator] of the streaming-softmax recurrence
    over the whole row of the score matrix [(Q / sqrt(head_dim)) K^T]: the
    key tiles are folded one at a time in increasing order with the
    running-maximum and correction updates, none is skipped, no key is
    masked, and each key contributes once with its own value.  The result
    does not depend on the query chunk size.  (The numerator is summed
    before it is divided, where dense attention normalises the weights
    first.) *)
Theorem blockwise_attn_streams_every_key (key : Type)
    (random_split : key -> key * key)
    (random_bernoulli : key -> R -> shape4 -> nat -> nat -> nat -> nat -> bool)
    (query key_ value : Tensor4 R) (deterministic : bool) (dropout_rng : key)
    (attn_pdrop : R) (query_chunk_size key_chunk_size : nat) (b pos h d : nat) :
  dropout_on deterministic attn_pdrop = false ->
  (0 < query_chunk_size)%nat -> (0 < key_chunk_size)%nat ->
  (dim1 (shape query) mod query_chunk_size = 0)%nat ->
  (dim1 (shape key_) mod key_chunk_size = 0)%nat ->
  let out := blockwise_attn random_split random_bernoulli query key_ value None
               deterministic dropout_rng attn_pdrop false
               query_chunk_size key_chunk_size in
  shape out = shape (dense_attention query key_ value)
  /\ at4 out b pos h d
     = row_output
         (streaming_row (dim1 (shape key_)) key_chunk_size (fun _ _ => false)
            (prescaled_scores query key_ b h pos) (fun _ => true)
            (fun p => at4 value b p h d) (fun _ => 0%nat) 1)
  /\ (dim1 (shape key_) / key_chunk_size * key_chunk_size = dim1 (shape key_))%nat.
Proof.
  intros Hdrop Hqc Hkc Hq Hk out. subst out. split; [|split].
  - unfold blockwise_attn, dense_attention. cbn [shape].
    rewrite (divides_mul _ _ Hq).
    destruct (shape query) as [[[d0 d1] d2] d3]. reflexivity.
  - now rewrite blockwise_attn_streaming by assumption.
  - now apply divides_mul.
Qed.

Lemma blockwise_attn_streams_every_key_witness :
  let x := ones4 (1, 4, 1, 2)%nat in
  let out := blockwise_attn (fun u : unit => (u, u)) (fun _ _ _ _ _ _ _ => false)
               x x x None true tt 0 false 2 2 in
  shape out = shape (dense_attention x x x)
  /\ at4 out 0 3 0 1
     = row_output
         (streaming_row 4 2 (fun _ _ => false) (prescaled_scores x x 0 0 3)
            (fun _ => true) (fun p => at4 x 0 p 0 1) (fun _ => 0%nat) 1)
  /\ (4 / 2 * 2 = 4)%nat.
Proof.
  apply (@blockwise_attn_streams_every_key unit (fun u => (u, u))
           (fun _ _ _ _ _ _ _ => false)
           (ones4 (1, 4, 1, 2)%nat) (ones4 (1, 4, 1, 2)%nat) (ones4 (1, 4, 1, 2)%nat)
           true tt 0 2 2 0 3 0 1)%nat;
    cbn; try reflexivity; lia.
Defined.

(** With [causal = true], no bias and dropout inactive, the value
    [blockwise_attn] returns at a query position: the keys at or before the
    query in the key tiles whose index does not exceed the query tile's,
    weighted by [exp] of their scores and normalised. *)
Lemma blockwise_attn_causal_sums (key : Type) (random_split : key -> key * key)
    (random_bernoulli : key -> R -> shape4 -> nat -> nat -> nat -> nat -> bool)
    (query key_ value : Tensor4 R) (deterministic : bool) (dropout_rng : key)
    (attn_pdrop : R) (qc kc : nat) (b pos h d : nat) :
  dropout_on deterministic attn_pdrop = false ->
  (0 < qc)%nat -> (0 < kc)%nat -> (0 < dim1 (shape key_) / kc)%nat ->
  let W g := if (g <=? pos)%nat then exp (dense_scores query key_ b h pos g) else 0 in
  at4 (blockwise_attn random_split random_bernoulli query key_ value None
         deterministic dropout_rng attn_pdrop true qc kc) b pos h d
  = Rsum (fun t => if (pos / qc <? t)%nat then 0
                   else Rsum (fun j => W (t * kc + j)%nat
                                       * at4 value b (t * kc + j)%nat h d) kc)
         (dim1 (shape key_) / kc)
    / Rsum (fun t => if (pos / qc <? t)%nat then 0
                     else Rsum (fun j => W (t * kc + j)%nat) kc)
           (dim1 (shape key_) / kc).
Proof.
  intros Hdrop Hqc Hkc Hnum W.
  unfold blockwise_attn. cbn [at4 shape].
  set (qi := (pos / qc)%nat). set (c := (pos mod qc)%nat).
  set (num_kv := (dim1 (shape key_) / kc)%nat) in *.
  match goal with
  | |- a_num ?S _ _ _ _ / _ = ?rhs =>
      change (r_num (attn_row_of S b h c d) / r_den (attn_row_of S b h c d) = rhs)
  end.
  rewrite attn_inner_rows.
  change (fun t : nat => attn_skip_block true qi t) with (fun t : nat => (qi <? t)%nat).
  set (x := fun t j : nat => sadd _ _).
  set (v := fun t j : nat => at4 value b (t * kc + j)%nat h d).
  assert (Hc : (c < qc)%nat) by (apply Nat.mod_upper_bound; lia).
  assert (Ep : (qi * qc + c = pos)%nat).
  { subst qi c. rewrite (Nat.div_mod_eq pos qc) at 3. lia. }
  assert (Hx : forall t j, (j < kc)%nat ->
            x t j = if (t * kc + j <=? pos)%nat
                    then Fin (dense_scores query key_ b h pos (t * kc + j)%nat)
                    else FMin).
  { intros t j Hj. subst x. cbn beta.
    rewrite chunk_bias_none_normal by assumption. rewrite Ep.
    assert (Hs : Rsum (fun d' => chunk_of
                         (mkT4 (shape query)
                            (fun b0 pos0 h0 d0 =>
                               at4 query b0 pos0 h0 d0
                               / sqrt (INR (dim3 (shape query))))) qc qi b c h d'
                       * at4 key_ b (t * kc + j)%nat h d') (dim3 (shape query))
                 = dense_scores query key_ b h pos (t * kc + j)%nat).
    { unfold chunk_of, dense_scores. cbn [at4]. rewrite Ep, <- Rsum_div.
      apply Rsum_ext. intros d' _. unfold Rdiv. ring. }
    rewrite Hs. destruct (t * kc + j <=? pos)%nat; cbn [sadd]; [f_equal; lra|reflexivity]. }
  assert (HW : forall t j, (j < kc)%nat -> fin_exp (x t j) = W (t * kc + j)%nat).
  { intros t j Hj. rewrite Hx by assumption. unfold W.
    destruct (t * kc + j <=? pos)%nat; reflexivity. }
  destruct (fold_sums_exp kc (fun t => (qi <? t)%nat) x v sums_zero num_kv) as [He Hev].
  cbn [sums_zero s_exp s_expv] in He, Hev. rewrite Rplus_0_l in He, Hev.
  rewrite (Rsum_ext _ (fun t => if (qi <? t)%nat then 0
                                else Rsum (fun j => W (t * kc + j)%nat) kc)) in He
    by (intros t _; destruct (qi <? t)%nat; [reflexivity|];
        apply Rsum_ext; intros j Hj; now apply HW).
  rewrite (Rsum_ext _ (fun t => if (qi <? t)%nat then 0
                                else Rsum (fun j => W (t * kc + j)%nat
                                                    * at4 value b (t * kc + j)%nat h d)
                                          kc)) in Hev
    by (intros t _; destruct (qi <? t)%nat; [reflexivity|];
        apply Rsum_ext; intros j Hj; now rewrite HW).
  assert (Hinv : row_inv (row_fold kc (fun t => (qi <? t)%nat) x v (mkRow 0 0 NegInf)
                            num_kv)
                         (fold_sums kc (fun t => (qi <? t)%nat) x v sums_zero num_kv)).
  { apply row_fold_inv; [assumption | | apply row_inv_init].
    intros t j _ _ Hj. rewrite Hx by assumption.
    destruct (t * kc + j <=? pos)%nat; discriminate. }
  destruct (@row_inv_output _ _ Hinv) as [Hout _].
  { rewrite He. apply Rsum_pos with (j := 0%nat); [|assumption|].
    - intros t _. destruct (qi <? t)%nat; [lra|]. apply Rsum_nonneg.
      intros j _. unfold W. destruct (t * kc + j <=? pos)%nat; [left; apply exp_pos|lra].
    - cbn [Nat.ltb Nat.leb]. apply Rsum_pos with (j := 0%nat); [|assumption|].
      + intros j _. unfold W. destruct (0 * kc + j <=? pos)%nat; [left; apply exp_pos|lra].
      + unfold W. cbn [Nat.mul Nat.add Nat.leb]. apply exp_pos. }
  change (attn_row_of _ b h c d) with (mkRow 0 0 NegInf).
  rewrite Hout, He, Hev. reflexivity.
Qed.

(** With a query chunk no longer than the key chunk the tiles that
    [blockwise_attn] skips hold no visible key, and it computes causal
    attention. *)
Lemma blockwise_attn_causal (key : Type) (random_split : key -> key * key)
    (random_bernoulli : key -> R -> shape4 -> nat -> nat -> nat -> nat -> bool)
    (query key_ value : Tensor4 R) (deterministic : bool) (dropout_rng : key)
    (attn_pdrop : R) (qc kc : nat) (b pos h d : nat) :
  dropout_on deterministic attn_pdrop = false ->
  (0 < qc)%nat -> (qc <= kc)%nat ->
  (dim1 (shape key_) mod kc = 0)%nat -> (pos < dim1 (shape key_))%nat ->
  at4 (blockwise_attn random_split random_bernoulli query key_ value None
         deterministic dropout_rng attn_pdrop true qc kc) b pos h d
  = at4 (causal_attention query key_ value) b pos h d.
Proof.
  intros Hdrop Hqc Hle Hk Hpos.
  assert (Hkc : (0 < kc)%nat) by lia.
  pose proof (divides_mul _ _ Hk) as Hnk.
  assert (Hnum : (0 < dim1 (shape key_) / kc)%nat)
    by (destruct (dim1 (shape key_) / kc)%nat; lia).
  rewrite blockwise_attn_causal_sums by assumption.
  unfold causal_attention. cbn [at4].
  set (W := fun g => if (g <=? pos)%nat
                     then exp (dense_scores query key_ b h pos g) else 0).
  pose proof (tile_bounds pos Hqc) as Bq.
  assert (Hskip : forall t j, (pos / qc <? t)%nat = true -> W (t * kc + j)%nat = 0).
  { intros t j Hs. apply Nat.ltb_lt in Hs. unfold W.
    destruct (Nat.leb_spec (t * kc + j) pos); [nia | reflexivity]. }
  rewrite <- Hnk at 3 4.
  rewrite <- (Rsum_flatten (fun g => if (g <=? pos)%nat
                                     then exp (dense_scores query key_ b h pos g)
                                          * at4 value b g h d else 0)).
  rewrite <- (Rsum_flatten W).
  f_equal; apply Rsum_ext; intros t _.
  - destruct (pos / qc <? t)%nat eqn:Es.
    + symmetry. rewrite (@Rsum_ext _ (fun _ => 0) kc); [apply Rsum_zero|].
      intros j _. rewrite <- if_mult. fold (W (t * kc + j)%nat).
      rewrite Hskip by assumption. lra.
    + apply Rsum_ext. intros j _. unfold W. apply if_mult.
  - destruct (pos / qc <? t)%nat eqn:Es; [|reflexivity].
    symmetry. rewrite (@Rsum_ext _ (fun _ => 0) kc); [apply Rsum_zero|].
    intros j _. now apply Hskip.
Qed.

Close Scope R_scope.

(** ** Ring decomposition *)

Lemma gather_at (P L : nat) (outs : nat -> Tensor4 R) (b g h d : nat) :
  at4 (gather P L outs) b g h d = at4 (outs (g / L)) b (g mod L) h d.
Proof. reflexivity. Qed.

Lemma block_of_position (P L g : nat) :
  0 < L -> g < P * L -> g / L < P /\ g mod L < L /\ g / L * L + g mod L = g.
Proof.
  intros HL Hg. repeat split.
  - apply Nat.Div0.div_lt_upper_bound. lia.
  - apply Nat.mod_upper_bound. lia.
  - pose proof (Nat.div_mod_eq g L). lia.
Qed.




(** In exact arithmetic (every float taken as the real number it stands
    for, no rounding and no overflow) the order of the fold and the place of
    the scaling do not matter: without a causal layout, and in the
    contiguous causal layout, the gathered outputs of the ring then equal
    the output of single-device [blockwise_attn] on the whole sequence.  The
    chunk sizes [qc'], [kc'] of the single-device run divide [P * L]; in the
    causal case its query chunk is no longer than its key chunk.  The
    binary32 evaluations further below show that the equality does not
    survive rounding. *)
Lemma ring_equals_single_device_exact (key : Type) (random_split : key -> key * key)
    (random_bernoulli : key -> R -> shape4 -> nat -> nat -> nat -> nat -> bool)
    (P L qc kc qc' kc' : nat) (Q K V : Tensor4 R) (causal : bool)
    (deterministic : bool) (dropout_rng : key) (attn_pdrop : R) (b g h d : nat) :
  0 < P -> 0 < qc -> 0 < kc -> L mod qc = 0 -> L mod kc = 0 ->
  0 < qc' -> 0 < kc' -> (P * L) mod qc' = 0 -> (P * L) mod kc' = 0 ->
  (causal = true -> qc' <= kc') ->
  dropout_on deterministic attn_pdrop = false ->
  dim1 (shape Q) = P * L -> dim1 (shape K) = P * L ->
  g < P * L ->
  let ring := gather P L
                (ring_on_shards random_split random_bernoulli P L Q K V
                   (if causal then Some normal else None) qc kc
                   deterministic dropout_rng attn_pdrop) in
  let single := blockwise_attn random_split random_bernoulli Q K V None
                  deterministic dropout_rng attn_pdrop causal qc' kc' in
  shape ring = shape single
  /\ at4 ring b g h d = at4 single b g h d.
Proof.
  intros HP Hqc Hkc HLq HLk Hqc' Hkc' HNq HNk Hle Hdrop HQ HK Hg ring single.
  subst ring single. split.
  - unfold gather, blockwise_attn, ring_on_shards, ring_attention, _ring_attention_fwd.
    cbn [shape fst shard dim0 dim1 dim2 dim3 snd].
    rewrite HQ, (divides_mul _ _ HNq). reflexivity.
  - assert (HL : 0 < L) by (destruct L; [lia | lia]).
    destruct (block_of_position P HL Hg) as (Hr & Hi & Eg).
    rewrite gather_at. destruct causal.
    + rewrite ring_normal_causal by assumption.
      rewrite blockwise_attn_causal; try assumption.
      * now rewrite Eg.
      * now apply Hle.
      * now rewrite HK.
      * now rewrite HK.
    + rewrite ring_none_dense by assumption.
      rewrite blockwise_attn_dense_value; try assumption.
      * now rewrite Eg.
      * now rewrite HK.
      * rewrite HK. lia.
Qed.

Lemma dense_scores_zeros (s : shape4) (K : Tensor4 R) (b h i j : nat) :
  dense_scores (zeros4 s) K b h i j = 0%R.
Proof.
  unfold dense_scores. cbn [at4 zeros4 shape].
  rewrite (@Rsum_ext _ (fun _ => 0%R)) by (intros; apply Rmult_0_l).
  rewrite Rsum_zero. unfold Rdiv. apply Rmult_0_l.
Qed.


(** ** The striped layout *)







(** In exact arithmetic (every float taken as the real number it stands
    for, no rounding and no overflow) the order of the keys does not matter,
    and the striped run on the permuted sequence, un-permuted, equals the
    contiguous run on the original sequence at every position.  The
    binary32 evaluations further below show that the equality does not
    survive rounding. *)
Lemma striped_matches_contiguous_exact (key : Type) (random_split : key -> key * key)
    (random_bernoulli : key -> R -> shape4 -> nat -> nat -> nat -> nat -> bool)
    (P L qc kc : nat) (Q K V : Tensor4 R)
    (deterministic : bool) (dropout_rng : key) (attn_pdrop : R) (b g h d : nat) :
  0 < P -> 0 < qc -> 0 < kc -> L mod qc = 0 -> L mod kc = 0 ->
  dropout_on deterministic attn_pdrop = false ->
  dim1 (shape K) = P * L -> g < P * L ->
  at4 (unpermute_length P L
         (gather P L
            (ring_on_shards random_split random_bernoulli P L
               (permute_length P L Q) (permute_length P L K) (permute_length P L V)
               (Some striped) qc kc deterministic dropout_rng attn_pdrop)))
      b g h d
  = at4 (gather P L
           (ring_on_shards random_split random_bernoulli P L Q K V
              (Some normal) qc kc deterministic dropout_rng attn_pdrop))
        b g h d.
Proof.
  intros HP Hqc Hkc HLq HLk Hdrop HK Hg.
  assert (HL : 0 < L) by (destruct L; lia).
  cbn [unpermute_length at4]. rewrite !gather_at.
  assert (HgP : g / P < L) by (apply Nat.Div0.div_lt_upper_bound; lia).
  assert (HmP : g mod P < P) by (apply Nat.mod_upper_bound; lia).
  rewrite block_offset_div, block_offset_mod by assumption.
  destruct (block_of_position P HL Hg) as (Hr' & Hi' & Eg).
  rewrite ring_striped_causal by assumption.
  rewrite ring_normal_causal by assumption.
  f_equal. pose proof (Nat.div_mod_eq g P). lia.
Qed.

(** ** The skip test of the single-device pass *)

(** C4, at the failing input: [blockwise_attn] with [causal = true],
    [query_chunk_size = 2], [key_chunk_size = 1] on a sequence of length 2.
    Its [skip_upper_half] compares tile indices and skips the pair (query
    tile 0, key tile 1), although the query tile covers positions 0 and 1 and
    the key tile covers position 1, which the rule [q_hi <= k_lo] keeps (and
    the forward and backward passes of the ring keep).  With all scores equal
    and a value that marks position 1, the query at position 1 gets output
    [0] instead of the [1/2] of causal attention, which the ring pass with
    the same chunk sizes returns. *)
Theorem blockwise_attn_skip_diverges :
  let Z := zeros4 (1, 2, 1, 1) in
  let Vm := mark_position (1, 2, 1, 1) 1 in
  let split (u : unit) := (u, u) in
  let bern (_ : unit) (_ : R) (_ : shape4) (_ _ _ _ : nat) := false in
  attn_skip_block true 0 1 = true
  /\ spec_skip (Some normal) 2 1 0 0 1 = false
  /\ fwd_skip_block (Some normal) 2 1 0 0 0 0 1 = false
  /\ bwd_skip_block (Some normal) 2 1 0 0 0 0 1 = false
  /\ at4 (blockwise_attn split bern Z Z Vm None true tt 0%R true 2 1) 0 1 0 0 = 0%R
  /\ at4 (causal_attention Z Z Vm) 0 1 0 0 = (1 / 2)%R
  /\ at4 (ring_on_shards split bern 1 2 Z Z Vm (Some normal) 2 1 true tt 0%R 0) 0 1 0 0
     = (1 / 2)%R.
Proof.
  intros Z Vm split bern.
  assert (Hc : at4 (causal_attention Z Z Vm) 0 1 0 0 = (1 / 2)%R).
  { unfold causal_attention. subst Z Vm. cbn [at4 zeros4 shape dim1 fst snd Rsum].
    rewrite !dense_scores_zeros, exp_0.
    cbn [mark_position at4 Nat.leb Nat.eqb]. lra. }
  repeat split; try assumption.
  - rewrite blockwise_attn_causal_sums; try reflexivity; try (cbn; lia).
    subst Z Vm. cbn [zeros4 shape dim1 fst snd Nat.div Nat.divmod Rsum Nat.ltb Nat.leb
                       Nat.mul Nat.add].
    rewrite !dense_scores_zeros, exp_0.
    cbn [mark_position at4 Nat.eqb]. lra.
  - change 1 with (0 * 2 + 1) at 2.
    rewrite ring_normal_causal; try reflexivity; try (cbn; lia). exact Hc.
Qed.

(** ** Binary32 evaluations *)

(** The value equalities that hold in exact arithmetic, evaluated in
    binary32 on small inputs.  Every tile below holds one key and one head
    dimension, so that no sum has more than one term besides the carried
    one, and [exp] is only taken at [0], [-inf], NaN and [finfo.min]. *)

(** C2, as stated, fails in binary32: with [causal = false], two keys, all
    queries and keys zero and both values [2^127] (a finite binary32
    number), the two weights are [exp(0 - 0) = 1]; [blockwise_attn] adds
    the weighted values first, [2^127 + 2^127] overflows to [+inf], and
    [+inf / 2] is returned, whereas dense attention halves each weight
    first and returns [2^126 + 2^126 = 2^127]. *)
Lemma blockwise_attn_overflows :
  let Z := F32.of_list [F32.zero; F32.zero] in
  let V := F32.of_list [F32.of_Z 1 127; F32.of_Z 1 127] in
  at4 (F32.blockwise_attn (fun u : unit => (u, u)) (fun _ _ _ _ _ _ _ => false)
         Z Z V None true tt 0%R false 1 1) 0 0 0 0 = F32.inf
  /\ at4 (F32.dense_attention Z Z V) 0 0 0 0 = F32.of_Z 1 127.
Proof. split; vm_compute; reflexivity. Qed.



(** The order of the ring against the order of a single device, in
    binary32: on three ranks with one position each, no causal layout, all
    queries and keys zero and values [1, 10^8, -10^8], every key has weight
    [1].  Rank [2] folds the values in the order [-10^8, 10^8, 1] and
    returns [1 / 3]; single-device [blockwise_attn] folds them in the order
    [1, 10^8, -10^8], where [1 + 10^8] rounds to [10^8], and returns [0]. *)
Lemma ring_order_changes_rounding :
  let Z := F32.of_list [F32.zero; F32.zero; F32.zero] in
  let V := F32.of_list [F32.one; F32.of_Z 100000000 0; F32.of_Z (-100000000) 0] in
  at4 (F32.gather 3 1 (F32.ring_on_shards 3 1 Z Z V None 1 1)) 0 2 0 0
  = F32.div F32.one (F32.of_nat 3)
  /\ at4 (F32.blockwise_attn (fun u : unit => (u, u)) (fun _ _ _ _ _ _ _ => false)
            Z Z V None true tt 0%R false 1 1) 0 2 0 0
     = F32.zero.
Proof. split; vm_compute; reflexivity. Qed.

(** * Further properties *)

(** ** A causal pass never looks ahead *)

Lemma dense_scores_key_ext (Q K K' : Tensor4 R) (b h i j : nat) :
  (forall d', at4 K b j h d' = at4 K' b j h d') ->
  dense_scores Q K b h i j = dense_scores Q K' b h i j.
Proof.
  intros H. unfold dense_scores. f_equal. apply Rsum_ext. intros d' _. now rewrite H.
Qed.

Lemma causal_attention_ignores_future (Q K K' V V' : Tensor4 R) (b pos h d : nat) :
  dim1 (shape K) = dim1 (shape K') ->
  (forall j d', j <= pos -> at4 K b j h d' = at4 K' b j h d') ->
  (forall j, j <= pos -> at4 V b j h d = at4 V' b j h d) ->
  at4 (causal_attention Q K V) b pos h d = at4 (causal_attention Q K' V') b pos h d.
Proof.
  intros Hlen HK HV. unfold causal_attention. cbn [at4]. rewrite <- Hlen.
  f_equal; apply Rsum_ext; intros j _; destruct (Nat.leb_spec j pos); try reflexivity.
  - rewrite (@dense_scores_key_ext Q K K') by (intros; now apply HK).
    now rewrite HV.
  - now rewrite (@dense_scores_key_ext Q K K') by (intros; now apply HK).
Qed.

(** In exact arithmetic (every float taken as the real number it stands
    for, no rounding and no overflow).  [blockwise_attn] with [causal = True], whatever the chunk sizes:
    the output at a query position does not change when keys and values at
    later positions are replaced. *)
Lemma blockwise_attn_ignores_future (key : Type) (random_split : key -> key * key)
    (random_bernoulli : key -> R -> shape4 -> nat -> nat -> nat -> nat -> bool)
    (Q K K' V V' : Tensor4 R) (deterministic : bool) (dropout_rng : key)
    (attn_pdrop : R) (qc kc : nat) (b pos h d : nat) :
  dropout_on deterministic attn_pdrop = false ->
  0 < qc -> 0 < kc -> 0 < dim1 (shape K) / kc ->
  dim1 (shape K) = dim1 (shape K') ->
  (forall j d', j <= pos -> at4 K b j h d' = at4 K' b j h d') ->
  (forall j, j <= pos -> at4 V b j h d = at4 V' b j h d) ->
  at4 (blockwise_attn random_split random_bernoulli Q K V None deterministic
         dropout_rng attn_pdrop true qc kc) b pos h d
  = at4 (blockwise_attn random_split random_bernoulli Q K' V' None deterministic
           dropout_rng attn_pdrop true qc kc) b pos h d.
Proof.
  intros Hdrop Hqc Hkc Hn Hlen HK HV.
  rewrite !blockwise_attn_causal_sums by (assumption || (rewrite <- Hlen; assumption)).
  rewrite <- Hlen.
  assert (HW : forall g,
    (if g <=? pos then exp (dense_scores Q K b h pos g) else 0%R)
    = (if g <=? pos then exp (dense_scores Q K' b h pos g) else 0%R)).
  { intros g. destruct (Nat.leb_spec g pos); [|reflexivity].
    now rewrite (@dense_scores_key_ext Q K K') by (intros; now apply HK). }
  f_equal; apply Rsum_ext; intros t _; destruct (pos / qc <? t); try reflexivity;
    apply Rsum_ext; intros j _; rewrite HW; [|reflexivity].
  destruct (Nat.leb_spec (t * kc + j) pos); [now rewrite HV | lra].
Qed.

(** In exact arithmetic (every float taken as the real number it stands
    for, no rounding and no overflow).  The ring run on the shards of a whole sequence (all-zero bias,
    dropout inactive) never looks ahead either.  In the contiguous layout
    the output of rank [r] at local position [i] does not change when keys
    and values at global positions after [r * L + i] are replaced; in the
    striped layout, run on the permuted sequence, it does not change when
    keys and values at original positions after [i * P + r] are replaced. *)
Lemma ring_ignores_future (key : Type) (random_split : key -> key * key)
    (random_bernoulli : key -> R -> shape4 -> nat -> nat -> nat -> nat -> bool)
    (P L qc kc : nat) (Q K K' V V' : Tensor4 R)
    (deterministic : bool) (dropout_rng : key) (attn_pdrop : R) (r b h i d : nat) :
  0 < P -> 0 < qc -> 0 < kc -> L mod qc = 0 -> L mod kc = 0 ->
  dropout_on deterministic attn_pdrop = false ->
  dim1 (shape K) = P * L -> dim1 (shape K') = P * L -> r < P -> i < L ->
  ((forall j d', j <= r * L + i -> at4 K b j h d' = at4 K' b j h d') ->
   (forall j, j <= r * L + i -> at4 V b j h d = at4 V' b j h d) ->
   at4 (ring_on_shards random_split random_bernoulli P L Q K V (Some normal) qc kc
          deterministic dropout_rng attn_pdrop r) b i h d
   = at4 (ring_on_shards random_split random_bernoulli P L Q K' V' (Some normal) qc kc
            deterministic dropout_rng attn_pdrop r) b i h d)
  /\ ((forall j d', j <= i * P + r -> at4 K b j h d' = at4 K' b j h d') ->
      (forall j, j <= i * P + r -> at4 V b j h d = at4 V' b j h d) ->
      at4 (ring_on_shards random_split random_bernoulli P L
             (permute_length P L Q) (permute_length P L K) (permute_length P L V)
             (Some striped) qc kc deterministic dropout_rng attn_pdrop r) b i h d
      = at4 (ring_on_shards random_split random_bernoulli P L
               (permute_length P L Q) (permute_length P L K') (permute_length P L V')
               (Some striped) qc kc deterministic dropout_rng attn_pdrop r) b i h d).
Proof.
  intros HP Hqc Hkc HLq HLk Hdrop HK HK' Hr Hi. split; intros HKe HVe.
  - rewrite !ring_normal_causal by assumption.
    apply causal_attention_ignores_future; [congruence | assumption | assumption].
  - rewrite !ring_striped_causal by assumption.
    apply causal_attention_ignores_future; [congruence | assumption | assumption].
Qed.

(** ** Outputs are weighted means of the values *)

Lemma Rsum_le (f g : nat -> R) (n : nat) :
  (forall j, j < n -> (f j <= g j)%R) -> (Rsum f n <= Rsum g n)%R.
Proof.
  intros H. induction n as [|n IH]; cbn [Rsum]; [lra|].
  assert (Rsum f n <= Rsum g n)%R by (apply IH; intros; apply H; lia).
  pose proof (H n ltac:(lia)). lra.
Qed.

Lemma weighted_mean_bounds (W X : nat -> nat -> R) (n m : nat) (lo hi : R) :
  (forall a p, a < n -> p < m -> (0 <= W a p)%R) ->
  (forall a p, a < n -> p < m -> (lo <= X a p <= hi)%R) ->
  (0 < Rsum (fun a => Rsum (W a) m) n)%R ->
  (lo <= Rsum (fun a => Rsum (fun p => W a p * X a p) m) n
         / Rsum (fun a => Rsum (W a) m) n <= hi)%R.
Proof.
  intros HW HX HS.
  set (S := Rsum (fun a => Rsum (W a) m) n) in *.
  assert (Hlo : (lo * S <= Rsum (fun a => Rsum (fun p => W a p * X a p) m) n)%R).
  { unfold S. rewrite Rmult_comm, <- Rsum_scale. apply Rsum_le. intros a Ha.
    rewrite <- Rsum_scale. apply Rsum_le. intros p Hp.
    pose proof (HW a p Ha Hp). pose proof (HX a p Ha Hp). nra. }
  assert (Hhi : (Rsum (fun a => Rsum (fun p => W a p * X a p) m) n <= hi * S)%R).
  { unfold S. rewrite (Rmult_comm hi), <- Rsum_scale. apply Rsum_le. intros a Ha.
    rewrite <- Rsum_scale. apply Rsum_le. intros p Hp.
    pose proof (HW a p Ha Hp). pose proof (HX a p Ha Hp). nra. }
  split.
  - apply Rmult_le_reg_r with (r := S); [assumption|].
    unfold Rdiv. rewrite Rmult_assoc, Rinv_l by lra. lra.
  - apply Rmult_le_reg_r with (r := S); [assumption|].
    unfold Rdiv. rewrite Rmult_assoc, Rinv_l by lra. lra.
Qed.

(** In exact arithmetic (every float taken as the real number it stands
    for, no rounding and no overflow).  Every output entry of the ring (all-zero bias, dropout inactive,
    any causal layout) is a weighted mean of value entries: when the values
    of a batch entry, head and coordinate all lie between [lo] and [hi], so
    does the output of every rank at every position. *)
Lemma ring_output_in_range (key : Type) (random_split : key -> key * key)
    (random_bernoulli : key -> R -> shape4 -> nat -> nat -> nat -> nat -> bool)
    (P L qc kc : nat) (Q K V : Tensor4 R) (causal_layout : option layout)
    (deterministic : bool) (dropout_rng : key) (attn_pdrop : R)
    (r b h i d : nat) (lo hi : R) :
  0 < P -> 0 < qc -> 0 < kc -> L mod qc = 0 -> L mod kc = 0 ->
  dropout_on deterministic attn_pdrop = false -> r < P -> i < L ->
  (forall p, p < P * L -> (lo <= at4 V b p h d <= hi)%R) ->
  (lo <= at4 (ring_on_shards random_split random_bernoulli P L Q K V causal_layout
                qc kc deterministic dropout_rng attn_pdrop r) b i h d <= hi)%R.
Proof.
  intros HP Hqc Hkc HLq HLk Hdrop Hr Hi HV.
  unfold ring_on_shards. rewrite ring_output_sums by assumption.
  apply weighted_mean_bounds.
  - intros kb p _ _.
    destruct (ring_visible P L causal_layout r i kb p); [left; apply exp_pos | lra].
  - intros kb p Hkb Hp. apply HV. nia.
  - apply (@ring_weight_total_pos key P L qc kc Q K causal_layout deterministic
             dropout_rng attn_pdrop r b h i); assumption.
Qed.

(** ** Which tiles a pair of blocks skips *)

Lemma row_fold_all_skipped (kc : nat) (skip : nat -> bool) (x : nat -> nat -> score)
    (v : nat -> nat -> R) (st : rowstate) (n : nat) :
  (forall t, t < n -> skip t = true) -> row_fold kc skip x v st n = st.
Proof.
  intros H. unfold row_fold. induction n as [|n IH]; cbn [scan]; [reflexivity|].
  rewrite (H n) by lia. apply IH. intros t Ht. apply H. lia.
Qed.

Lemma normal_pair_skip (qc kc bs L r kb qi t : nat) :
  0 < qc -> 0 < kc -> L mod qc = 0 -> L mod kc = 0 -> qi < L / qc -> t < L / kc ->
  (r < kb -> spec_skip (Some normal) qc kc bs (r * (L / qc) + qi) (kb * (L / kc) + t)
             = true)
  /\ (kb < r -> spec_skip (Some normal) qc kc bs (r * (L / qc) + qi) (kb * (L / kc) + t)
                = false).
Proof.
  intros Hqc Hkc HLq HLk Hqi Ht.
  pose proof (divides_mul _ _ HLq) as Eq. pose proof (divides_mul _ _ HLk) as Ek.
  cbn [spec_skip].
  assert (E1 : (r * (L / qc) + qi) * qc = r * L + qi * qc) by nia.
  assert (E2 : (kb * (L / kc) + t) * kc = kb * L + t * kc) by nia.
  rewrite E1, E2. split; intros Hlt.
  - apply Nat.leb_le. nia.
  - apply Nat.leb_gt. nia.
Qed.

(** X4.  Contiguous layout: a call of [_blockwise_attention_fwd] that pairs
    query block [r] with a later key block [kb] skips every tile, whatever
    the bias and the dropout settings, and hands back the carry it was
    given at every position of the block. *)
Theorem fwd_later_block_untouched (key : Type) (random_split : key -> key * key)
    (random_bernoulli : key -> R -> shape4 -> nat -> nat -> nat -> nat -> bool)
    (q k v : Tensor4 R) (carry : fwd_carry) (bias : option (Tensor4 R))
    (kw : blockwise_kwargs key) (r kb b h pos d : nat) :
  let L := dim1 (shape q) in
  let qc := kw_query_chunk_size kw in
  let kc := kw_key_chunk_size kw in
  let out := _blockwise_attention_fwd random_split random_bernoulli q k v carry
               (r * (L / qc)) (kb * (L / kc)) bias kw in
  kw_causal_layout kw = Some normal -> dim1 (shape k) = L ->
  0 < qc -> 0 < kc -> L mod qc = 0 -> L mod kc = 0 -> r < kb -> pos < L ->
  c_num out b pos h d = c_num carry b pos h d
  /\ c_den out b h pos = c_den carry b h pos
  /\ c_max out b h pos = c_max carry b h pos.
Proof.
  intros L qc kc out Hlay Hk Hqc Hkc HLq HLk Hlt Hpos.
  pose proof (Nat.div_mod_eq pos qc) as Epos.
  pose proof (Nat.mod_upper_bound pos qc ltac:(lia)) as Hc.
  assert (Hrow : row_of out b h pos d = row_of carry b h pos d).
  { replace pos with (pos / qc * qc + pos mod qc) by lia.
    unfold out. fold qc in Hc. unfold qc in *.
    rewrite (@fwd_rows key random_split random_bernoulli q k v carry _ _ bias kw b h
               (pos / kw_query_chunk_size kw) (pos mod kw_query_chunk_size kw) d Hc).
    apply row_fold_all_skipped. intros t Ht.
    rewrite fwd_skip_block_spec, Hlay. fold L in Hk. rewrite Hk in Ht.
    apply normal_pair_skip; try assumption.
    pose proof (divides_mul _ _ HLq) as Eq.
    apply Nat.Div0.div_lt_upper_bound. lia. }
  unfold row_of in Hrow. injection Hrow as H1 H2 H3. auto.
Qed.

Lemma fwd_later_block_untouched_witness :
  let x := ones4 (1, 2, 1, 1) in
  let carry := mkCarry (fun _ _ _ _ => 3%R) (fun _ _ _ => 2%R) (fun _ _ _ => Fin 0) in
  let out := _blockwise_attention_fwd (fun u : unit => (u, u)) (fun _ _ _ _ _ _ _ => false)
               x x x carry (0 * (2 / 1)) (1 * (2 / 1)) None (unit_kwargs (Some normal) 1 1 2) in
  c_num out 0 1 0 0 = c_num carry 0 1 0 0
  /\ c_den out 0 0 1 = c_den carry 0 0 1
  /\ c_max out 0 0 1 = c_max carry 0 0 1.
Proof.
  intros x carry.
  apply (@fwd_later_block_untouched unit (fun u : unit => (u, u))
           (fun _ _ _ _ _ _ _ => false) x x x carry None
           (unit_kwargs (Some normal) 1 1 2) 0 1 0 0 1 0);
    cbn; try reflexivity; lia.
Defined.

(** X5.  Contiguous layout, backward pass: a call of
    [_blockwise_attention_bwd] that pairs query block [r] with a later key
    block [kb] adds nothing to the accumulators: [dq], [dk] and [dv] come
    back as they were passed in, at every position of the block. *)
Theorem bwd_later_block_untouched (key : Type) (random_split : key -> key * key)
    (random_bernoulli : key -> R -> shape4 -> nat -> nat -> nat -> nat -> bool)
    (q k v g : Tensor4 R) (dq dk dv output : tile4) (carry : fwd_carry)
    (bias : option (Tensor4 R)) (kw : blockwise_kwargs key) (r kb b h pos d : nat) :
  let L := dim1 (shape q) in
  let qc := kw_query_chunk_size kw in
  let kc := kw_key_chunk_size kw in
  let out := _blockwise_attention_bwd random_split random_bernoulli q k v g dq dk dv
               output carry (r * (L / qc)) (kb * (L / kc)) bias kw in
  kw_causal_layout kw = Some normal -> dim1 (shape k) = L ->
  0 < qc -> 0 < kc -> L mod qc = 0 -> L mod kc = 0 -> r < kb -> pos < L ->
  at4 (g_dq out) b pos h d = dq b pos h d
  /\ at4 (g_dk out) b pos h d = dk b pos h d
  /\ at4 (g_dv out) b pos h d = dv b pos h d.
Proof.
  intros L qc kc out Hlay Hk Hqc Hkc HLq HLk Hlt Hpos.
  pose proof (divides_mul _ _ HLq) as Eq. pose proof (divides_mul _ _ HLk) as Ek.
  set (inner := bwd_inner random_split random_bernoulli q k v g output carry
                  (r * (L / qc)) (kb * (L / kc)) bias kw).
  assert (Hin : forall qi t dqc, qi < L / qc -> t < L / kc ->
            inner qi dqc t
            = (dqc, (zeros4 (dim0 (shape q), kc, dim2 (shape q), dim3 (shape q)),
                     zeros4 (dim0 (shape q), kc, dim2 (shape q), dim3 (shape q))))).
  { intros qi t dqc Hqi Ht. apply bwd_inner_skipped.
    rewrite bwd_skip_block_spec, Hlay. now apply normal_pair_skip. }
  assert (Hcarry : forall qi init n, qi < L / qc -> n <= L / kc ->
            scan (fun c j => fst (inner qi c j)) init n = init).
  { intros qi init n Hqi. induction n as [|n IH]; intros Hn; cbn [scan]; [reflexivity|].
    rewrite IH by lia. now rewrite Hin by lia. }
  assert (Hq : pos / qc < L / qc) by (apply Nat.Div0.div_lt_upper_bound; lia).
  assert (Ht : pos / kc < L / kc) by (apply Nat.Div0.div_lt_upper_bound; lia).
  pose proof (Nat.div_mod_eq pos qc) as Eposq. pose proof (Nat.div_mod_eq pos kc) as Eposk.
  unfold out, _blockwise_attention_bwd. cbn [g_dq g_dk g_dv at4]. fold L qc kc inner.
  rewrite Hk.
  split; [|split].
  - unfold scan_carry. rewrite Hcarry by (assumption || lia). f_equal. lia.
  - match goal with |- fst (scan ?f ?i0 _) _ _ _ _ _ = _ =>
      assert (Hn : forall n, n <= L / qc ->
                fst (scan f i0 n) (pos / kc) b (pos mod kc) h d
                = fst i0 (pos / kc) b (pos mod kc) h d)
    end.
    { induction n as [|n IH]; intros Hn; cbn [scan]; [reflexivity|].
      cbn [fst]. rewrite IH by lia. unfold scan_out.
      rewrite Hin by (assumption || lia). cbn [snd fst zeros4 at4]. lra. }
    rewrite Hn by lia. cbn [fst]. f_equal. lia.
  - match goal with |- snd (scan ?f ?i0 _) _ _ _ _ _ = _ =>
      assert (Hn : forall n, n <= L / qc ->
                snd (scan f i0 n) (pos / kc) b (pos mod kc) h d
                = snd i0 (pos / kc) b (pos mod kc) h d)
    end.
    { induction n as [|n IH]; intros Hn; cbn [scan]; [reflexivity|].
      cbn [snd]. rewrite IH by lia. unfold scan_out.
      rewrite Hin by (assumption || lia). cbn [snd fst zeros4 at4]. lra. }
    rewrite Hn by lia. cbn [snd]. f_equal. lia.
Qed.

Lemma bwd_later_block_untouched_witness :
  let x := ones4 (1, 2, 1, 1) in
  let carry := mkCarry (fun _ _ _ _ => 3%R) (fun _ _ _ => 2%R) (fun _ _ _ => Fin 0) in
  let acc : tile4 := fun _ _ _ _ => 7%R in
  let out := _blockwise_attention_bwd (fun u : unit => (u, u)) (fun _ _ _ _ _ _ _ => false)
               x x x x acc acc acc acc carry (0 * (2 / 1)) (1 * (2 / 1)) None
               (unit_kwargs (Some normal) 1 1 2) in
  at4 (g_dq out) 0 1 0 0 = acc 0 1 0 0
  /\ at4 (g_dk out) 0 1 0 0 = acc 0 1 0 0
  /\ at4 (g_dv out) 0 1 0 0 = acc 0 1 0 0.
Proof.
  intros x carry acc.
  apply (@bwd_later_block_untouched unit (fun u : unit => (u, u))
           (fun _ _ _ _ _ _ _ => false) x x x x acc acc acc acc carry None
           (unit_kwargs (Some normal) 1 1 2) 0 1 0 0 1 0);
    cbn; try reflexivity; lia.
Defined.

(** X6.  Striped layout: which tiles a call skips depends only on the tile
    indices inside the blocks, not on which query block and key block are
    paired.  Every rank of the ring skips the same tiles at every hop, in
    the forward and in the backward pass. *)
Theorem striped_skip_same_for_every_pair (qc kc L r kb qi t : nat) :
  0 < qc -> 0 < kc -> L mod qc = 0 -> L mod kc = 0 -> qi < L / qc -> t < L / kc ->
  fwd_skip_block (Some striped) qc kc L (r * (L / qc)) (kb * (L / kc)) qi t
  = (qi * qc + qc <=? t * kc)
  /\ bwd_skip_block (Some striped) qc kc L (r * (L / qc)) (kb * (L / kc)) qi t
     = (qi * qc + qc <=? t * kc).
Proof.
  intros Hqc Hkc HLq HLk Hqi Ht.
  pose proof (divides_mul _ _ HLq) as Eq. pose proof (divides_mul _ _ HLk) as Ek.
  assert (E1 : ((r * (L / qc) + qi) * qc) mod L = qi * qc).
  { replace ((r * (L / qc) + qi) * qc) with (r * L + qi * qc) by nia.
    apply block_offset_mod. nia. }
  assert (E2 : ((kb * (L / kc) + t) * kc) mod L = t * kc).
  { replace ((kb * (L / kc) + t) * kc) with (kb * L + t * kc) by nia.
    apply block_offset_mod. nia. }
  unfold fwd_skip_block, bwd_skip_block. cbn zeta. rewrite E1, E2. split; reflexivity.
Qed.

Lemma striped_skip_same_for_every_pair_witness :
  fwd_skip_block (Some striped) 2 2 4 (1 * (4 / 2)) (3 * (4 / 2)) 0 1 = (0 * 2 + 2 <=? 1 * 2)
  /\ bwd_skip_block (Some striped) 2 2 4 (1 * (4 / 2)) (3 * (4 / 2)) 0 1
     = (0 * 2 + 2 <=? 1 * 2).
Proof.
  apply (@striped_skip_same_for_every_pair 2 2 4 1 3 0 1); cbn; try reflexivity; lia.
Defined.

(** X7.  Contiguous layout: the skip test is decided by the order of the
    two blocks.  A key block after the query block is skipped tile by tile,
    a key block before it is not skipped at all, and on the diagonal pair
    the test is the one of a single block.  The same holds in the backward
    pass. *)
Theorem normal_skip_by_block_order (qc kc bs L r kb qi t : nat) :
  0 < qc -> 0 < kc -> L mod qc = 0 -> L mod kc = 0 -> qi < L / qc -> t < L / kc ->
  let fwd := fwd_skip_block (Some normal) qc kc bs (r * (L / qc)) (kb * (L / kc)) qi t in
  let bwd := bwd_skip_block (Some normal) qc kc bs (r * (L / qc)) (kb * (L / kc)) qi t in
  bwd = fwd
  /\ (r < kb -> fwd = true)
  /\ (kb < r -> fwd = false)
  /\ (r = kb -> fwd = (qi * qc + qc <=? t * kc)).
Proof.
  intros Hqc Hkc HLq HLk Hqi Ht fwd bwd.
  pose proof (divides_mul _ _ HLq) as Eq. pose proof (divides_mul _ _ HLk) as Ek.
  assert (Ef : fwd = spec_skip (Some normal) qc kc bs (r * (L / qc) + qi)
                       (kb * (L / kc) + t)) by apply fwd_skip_block_spec.
  split; [|split; [|split]].
  - unfold bwd. now rewrite bwd_skip_block_spec.
  - intros Hlt. rewrite Ef. now apply normal_pair_skip.
  - intros Hlt. rewrite Ef. now apply normal_pair_skip.
  - intros ->. rewrite Ef. cbn [spec_skip].
    replace ((kb * (L / qc) + qi) * qc) with (kb * L + qi * qc) by nia.
    replace ((kb * (L / kc) + t) * kc) with (kb * L + t * kc) by nia.
    destruct (Nat.leb_spec (qi * qc + qc) (t * kc)).
    + apply Nat.leb_le. lia.
    + apply Nat.leb_gt. lia.
Qed.

Lemma normal_skip_by_block_order_witness :
  let fwd := fwd_skip_block (Some normal) 2 2 4 (1 * (4 / 2)) (3 * (4 / 2)) 0 1 in
  let bwd := bwd_skip_block (Some normal) 2 2 4 (1 * (4 / 2)) (3 * (4 / 2)) 0 1 in
  bwd = fwd
  /\ (1 < 3 -> fwd = true)
  /\ (3 < 1 -> fwd = false)
  /\ (1 = 3 -> fwd = (0 * 2 + 2 <=? 1 * 2)).
Proof.
  apply (@normal_skip_by_block_order 2 2 4 4 1 3 0 1); cbn; try reflexivity; lia.
Defined.

(** ** The bias tile read inside the ring *)

Lemma clamp_start_past (start dim size : nat) :
  dim - size <= start -> clamp_start start dim size = dim - size.
Proof. intros H. unfold clamp_start. lia. Qed.

Lemma clamp_start_within (start dim size : nat) :
  start + size <= dim -> clamp_start start dim size = start.
Proof. intros H. unfold clamp_start. lia. Qed.

(** X8.  Inside the ring the bias slice of a hop is [L] columns wide, but
    [_chunk_attention_bias] is called with the global key tile index.  For
    every key block but the first, [lax.dynamic_slice] clamps the start
    column, so the same tile is read for every key tile [t] of the block:
    the last [key_chunk_size] columns of the slice, i.e. the tile of the
    local index [L / key_chunk_size - 1]. *)
Theorem ring_bias_tile_clamped (attn_bias : Tensor4 R) (L qc kc bs : nat)
    (deterministic : bool) (attn_dropout : option (Tensor4 bool)) (attn_pdrop : R)
    (kb qidx t : nat) :
  0 < kc -> L mod kc = 0 -> 0 < L -> 1 <= kb ->
  dropout_on deterministic attn_pdrop = false ->
  let attn_bias_slice := dynamic_slice_in_dim attn_bias (kb * L) L in
  _chunk_attention_bias qc kc bs (Some attn_bias_slice) deterministic attn_dropout
    attn_pdrop None qidx (kb * (L / kc) + t)
  = _chunk_attention_bias qc kc bs (Some attn_bias_slice) deterministic attn_dropout
      attn_pdrop None qidx (L / kc - 1).
Proof.
  intros Hkc HLk HL Hkb Hdrop attn_bias_slice.
  pose proof (divides_mul _ _ HLk) as Ek.
  assert (Hkl : kc <= L) by (destruct (L / kc); [lia | nia]).
  unfold _chunk_attention_bias. rewrite Hdrop. cbn zeta.
  unfold dynamic_slice, attn_bias_slice, dynamic_slice_in_dim. cbn [shape dim3 dim2 snd fst].
  rewrite (@clamp_start_past ((kb * (L / kc) + t) * kc) L (Nat.min L kc)) by nia.
  rewrite (@clamp_start_past ((L / kc - 1) * kc) L (Nat.min L kc)) by nia.
  reflexivity.
Qed.

Lemma ring_bias_tile_clamped_witness :
  let attn_bias := mkT4 (1, 1, 1, 8) (fun _ _ _ j => INR j) in
  let attn_bias_slice := dynamic_slice_in_dim attn_bias (1 * 4) 4 in
  _chunk_attention_bias 2 2 4 (Some attn_bias_slice) true None 0%R None 0 (1 * (4 / 2) + 0)
  = _chunk_attention_bias 2 2 4 (Some attn_bias_slice) true None 0%R None 0 (4 / 2 - 1).
Proof.
  intros attn_bias.
  apply (@ring_bias_tile_clamped attn_bias 4 2 2 4 true None 0%R 1 0 0);
    cbn; try reflexivity; lia.
Defined.

Lemma tile_add_agree (kc : nat) (X1 X2 Y : Tensor4 score) :
  (shape X1 = shape X2
   /\ forall b h i j, j < kc -> at4 X1 b h i j = at4 X2 b h i j) ->
  shape (tile_add X1 Y) = shape (tile_add X2 Y)
  /\ forall b h i j, j < kc -> at4 (tile_add X1 Y) b h i j = at4 (tile_add X2 Y) b h i j.
Proof.
  intros [Hs Ha]. unfold tile_add. cbn [shape at4]. rewrite Hs. split; [reflexivity|].
  intros b h i j Hj. f_equal. unfold bread. rewrite Hs. apply Ha.
  unfold bidx. destruct (dim3 (shape X2) =? 1); lia.
Qed.

(** The bias tile only depends on the part of the bias that
    [lax.dynamic_slice] cuts out for it. *)
Lemma chunk_bias_ext (qc kc bs : nat) (B1 B2 : Tensor4 R) (deterministic : bool)
    (attn_dropout : option (Tensor4 bool)) (attn_pdrop : R)
    (causal_layout : option layout) (qidx kidx b h c j : nat) :
  shape B1 = shape B2 ->
  (forall b h i j, j < kc ->
     at4 (dynamic_slice B1 (qidx * qc) (kidx * kc) qc kc) b h i j
     = at4 (dynamic_slice B2 (qidx * qc) (kidx * kc) qc kc) b h i j) ->
  j < kc ->
  bread (_chunk_attention_bias qc kc bs (Some B1) deterministic attn_dropout attn_pdrop
           causal_layout qidx kidx) b h c j
  = bread (_chunk_attention_bias qc kc bs (Some B2) deterministic attn_dropout attn_pdrop
             causal_layout qidx kidx) b h c j.
Proof.
  intros Hs Ha Hj.
  assert (H0 : shape (lift_bias (dynamic_slice B1 (qidx * qc) (kidx * kc) qc kc))
               = shape (lift_bias (dynamic_slice B2 (qidx * qc) (kidx * kc) qc kc))
               /\ forall b h i j, j < kc ->
                    at4 (lift_bias (dynamic_slice B1 (qidx * qc) (kidx * kc) qc kc)) b h i j
                    = at4 (lift_bias (dynamic_slice B2 (qidx * qc) (kidx * kc) qc kc))
                        b h i j).
  { split.
    - unfold lift_bias, dynamic_slice. cbn [shape]. now rewrite Hs.
    - intros b' h' i' j' Hj'. unfold lift_bias. cbn [at4]. f_equal. now apply Ha. }
  assert (Hfin : forall X1 X2 : Tensor4 score,
            (shape X1 = shape X2
             /\ forall b h i j, j < kc -> at4 X1 b h i j = at4 X2 b h i j) ->
            bread X1 b h c j = bread X2 b h c j).
  { intros X1 X2 [Hs' Ha']. unfold bread. rewrite Hs'. apply Ha'.
    unfold bidx. destruct (dim3 (shape X2) =? 1); lia. }
  unfold _chunk_attention_bias. cbn zeta.
  destruct (dropout_on deterministic attn_pdrop), attn_dropout as [m|],
    causal_layout as [[|]|]; apply Hfin;
    repeat (apply (@tile_add_agree kc)); exact H0.
Qed.

(** X9.  What the clamping means for the ring as a whole: of the bias
    columns that belong to the key blocks [1 .. P-1], only the last
    [key_chunk_size] columns of each block are ever read.  Two biases of
    the same shape that agree on block [0] and on those last columns give
    the same output, whatever the layout and the dropout settings. *)
Theorem ring_bias_columns_ignored (key : Type) (random_split : key -> key * key)
    (random_bernoulli : key -> R -> shape4 -> nat -> nat -> nat -> nat -> bool)
    (P : nat) (q k v attn_bias attn_bias' : nat -> Tensor4 R)
    (kw : blockwise_kwargs key) (r b h pos d : nat) :
  let L := dim1 (shape (q r)) in
  let qc := kw_query_chunk_size kw in
  let kc := kw_key_chunk_size kw in
  0 < P -> 0 < qc -> 0 < kc -> L mod kc = 0 -> r < P ->
  (forall kb, kb < P -> dim1 (shape (k kb)) = L) ->
  shape (attn_bias r) = shape (attn_bias' r) ->
  dim3 (shape (attn_bias r)) = P * L ->
  (forall b' h' i' kb p, kb < P -> p < L -> kb = 0 \/ L - kc <= p ->
     at4 (attn_bias r) b' h' i' (kb * L + p) = at4 (attn_bias' r) b' h' i' (kb * L + p)) ->
  at4 (ring_attention random_split random_bernoulli P q k v attn_bias kw r) b pos h d
  = at4 (ring_attention random_split random_bernoulli P q k v attn_bias' kw r) b pos h d.
Proof.
  intros L qc kc HP Hqc Hkc HLk Hr Hk Hs Hd3 Hagree.
  pose proof (divides_mul _ _ HLk) as Ek.
  pose proof (Nat.div_mod_eq pos qc) as Epos.
  pose proof (Nat.mod_upper_bound pos qc ltac:(lia)) as Hc.
  replace pos with (pos / qc * qc + pos mod qc) by lia.
  unfold qc in *.
  rewrite (@ring_attention_row key random_split random_bernoulli P q k v attn_bias kw HP
             r b h (pos / kw_query_chunk_size kw) (pos mod kw_query_chunk_size kw) d Hr Hc).
  rewrite (@ring_attention_row key random_split random_bernoulli P q k v attn_bias' kw HP
             r b h (pos / kw_query_chunk_size kw) (pos mod kw_query_chunk_size kw) d Hr Hc).
  assert (E : forall n,
            ring_row random_split random_bernoulli P q k v attn_bias kw r b h
              (pos / kw_query_chunk_size kw) (pos mod kw_query_chunk_size kw) d n
            = ring_row random_split random_bernoulli P q k v attn_bias' kw r b h
                (pos / kw_query_chunk_size kw) (pos mod kw_query_chunk_size kw) d n);
    [|now rewrite E].
  intros n. unfold ring_row. apply scan_ext. intros st idx _.
  apply row_fold_ext; try reflexivity.
  intros t j Ht _ Hj. unfold hop_entry, fwd_entry. f_equal.
  unfold fwd_bias_fn, hop_bias.
  assert (Hkb : hop_k_block P r idx < P) by (apply ring_k_block_idx_lt; assumption).
  set (kb := hop_k_block P r idx) in *.
  unfold hop_tiles in Ht. fold kb in Ht. rewrite (Hk kb Hkb) in Ht. fold kc in Ht, Hj.
  assert (Hkl : kc <= L) by (destruct (L / kc); [lia | nia]).
  rewrite (Hk r Hr). fold L.
  apply chunk_bias_ext; [| |assumption].
  - unfold dynamic_slice_in_dim. cbn [shape]. now rewrite Hs.
  - intros b' h' i' j' Hj'. unfold dynamic_slice, dynamic_slice_in_dim.
    cbn [shape at4 dim2 dim3 snd fst]. rewrite <- Hs, Hd3.
    rewrite (@clamp_start_within (kb * L) (P * L) L) by nia.
    rewrite (Nat.min_r L (kw_key_chunk_size kw)) by exact Hkl.
    unfold hop_ks. fold kb L kc.
    destruct (Nat.eq_dec kb 0) as [E0|E0].
    + rewrite (@clamp_start_within ((kb * (L / kc) + t) * kc) L kc) by nia.
      apply Hagree; [assumption | nia | now left].
    + rewrite (@clamp_start_past ((kb * (L / kc) + t) * kc) L kc) by nia.
      apply Hagree; [assumption | lia | right; lia].
Qed.

Lemma ring_bias_columns_ignored_witness :
  let x (_ : nat) := ones4 (1, 2, 1, 1) in
  let attn_bias (_ : nat) := zeros4 (1, 1, 1, 4) in
  let attn_bias' (_ : nat) :=
    mkT4 (1, 1, 1, 4) (fun _ _ _ j => if j =? 2 then 5%R else 0%R) in
  at4 (ring_attention (fun u : unit => (u, u)) (fun _ _ _ _ _ _ _ => false) 2
         x x x attn_bias (unit_kwargs None 1 1 2) 1) 0 0 0 0
  = at4 (ring_attention (fun u : unit => (u, u)) (fun _ _ _ _ _ _ _ => false) 2
           x x x attn_bias' (unit_kwargs None 1 1 2) 1) 0 0 0 0.
Proof.
  intros x attn_bias attn_bias'.
  apply (@ring_bias_columns_ignored unit (fun u : unit => (u, u))
           (fun _ _ _ _ _ _ _ => false) 2 x x x attn_bias attn_bias'
           (unit_kwargs None 1 1 2) 1 0 0 0 0);
    cbn; try reflexivity; try lia.
  intros _ _ _ kb p Hkb Hp Hcol.
  destruct (Nat.eqb_spec (kb * 2 + p) 2); [lia | reflexivity].
Defined.

(** ** The backward pass adds to its accumulators *)

Section BwdAdditive.

Variable key : Type.
Variable random_split : key -> key * key.
Variable random_bernoulli : key -> R -> shape4 -> nat -> nat -> nat -> nat -> bool.
Variables q k v g : Tensor4 R.
Variable output : tile4.
Variable carry : fwd_carry.
Variables qs ks : nat.
Variable bias : option (Tensor4 R).
Variable kw : blockwise_kwargs key.

Let inner := bwd_inner random_split random_bernoulli q k v g output carry qs ks bias kw.
Let zero : tile4 := fun _ _ _ _ => 0%R.

(** The [(dk_chunk, dv_chunk)] output of a step does not depend on the
    [dq_chunk] it carries. *)
Lemma bwd_inner_parts (qi t : nat) (c c' : tile4) :
  snd (inner qi c t) = snd (inner qi c' t).
Proof.
  unfold inner, bwd_inner, bwd_skip_upper_half.
  destruct (bwd_skip_block _ _ _ _ _ _ _ _); reflexivity.
Qed.

(** A step adds to the [dq_chunk] it carries. *)
Lemma bwd_inner_dq (qi t : nat) (c : tile4) (b x h d : nat) :
  fst (inner qi c t) b x h d = (c b x h d + fst (inner qi zero t) b x h d)%R.
Proof.
  unfold inner, bwd_inner, bwd_skip_upper_half.
  destruct (bwd_skip_block _ _ _ _ _ _ _ _); cbn [fst bwd_scan_kv_block]; unfold zero; lra.
Qed.

Lemma bwd_scan_dq (qi n : nat) (init : tile4) (b x h d : nat) :
  scan (fun c j => fst (inner qi c j)) init n b x h d
  = (init b x h d + Rsum (fun t => fst (inner qi zero t) b x h d) n)%R.
Proof.
  induction n as [|n IH]; cbn [scan Rsum]; [lra|].
  rewrite bwd_inner_dq, IH. lra.
Qed.

(** In exact arithmetic: [_blockwise_attention_bwd] returns its incoming
    accumulators plus what the same call returns from zero accumulators. *)
Lemma bwd_additive (dq dk dv : tile4) (b pos h d : nat) :
  let out := _blockwise_attention_bwd random_split random_bernoulli q k v g dq dk dv
               output carry qs ks bias kw in
  let out0 := _blockwise_attention_bwd random_split random_bernoulli q k v g
                zero zero zero output carry qs ks bias kw in
  at4 (g_dq out) b pos h d = (dq b pos h d + at4 (g_dq out0) b pos h d)%R
  /\ at4 (g_dk out) b pos h d = (dk b pos h d + at4 (g_dk out0) b pos h d)%R
  /\ at4 (g_dv out) b pos h d = (dv b pos h d + at4 (g_dv out0) b pos h d)%R.
Proof.
  intros out out0. unfold out, out0, _blockwise_attention_bwd.
  cbn [g_dq g_dk g_dv at4]. fold inner.
  set (qc := kw_query_chunk_size kw). set (kc := kw_key_chunk_size kw).
  pose proof (Nat.div_mod_eq pos qc) as Eq. pose proof (Nat.div_mod_eq pos kc) as Ek.
  set (kt := pos / kc) in *. set (ck := pos mod kc) in *.
  split; [|split].
  - unfold scan_carry. rewrite !bwd_scan_dq. unfold zero at 2.
    replace (pos / qc * qc + pos mod qc) with pos by lia. lra.
  - match goal with |- fst (scan ?f ?i1 ?n) _ _ _ _ _ = (_ + fst (scan ?f0 ?i0 _) _ _ _ _ _)%R =>
      assert (Hn : forall m,
                fst (scan f i1 m) kt b ck h d
                = (dk b pos h d + fst (scan f0 i0 m) kt b ck h d)%R)
    end.
    { induction m as [|m IH]; cbn [scan fst].
      - unfold zero. replace (kt * kc + ck) with pos by lia. lra.
      - rewrite IH. unfold scan_out.
        rewrite (bwd_inner_parts m kt _
                   (scan (fun c j => fst (inner m c j))
                      (fun b c h d => zero b (m * qc + c) h d) kt)).
        lra. }
    apply Hn.
  - match goal with |- snd (scan ?f ?i1 ?n) _ _ _ _ _ = (_ + snd (scan ?f0 ?i0 _) _ _ _ _ _)%R =>
      assert (Hn : forall m,
                snd (scan f i1 m) kt b ck h d
                = (dv b pos h d + snd (scan f0 i0 m) kt b ck h d)%R)
    end.
    { induction m as [|m IH]; cbn [scan snd].
      - unfold zero. replace (kt * kc + ck) with pos by lia. lra.
      - rewrite IH. unfold scan_out.
        rewrite (bwd_inner_parts m kt _
                   (scan (fun c j => fst (inner m c j))
                      (fun b c h d => zero b (m * qc + c) h d) kt)).
        lra. }
    apply Hn.
Qed.

End BwdAdditive.

(** ** The ring in the backward pass *)

Section RingBwd.

Variable key : Type.
Variable random_split : key -> key * key.
Variable random_bernoulli : key -> R -> shape4 -> nat -> nat -> nat -> nat -> bool.
Variable P : nat.
Variable kw : blockwise_kwargs key.
Variable res : nat -> ring_res.
Variable g : nat -> Tensor4 R.
Hypothesis P_pos : 0 < P.

Let states := ring_bwd_states random_split random_bernoulli P kw res g.
Let pair := ring_pair_grads random_split random_bernoulli kw res g.

Lemma ring_bwd_states_S (n : nat) :
  states (S n)
  = ring_bwd_scan_kv_block random_split random_bernoulli P res g kw (states n) n.
Proof. reflexivity. Qed.

(** After [n] hops rank [r] holds the key and value shards of rank
    [(r - n) mod P], as in the forward pass. *)
Lemma ring_bwd_states_kv (n r : nat) :
  r < P ->
  rb_k (states n r) = res_k (res (ring_k_block_idx P r n))
  /\ rb_v (states n r) = res_v (res (ring_k_block_idx P r n)).
Proof.
  revert r. induction n as [|n IH]; intros r Hr.
  - rewrite ring_k_block_idx_0 by assumption. split; reflexivity.
  - rewrite ring_bwd_states_S. unfold ring_bwd_scan_kv_block. cbn [rb_k rb_v].
    rewrite !ppermute_ring by assumption.
    destruct (IH (ring_k_block_idx P r 1)) as [Hk Hv];
      [now apply ring_k_block_idx_lt|].
    rewrite Hk, Hv, ring_k_block_idx_S by assumption. split; reflexivity.
Qed.

(** What the call of hop [n] returns at rank [r]: the accumulators the
    rank holds plus the contribution of the pair it processes. *)
Lemma ring_bwd_local (n r b pos h d : nat) :
  r < P ->
  let st := ring_bwd_scan_kv_block random_split random_bernoulli P res g kw (states n) n in
  let kb := ring_k_block_idx P r n in
  at4 (rb_dq (st r)) b pos h d
  = (at4 (rb_dq (states n r)) b pos h d + at4 (g_dq (pair r kb)) b pos h d)%R
  /\ forall r', r' < P -> ring_k_block_idx P r' 1 = r ->
       at4 (rb_dk (st r')) b pos h d
       = (at4 (rb_dk (states n r)) b pos h d + at4 (g_dk (pair r kb)) b pos h d)%R
       /\ at4 (rb_dv (st r')) b pos h d
          = (at4 (rb_dv (states n r)) b pos h d + at4 (g_dv (pair r kb)) b pos h d)%R.
Proof.
  intros Hr st kb. destruct (ring_bwd_states_kv n Hr) as [Hk Hv]. fold kb in Hk, Hv.
  pose proof (@bwd_additive key random_split random_bernoulli
                (res_q (res r)) (res_k (res kb)) (res_v (res kb)) (g r)
                (at4 (res_output (res r))) (res_carry (res r))
                (r * (dim1 (shape (res_q (res r))) / kw_query_chunk_size kw))
                (kb * (dim1 (shape (res_q (res r))) / kw_key_chunk_size kw))
                (Some (dynamic_slice_in_dim (res_attn_bias (res r))
                         (kb * dim1 (shape (res_k (res r))))
                         (dim1 (shape (res_k (res r))))))
                kw (at4 (rb_dq (states n r))) (at4 (rb_dk (states n r)))
                (at4 (rb_dv (states n r))) b pos h d) as Hadd.
  cbv zeta in Hadd. destruct Hadd as (Hq & Hdk & Hdv).
  split.
  - unfold st, ring_bwd_scan_kv_block. cbn [rb_dq]. rewrite Hk, Hv. exact Hq.
  - intros r' Hr' E. unfold st, ring_bwd_scan_kv_block. cbn [rb_dk rb_dv].
    rewrite !ppermute_ring by assumption. rewrite E, Hk, Hv. fold kb.
    split; [exact Hdk | exact Hdv].
Qed.

Lemma ring_bwd_dq_sum (n r b pos h d : nat) :
  r < P ->
  at4 (rb_dq (states n r)) b pos h d
  = Rsum (fun idx => at4 (g_dq (pair r (ring_k_block_idx P r idx))) b pos h d) n.
Proof.
  intros Hr. induction n as [|n IH]; [reflexivity|].
  rewrite ring_bwd_states_S. cbn [Rsum].
  destruct (@ring_bwd_local n r b pos h d Hr) as [Hq _]. cbv zeta in Hq.
  rewrite Hq, IH. reflexivity.
Qed.

Lemma ring_bwd_dkv_sum (n r b pos h d : nat) :
  r < P ->
  at4 (rb_dk (states n r)) b pos h d
  = Rsum (fun i => at4 (g_dk (pair (ring_k_block_idx P r (n - i))
                                (ring_k_block_idx P r n))) b pos h d) n
  /\ at4 (rb_dv (states n r)) b pos h d
     = Rsum (fun i => at4 (g_dv (pair (ring_k_block_idx P r (n - i))
                                   (ring_k_block_idx P r n))) b pos h d) n.
Proof.
  revert r. induction n as [|n IH]; intros r Hr; [split; reflexivity|].
  rewrite ring_bwd_states_S. cbn [Rsum].
  set (r1 := ring_k_block_idx P r 1).
  assert (Hr1 : r1 < P) by (apply ring_k_block_idx_lt; assumption).
  destruct (@ring_bwd_local n r1 b pos h d Hr1) as [_ Hkv]. cbv zeta in Hkv.
  destruct (Hkv r Hr eq_refl) as [Hdk Hdv]. destruct (IH r1 Hr1) as [IHk IHv].
  unfold r1 in *. rewrite ring_k_block_idx_S in * by assumption.
  replace (S n - n) with 1 by lia.
  split.
  - rewrite Hdk, IHk. f_equal. apply Rsum_ext. intros i Hi.
    rewrite ring_k_block_idx_S by assumption. now replace (S n - i) with (S (n - i)) by lia.
  - rewrite Hdv, IHv. f_equal. apply Rsum_ext. intros i Hi.
    rewrite ring_k_block_idx_S by assumption. now replace (S n - i) with (S (n - i)) by lia.
Qed.

End RingBwd.

Lemma Rsum_ring_back (H : nat -> R) (P r : nat) :
  r < P ->
  Rsum (fun i => H (ring_k_block_idx P r (P - i))) P = Rsum H P.
Proof.
  intros Hr.
  rewrite <- (@Rsum_ring H P (ring_k_block_idx P r 1))
    by (apply ring_k_block_idx_lt; lia).
  rewrite <- (Rsum_rev (fun idx => H (ring_k_block_idx P (ring_k_block_idx P r 1) idx)) P).
  apply Rsum_ext. intros i Hi. rewrite ring_k_block_idx_S by lia.
  f_equal. f_equal. lia.
Qed.

(** In exact arithmetic: the gradients [_ring_attention_bwd] returns at a
    rank as sums over block pairs of what single calls of
    [_blockwise_attention_bwd] contribute from zero accumulators.  (The code
    accumulates in place, hop after hop; the two agree by associativity of
    real addition.) *)
Lemma ring_bwd_pair_sums (key : Type) (random_split : key -> key * key)
    (random_bernoulli : key -> R -> shape4 -> nat -> nat -> nat -> nat -> bool)
    (P : nat) (kw : blockwise_kwargs key) (res : nat -> ring_res) (g : nat -> Tensor4 R)
    (r b pos h d : nat) :
  0 < P -> r < P ->
  let out := _ring_attention_bwd random_split random_bernoulli P kw res g r in
  let pair := ring_pair_grads random_split random_bernoulli kw res g in
  at4 (g_dq out) b pos h d = Rsum (fun kb => at4 (g_dq (pair r kb)) b pos h d) P
  /\ at4 (g_dk out) b pos h d = Rsum (fun s => at4 (g_dk (pair s r)) b pos h d) P
  /\ at4 (g_dv out) b pos h d = Rsum (fun s => at4 (g_dv (pair s r)) b pos h d) P.
Proof.
  intros HP Hr out pair.
  assert (Eq : at4 (g_dq out) b pos h d
               = at4 (rb_dq (ring_bwd_states random_split random_bernoulli P kw res g P r))
                   b pos h d) by reflexivity.
  assert (Ek : at4 (g_dk out) b pos h d
               = at4 (rb_dk (ring_bwd_states random_split random_bernoulli P kw res g P r))
                   b pos h d) by reflexivity.
  assert (Ev : at4 (g_dv out) b pos h d
               = at4 (rb_dv (ring_bwd_states random_split random_bernoulli P kw res g P r))
                   b pos h d) by reflexivity.
  assert (Ehome : ring_k_block_idx P r P = r).
  { rewrite ring_k_block_idx_nat by lia. replace (r + P - P) with r by lia.
    now apply Nat.mod_small. }
  destruct (@ring_bwd_dkv_sum key random_split random_bernoulli P kw res g HP P r
              b pos h d Hr) as [Hk Hv].
  rewrite Ehome in Hk, Hv.
  split; [|split].
  - rewrite Eq, ring_bwd_dq_sum by assumption.
    apply (@Rsum_ring (fun kb => at4 (g_dq (pair r kb)) b pos h d) P r Hr).
  - rewrite Ek, Hk.
    apply (@Rsum_ring_back (fun s => at4 (g_dk (pair s r)) b pos h d) P r Hr).
  - rewrite Ev, Hv.
    apply (@Rsum_ring_back (fun s => at4 (g_dv (pair s r)) b pos h d) P r Hr).
Qed.

(** ** The residuals of a pass without mask, bias or dropout *)

Lemma row_inv_fin (st : rowstate) (s : rowsums) :
  row_inv st s -> (0 < s_exp s)%R ->
  exists mu, r_max st = Fin mu /\ r_den st = (s_exp s * exp (- mu))%R
             /\ r_num st = (s_expv s * exp (- mu))%R.
Proof.
  unfold row_inv. destruct (r_max st) as [| |mu]; intros H Hpos.
  - destruct H as (_ & _ & E & _). lra.
  - destruct H as (_ & _ & E & _). lra.
  - destruct H as (H1 & H2 & _). exists mu. auto.
Qed.

Section FwdDense.

Variable key : Type.
Variable random_split : key -> key * key.
Variable random_bernoulli : key -> R -> shape4 -> nat -> nat -> nat -> nat -> bool.
Variables q k v : Tensor4 R.
Variable kw : blockwise_kwargs key.
Variables qs ks : nat.

Hypothesis no_layout : kw_causal_layout kw = None.
Hypothesis dropout_inactive :
  dropout_on (kw_deterministic kw) (kw_attn_pdrop kw) = false.
Hypothesis qc_pos : 0 < kw_query_chunk_size kw.
Hypothesis kc_pos : 0 < kw_key_chunk_size kw.
Hypothesis k_tiles : dim1 (shape k) mod kw_key_chunk_size kw = 0.
Hypothesis k_pos : 0 < dim1 (shape k).

Let qc := kw_query_chunk_size kw.
Let kc := kw_key_chunk_size kw.
Let carry :=
  _blockwise_attention_fwd random_split random_bernoulli q k v
    (mkCarry (fun _ _ _ _ => 0%R) (fun _ _ _ => 0%R) (fun _ _ _ => NegInf))
    qs ks None kw.

(** The score of a tile entry is the dense score of the two positions. *)
Lemma fwd_entry_dense (b h qi c t j : nat) :
  fwd_entry q k (fwd_bias_fn random_split random_bernoulli q k None kw)
    qc kc qs ks b h qi c t j
  = Fin (dense_scores q k b h (qi * qc + c) (t * kc + j)).
Proof.
  unfold fwd_entry, fwd_bias_fn. rewrite no_layout.
  rewrite chunk_bias_plain by assumption. cbn [sadd]. f_equal.
  unfold dense_scores, einsum_qk, chunk_of. lra.
Qed.

(** The saved maximum is finite, and the saved numerator and denominator
    are the sums of dense attention scaled by [exp (- max)]. *)
Lemma fwd_carry_dense (b h pos d : nat) :
  exists mu,
    c_max carry b h pos = Fin mu
    /\ c_den carry b h pos
       = (Rsum (fun p => exp (dense_scores q k b h pos p)) (dim1 (shape k))
          * exp (- mu))%R
    /\ c_num carry b pos h d
       = (Rsum (fun p => exp (dense_scores q k b h pos p) * at4 v b p h d)
            (dim1 (shape k)) * exp (- mu))%R.
Proof.
  pose proof (Nat.div_mod_eq pos qc) as Epos.
  pose proof (Nat.mod_upper_bound pos qc ltac:(unfold qc; lia)) as Hc.
  pose proof (divides_mul _ _ k_tiles) as Ek. fold kc in Ek.
  set (qi := pos / qc) in *. set (c := pos mod qc) in *.
  assert (Hpos : qi * qc + c = pos) by lia.
  pose proof (@fwd_rows key random_split random_bernoulli q k v
                (mkCarry (fun _ _ _ _ => 0%R) (fun _ _ _ => 0%R) (fun _ _ _ => NegInf))
                qs ks None kw b h qi c d Hc) as Hrow.
  fold carry qc kc in Hrow. rewrite Hpos in Hrow.
  change (row_of (mkCarry (fun _ _ _ _ => 0%R) (fun _ _ _ => 0%R) (fun _ _ _ => NegInf))
            b h pos d) with (mkRow 0 0 NegInf) in Hrow.
  rewrite no_layout in Hrow. cbn [fwd_skip_block] in Hrow.
  set (x := fun t j : nat => fwd_entry _ _ _ _ _ _ _ _ _ _ _ _ _) in Hrow.
  set (vv := fun t j : nat => at4 v b (t * kc + j) h d) in Hrow.
  set (n := dim1 (shape k) / kc) in *.
  assert (Hinv : row_inv (row_fold kc (fun _ => false) x vv (mkRow 0 0 NegInf) n)
                   (fold_sums kc (fun _ => false) x vv sums_zero n)).
  { apply row_fold_inv; [exact kc_pos | | apply row_inv_init].
    intros t j _ _ _. unfold x. rewrite fwd_entry_dense. discriminate. }
  destruct (@fold_sums_weights kc (fun _ => false) x vv sums_zero n
              (fun p => exp (dense_scores q k b h pos p)) (fun p => at4 v b p h d))
    as [He Hev].
  { intros t j _ _. unfold x, vv. rewrite fwd_entry_dense, Hpos. split; reflexivity. }
  { intros t j _ _ Hf. discriminate. }
  cbn [sums_zero s_exp s_expv] in He, Hev. rewrite Rplus_0_l, Ek in He, Hev.
  destruct (@row_inv_fin _ _ Hinv) as (mu & Hm & Hd & Hn).
  { rewrite He. apply Rsum_exp_pos. exact k_pos. }
  rewrite <- Hrow in Hm, Hd, Hn. cbn [row_of r_max r_den r_num] in Hm, Hd, Hn.
  exists mu. rewrite Hm, Hd, Hn, He, Hev. auto.
Qed.

End FwdDense.

(** ** The backward pass on the residuals of the forward pass *)

Section BwdDense.

Variable key : Type.
Variable random_split : key -> key * key.
Variable random_bernoulli : key -> R -> shape4 -> nat -> nat -> nat -> nat -> bool.
Variables q k v g : Tensor4 R.
Variable kw : blockwise_kwargs key.
Variables qs ks : nat.

Hypothesis no_layout : kw_causal_layout kw = None.
Hypothesis dropout_inactive :
  dropout_on (kw_deterministic kw) (kw_attn_pdrop kw) = false.
Hypothesis qc_pos : 0 < kw_query_chunk_size kw.
Hypothesis kc_pos : 0 < kw_key_chunk_size kw.
Hypothesis k_tiles : dim1 (shape k) mod kw_key_chunk_size kw = 0.
Hypothesis k_pos : 0 < dim1 (shape k).

Let qc := kw_query_chunk_size kw.
Let kc := kw_key_chunk_size kw.
Let scale := sqrt (INR (dim3 (shape q))).
Let carry :=
  _blockwise_attention_fwd random_split random_bernoulli q k v
    (mkCarry (fun _ _ _ _ => 0%R) (fun _ _ _ => 0%R) (fun _ _ _ => NegInf))
    qs ks None kw.
Let output : tile4 := fun b pos h d => (c_num carry b pos h d / c_den carry b h pos)%R.
Let inner := bwd_inner random_split random_bernoulli q k v g output carry qs ks None kw.

(** The output saved by the forward pass is dense attention. *)
Lemma fwd_output_dense (b pos h d : nat) :
  output b pos h d = at4 (dense_attention q k v) b pos h d.
Proof.
  unfold output, carry.
  destruct (@fwd_carry_dense key random_split random_bernoulli q k v kw qs ks
              no_layout dropout_inactive qc_pos kc_pos k_tiles k_pos b h pos d)
    as (mu & _ & Hd & Hn).
  rewrite Hd, Hn. unfold dense_attention, softmax. cbn [at4].
  pose proof (Rsum_exp_pos (dense_scores q k b h pos) k_pos) as HS.
  pose proof (exp_pos (- mu)) as He.
  set (S := Rsum (fun p => exp (dense_scores q k b h pos p)) (dim1 (shape k))) in *.
  rewrite (@Rsum_ext (fun j => exp (dense_scores q k b h pos j) / S * at4 v b j h d)%R
             (fun j => exp (dense_scores q k b h pos j) * at4 v b j h d / S)%R)
    by (intros j _; unfold Rdiv; ring).
  rewrite Rsum_div. field. split; lra.
Qed.

(** The weight the backward pass recomputes from the saved maximum and
    denominator is the softmax weight. *)
Lemma bwd_weight_softmax (b h qi c t j : nat) :
  (sexp_sub (fwd_entry q k (fwd_bias_fn random_split random_bernoulli q k None kw)
               qc kc qs ks b h qi c t j)
            (c_max (carry_chunk carry qc qi) b h c)
   / c_den (carry_chunk carry qc qi) b h c)%R
  = softmax (dim1 (shape k)) (dense_scores q k b h (qi * qc + c)) (t * kc + j).
Proof.
  unfold qc, kc. rewrite fwd_entry_dense by assumption. fold qc kc.
  cbn [carry_chunk c_max c_den].
  destruct (@fwd_carry_dense key random_split random_bernoulli q k v kw qs ks
              no_layout dropout_inactive qc_pos kc_pos k_tiles k_pos b h (qi * qc + c) 0)
    as (mu & Hm & Hd & _).
  fold carry in Hm, Hd. rewrite Hm, Hd. cbn [sexp_sub]. unfold softmax.
  pose proof (Rsum_exp_pos (dense_scores q k b h (qi * qc + c)) k_pos) as HS.
  pose proof (exp_pos (- mu)) as He.
  unfold Rminus. rewrite exp_plus. field. split; lra.
Qed.

(** One step of the inner scan, in terms of positions. *)
Lemma bwd_inner_dense (qi t : nat) (dqc : tile4) (b h d : nat) :
  (forall c,
     fst (inner qi dqc t) b c h d
     = (dqc b c h d
        + Rsum (fun j => einsum_dl q k v g b h (qi * qc + c) (t * kc + j)
                         * at4 k b (t * kc + j) h d) kc / scale)%R)
  /\ (forall j,
        at4 (fst (snd (inner qi dqc t))) b j h d
        = (Rsum (fun c => at4 q b (qi * qc + c) h d
                          * einsum_dl q k v g b h (qi * qc + c) (t * kc + j)) qc
           / scale)%R)
  /\ (forall j,
        at4 (snd (snd (inner qi dqc t))) b j h d
        = Rsum (fun c => softmax (dim1 (shape k)) (dense_scores q k b h (qi * qc + c))
                           (t * kc + j)
                         * at4 g b (qi * qc + c) h d)%R qc).
Proof.
  assert (Hdl : forall c j,
            ((einsum_qk (dim3 (shape q)) (chunk_of g qc qi) (chunk_of v kc t) b h c j
              - Rsum (fun d' => chunk_of g qc qi b c h d' * output b (qi * qc + c)%nat h d')
                     (dim3 (shape q)))
             * (sexp_sub (fwd_entry q k
                            (fwd_bias_fn random_split random_bernoulli q k None kw)
                            qc kc qs ks b h qi c t j)
                         (c_max (carry_chunk carry qc qi) b h c)
                / c_den (carry_chunk carry qc qi) b h c))%R
            = einsum_dl q k v g b h (qi * qc + c) (t * kc + j)).
  { intros c j. rewrite bwd_weight_softmax. unfold einsum_dl, einsum_qk, chunk_of.
    f_equal. f_equal. apply Rsum_ext. intros d' _. now rewrite fwd_output_dense. }
  assert (Hskip : forall bs qi' t',
            bwd_skip_block (kw_causal_layout kw) qc kc bs qs ks qi' t' = false)
    by (intros; rewrite no_layout; reflexivity).
  unfold inner, bwd_inner, bwd_skip_upper_half. fold qc kc. rewrite Hskip.
  cbn [bwd_scan_kv_block fst snd at4]. fold scale.
  split; [|split].
  - intros c. f_equal. f_equal. apply Rsum_ext. intros j _.
    rewrite <- Hdl. reflexivity.
  - intros j. f_equal. apply Rsum_ext. intros c _. rewrite <- Hdl. reflexivity.
  - intros j. apply Rsum_ext. intros c _. rewrite <- bwd_weight_softmax. reflexivity.
Qed.

End BwdDense.

(** In exact arithmetic: the three gradients of a pass without mask, bias
    or dropout, in terms of positions; they are those of the untiled
    "einsum version" that the source keeps as a comment. *)
Lemma bwd_dense_closed_forms (key : Type) (random_split : key -> key * key)
    (random_bernoulli : key -> R -> shape4 -> nat -> nat -> nat -> nat -> bool)
    (q k v g : Tensor4 R) (kw : blockwise_kwargs key) (qs ks b h d qpos kpos : nat) :
  let qc := kw_query_chunk_size kw in
  let kc := kw_key_chunk_size kw in
  let scale := sqrt (INR (dim3 (shape q))) in
  let carry :=
    _blockwise_attention_fwd random_split random_bernoulli q k v
      (mkCarry (fun _ _ _ _ => 0%R) (fun _ _ _ => 0%R) (fun _ _ _ => NegInf))
      qs ks None kw in
  let output : tile4 :=
    fun b pos h d => (c_num carry b pos h d / c_den carry b h pos)%R in
  let zero : tile4 := fun _ _ _ _ => 0%R in
  let out := _blockwise_attention_bwd random_split random_bernoulli q k v g
               zero zero zero output carry qs ks None kw in
  kw_causal_layout kw = None ->
  dropout_on (kw_deterministic kw) (kw_attn_pdrop kw) = false ->
  0 < qc -> 0 < kc -> dim1 (shape q) mod qc = 0 -> dim1 (shape k) mod kc = 0 ->
  0 < dim1 (shape k) ->
  at4 (g_dq out) b qpos h d
  = (Rsum (fun p => einsum_dl q k v g b h qpos p * at4 k b p h d) (dim1 (shape k))
     / scale)%R
  /\ at4 (g_dk out) b kpos h d
     = (Rsum (fun p => at4 q b p h d * einsum_dl q k v g b h p kpos) (dim1 (shape q))
        / scale)%R
  /\ at4 (g_dv out) b kpos h d
     = Rsum (fun p => softmax (dim1 (shape k)) (dense_scores q k b h p) kpos
                      * at4 g b p h d)%R (dim1 (shape q)).
Proof.
  intros qc kc scale carry output zero out Hlay Hdrop Hqc Hkc HLq HLk Hkp.
  pose proof (divides_mul _ _ HLq) as Eq. pose proof (divides_mul _ _ HLk) as Ek.
  pose proof (fun qi t dqc =>
                @bwd_inner_dense key random_split random_bernoulli q k v g kw qs ks
                  Hlay Hdrop Hqc Hkc HLk Hkp qi t dqc b h d) as Hin.
  fold qc kc scale carry output in Hin.
  set (inner := bwd_inner random_split random_bernoulli q k v g output carry qs ks
                  None kw) in *.
  pose proof (Nat.div_mod_eq qpos qc) as Eqpos. pose proof (Nat.div_mod_eq kpos kc) as Ekpos.
  pose proof (Nat.mod_upper_bound kpos kc ltac:(lia)) as Hck.
  set (kt := kpos / kc) in *. set (ck := kpos mod kc) in *.
  set (qi := qpos / qc) in *. set (cq := qpos mod qc) in *.
  assert (Hkpos : kt * kc + ck = kpos) by lia.
  assert (Hqpos : qi * qc + cq = qpos) by lia.
  unfold out, _blockwise_attention_bwd. cbn [g_dq g_dk g_dv at4].
  fold qc kc inner kt ck qi cq.
  split; [|split].
  - unfold scan_carry.
    rewrite (@bwd_scan_dq key random_split random_bernoulli q k v g output carry qs ks
               None kw qi (dim1 (shape k) / kc) _ b cq h d).
    fold inner. unfold zero at 1. rewrite Rplus_0_l.
    rewrite (Rsum_ext _ (fun t => Rsum (fun j =>
               einsum_dl q k v g b h qpos (t * kc + j) * at4 k b (t * kc + j) h d)%R kc
               / scale)%R).
    2:{ intros t _. rewrite (proj1 (Hin qi t _)). rewrite Hqpos. lra. }
    rewrite Rsum_div.
    rewrite (Rsum_flatten (fun p => einsum_dl q k v g b h qpos p * at4 k b p h d)%R).
    now rewrite Ek.
  - match goal with |- fst (scan ?f ?i0 _) _ _ _ _ _ = _ =>
      assert (Hn : forall n,
                fst (scan f i0 n) kt b ck h d
                = (Rsum (fun p => at4 q b p h d * einsum_dl q k v g b h p kpos) (n * qc)
                   / scale)%R)
    end.
    { induction n as [|n IH]; cbn [scan fst].
      - unfold zero, Rdiv. cbn [Rsum Nat.mul]. lra.
      - rewrite IH. unfold scan_out. rewrite (proj1 (proj2 (Hin n kt _))).
        replace (S n * qc) with (n * qc + qc) by lia. rewrite Rsum_split, Hkpos.
        unfold Rdiv. rewrite Rmult_plus_distr_r. reflexivity. }
    rewrite Hn. now rewrite Eq.
  - match goal with |- snd (scan ?f ?i0 _) _ _ _ _ _ = _ =>
      assert (Hn : forall n,
                snd (scan f i0 n) kt b ck h d
                = Rsum (fun p => softmax (dim1 (shape k)) (dense_scores q k b h p) kpos
                                 * at4 g b p h d)%R (n * qc))
    end.
    { induction n as [|n IH]; cbn [scan snd].
      - reflexivity.
      - rewrite IH. unfold scan_out. rewrite (proj2 (proj2 (Hin n kt _))).
        replace (S n * qc) with (n * qc + qc) by lia. rewrite Rsum_split, Hkpos.
        reflexivity. }
    rewrite Hn. now rewrite Eq.
Qed.


(** In exact arithmetic (every float taken as the real number it stands
    for, no rounding and no overflow).  The forward and the backward pass are adjoint in the values:
    without mask, bias or dropout, for every cotangent [g] and every value
    tensor [W], pairing [g] with the output of [_blockwise_attention_fwd] on
    values [W] gives the same number as pairing the [dv] of
    [_blockwise_attention_bwd] with [W].  As the output is linear in the
    values, this says that [dv] is the gradient with respect to them. *)
Lemma bwd_dv_adjoint_of_fwd (key : Type) (random_split : key -> key * key)
    (random_bernoulli : key -> R -> shape4 -> nat -> nat -> nat -> nat -> bool)
    (q k v g W : Tensor4 R) (kw : blockwise_kwargs key) (qs ks b h d : nat) :
  let qc := kw_query_chunk_size kw in
  let kc := kw_key_chunk_size kw in
  let empty :=
    mkCarry (fun _ _ _ _ => 0%R) (fun _ _ _ => 0%R) (fun _ _ _ => NegInf) in
  let carry :=
    _blockwise_attention_fwd random_split random_bernoulli q k v empty qs ks None kw in
  let output : tile4 :=
    fun b pos h d => (c_num carry b pos h d / c_den carry b h pos)%R in
  let zero : tile4 := fun _ _ _ _ => 0%R in
  let out := _blockwise_attention_bwd random_split random_bernoulli q k v g
               zero zero zero output carry qs ks None kw in
  let carryW :=
    _blockwise_attention_fwd random_split random_bernoulli q k W empty qs ks None kw in
  kw_causal_layout kw = None ->
  dropout_on (kw_deterministic kw) (kw_attn_pdrop kw) = false ->
  0 < qc -> 0 < kc -> dim1 (shape q) mod qc = 0 -> dim1 (shape k) mod kc = 0 ->
  0 < dim1 (shape k) ->
  Rsum (fun qpos => at4 g b qpos h d
                    * (c_num carryW b qpos h d / c_den carryW b h qpos))%R
       (dim1 (shape q))
  = Rsum (fun kpos => at4 (g_dv out) b kpos h d * at4 W b kpos h d)%R (dim1 (shape k)).
Proof.
  intros qc kc empty carry output zero out carryW Hlay Hdrop Hqc Hkc HLq HLk Hkp.
  rewrite (Rsum_ext _ (fun qpos =>
             Rsum (fun kpos => at4 g b qpos h d
                               * softmax (dim1 (shape k)) (dense_scores q k b h qpos) kpos
                               * at4 W b kpos h d)%R (dim1 (shape k)))).
  2:{ intros qpos _. unfold carryW, empty.
      rewrite (@fwd_output_dense key random_split random_bernoulli q k W kw qs ks
                 Hlay Hdrop Hqc Hkc HLk Hkp b qpos h d).
      unfold dense_attention. cbn [at4]. rewrite Rmult_comm, <- Rsum_scale.
      apply Rsum_ext. intros kpos _. ring. }
  rewrite Rsum_swap. apply Rsum_ext. intros kpos _.
  destruct (@bwd_dense_closed_forms key random_split random_bernoulli q k v g kw qs ks
              b h d 0 kpos Hlay Hdrop Hqc Hkc HLq HLk Hkp) as (_ & _ & Hdv).
  fold qc kc empty carry output zero out in Hdv. rewrite Hdv.
  rewrite <- Rsum_scale. apply Rsum_ext. intros qpos _. ring.
Qed.

(** ** Key blocks can be fed one after the other *)

Lemma scan_app {C : Type} (f : C -> nat -> C) (init : C) (n m : nat) :
  scan f init (n + m) = scan (fun c i => f c (n + i)) (scan f init n) m.
Proof.
  induction m as [|m IH]; [now rewrite Nat.add_0_r|].
  rewrite Nat.add_succ_r. cbn [scan]. now rewrite IH.
Qed.

Lemma row_fold_app (kc : nat) (skip : nat -> bool) (x : nat -> nat -> score)
    (v : nat -> nat -> R) (st : rowstate) (n m : nat) :
  row_fold kc skip x v st (n + m)
  = row_fold kc (fun t => skip (n + t)) (fun t => x (n + t)) (fun t => v (n + t))
      (row_fold kc skip x v st n) m.
Proof. unfold row_fold. apply scan_app. Qed.

Lemma fwd_entry_no_bias (key : Type) (random_split : key -> key * key)
    (random_bernoulli : key -> R -> shape4 -> nat -> nat -> nat -> nat -> bool)
    (q k : Tensor4 R) (kw : blockwise_kwargs key) (qs ks b h qi c t j : nat) :
  dropout_on (kw_deterministic kw) (kw_attn_pdrop kw) = false ->
  fwd_entry q k (fwd_bias_fn random_split random_bernoulli q k None kw)
    (kw_query_chunk_size kw) (kw_key_chunk_size kw) qs ks b h qi c t j
  = sadd (Fin (dense_scores q k b h (qi * kw_query_chunk_size kw + c)
                 (t * kw_key_chunk_size kw + j)))
         (bread (_chunk_attention_bias (kw_query_chunk_size kw) (kw_key_chunk_size kw)
                   (kw_block_size kw) None true None 0%R (kw_causal_layout kw)
                   (qs + qi) (ks + t)) b h c j).
Proof.
  intros Hdrop. unfold fwd_entry, fwd_bias_fn. f_equal.
  unfold _chunk_attention_bias. rewrite Hdrop. reflexivity.
Qed.

(** X13.  Key and value blocks can be fed to [_blockwise_attention_fwd] one
    after the other: with no bias and dropout inactive, in any causal
    layout, one call on the concatenation of two key/value blocks returns
    the carry that a call on the first block followed by a call on the
    second, started from the first call's carry and with the key tile
    offset advanced by the first block's tiles, returns.  This is the step
    the ring repeats at every hop. *)
Theorem fwd_key_blocks_compose (key : Type) (random_split : key -> key * key)
    (random_bernoulli : key -> R -> shape4 -> nat -> nat -> nat -> nat -> bool)
    (q k1 v1 k2 v2 : Tensor4 R) (carry : fwd_carry) (kw : blockwise_kwargs key)
    (qs ks b h pos d : nat) :
  let qc := kw_query_chunk_size kw in
  let kc := kw_key_chunk_size kw in
  let whole := _blockwise_attention_fwd random_split random_bernoulli q
                 (concat_length k1 k2) (concat_length v1 v2) carry qs ks None kw in
  let first := _blockwise_attention_fwd random_split random_bernoulli q k1 v1
                 carry qs ks None kw in
  let both := _blockwise_attention_fwd random_split random_bernoulli q k2 v2
                first qs (ks + dim1 (shape k1) / kc) None kw in
  dropout_on (kw_deterministic kw) (kw_attn_pdrop kw) = false ->
  0 < qc -> 0 < kc ->
  dim1 (shape k1) mod kc = 0 -> dim1 (shape k2) mod kc = 0 ->
  dim1 (shape v1) = dim1 (shape k1) ->
  c_num whole b pos h d = c_num both b pos h d
  /\ c_den whole b h pos = c_den both b h pos
  /\ c_max whole b h pos = c_max both b h pos.
Proof.
  intros qc kc whole first both Hdrop Hqc Hkc H1 H2 Hv.
  pose proof (divides_mul _ _ H1) as E1. pose proof (divides_mul _ _ H2) as E2.
  pose proof (Nat.div_mod_eq pos qc) as Epos.
  pose proof (Nat.mod_upper_bound pos qc ltac:(lia)) as Hc.
  set (n1 := dim1 (shape k1) / kc) in *. set (n2 := dim1 (shape k2) / kc) in *.
  assert (Hn : dim1 (shape (concat_length k1 k2)) / kc = n1 + n2).
  { cbn [concat_length shape dim1 fst snd]. rewrite <- E1, <- E2.
    rewrite <- Nat.mul_add_distr_r. apply Nat.div_mul. lia. }
  assert (Hrow : row_of whole b h pos d = row_of both b h pos d).
  { replace pos with (pos / qc * qc + pos mod qc) by lia.
    unfold whole, both, first. unfold qc in Hc.
    rewrite !(@fwd_rows key random_split random_bernoulli) by exact Hc.
    fold qc kc. fold n1 n2. rewrite Hn. rewrite row_fold_app.
    match goal with
    | |- row_fold _ _ _ _ (row_fold ?c0 ?s ?x ?v ?st ?n) _
         = row_fold _ _ _ _ (row_fold _ ?s' ?x' ?v' _ _) _ =>
        rewrite (@row_fold_ext c0 s s' x x' v v' st n)
    end.
    - apply row_fold_ext.
      + intros t _. rewrite !fwd_skip_block_spec. now rewrite Nat.add_assoc.
      + intros t j Ht _ Hj. unfold qc, kc.
        rewrite !fwd_entry_no_bias by assumption. fold qc kc.
        rewrite Nat.add_assoc. f_equal. f_equal.
        unfold dense_scores. f_equal. apply Rsum_ext. intros d' _. f_equal.
        cbn [concat_length at4].
        destruct (Nat.ltb_spec ((n1 + t) * kc + j) (dim1 (shape k1))); [nia|].
        f_equal. nia.
      + intros t j Ht _ Hj. cbn [concat_length at4]. rewrite Hv.
        destruct (Nat.ltb_spec ((n1 + t) * kc + j) (dim1 (shape k1))); [nia|].
        f_equal. nia.
    - reflexivity.
    - intros t j Ht _ Hj. unfold qc, kc.
      rewrite !fwd_entry_no_bias by assumption. fold qc kc. f_equal. f_equal.
      unfold dense_scores. f_equal. apply Rsum_ext. intros d' _. f_equal.
      cbn [concat_length at4].
      destruct (Nat.ltb_spec (t * kc + j) (dim1 (shape k1))); [reflexivity|nia].
    - intros t j Ht _ Hj. cbn [concat_length at4]. rewrite Hv.
      destruct (Nat.ltb_spec (t * kc + j) (dim1 (shape k1))); [reflexivity|nia]. }
  unfold row_of in Hrow. injection Hrow as Hn' Hd' Hm'. auto.
Qed.

Lemma fwd_key_blocks_compose_witness :
  let x := ones4 (1, 2, 1, 1) in
  let kw := unit_kwargs (Some normal) 1 1 4 in
  let split (u : unit) := (u, u) in
  let bern (_ : unit) (_ : R) (_ : shape4) (_ _ _ _ : nat) := false in
  let carry :=
    mkCarry (fun _ _ _ _ => 0%R) (fun _ _ _ => 0%R) (fun _ _ _ => NegInf) in
  let whole := _blockwise_attention_fwd split bern x
                 (concat_length x x) (concat_length x x) carry 2 0 None kw in
  let first := _blockwise_attention_fwd split bern x x x carry 2 0 None kw in
  let both := _blockwise_attention_fwd split bern x x x first 2 (0 + 2 / 1) None kw in
  c_num whole 0 1 0 0 = c_num both 0 1 0 0
  /\ c_den whole 0 0 1 = c_den both 0 0 1
  /\ c_max whole 0 0 1 = c_max both 0 0 1.
Proof.
  intros x kw split bern carry.
  apply (@fwd_key_blocks_compose unit split bern x x x x x carry kw 2 0 0 0 1 0);
    cbn; try reflexivity; lia.
Defined.

(** ** The dropout tile read inside the ring *)

(** X14.  With dropout active, [_blockwise_attention_fwd] draws one mask of
    the local shape [(batch, heads, L, L)] from the same key at every hop,
    and [_chunk_attention_bias] cuts the tile out of it at the global tile
    offsets.  With no bias and no causal layout, for every rank but the
    first and every key block but the first both start indices are
    clamped: every pair of tiles then gets the same dropout tile, the
    bottom right corner of the mask. *)
Theorem ring_dropout_tile_clamped (m : Tensor4 bool) (L qc kc bs : nat)
    (deterministic : bool) (attn_pdrop : R) (r kb qi t : nat) :
  dropout_on deterministic attn_pdrop = true ->
  dim2 (shape m) = L -> dim3 (shape m) = L ->
  0 < qc -> 0 < kc -> L mod qc = 0 -> L mod kc = 0 -> 0 < L -> 1 <= r -> 1 <= kb ->
  _chunk_attention_bias qc kc bs None deterministic (Some m) attn_pdrop None
    (r * (L / qc) + qi) (kb * (L / kc) + t)
  = _chunk_attention_bias qc kc bs None deterministic (Some m) attn_pdrop None
      (L / qc - 1) (L / kc - 1).
Proof.
  intros Hdrop H2 H3 Hqc Hkc HLq HLk HL Hr Hkb.
  pose proof (divides_mul _ _ HLq) as Eq. pose proof (divides_mul _ _ HLk) as Ek.
  assert (Hql : qc <= L) by (destruct (L / qc); [lia | nia]).
  assert (Hkl : kc <= L) by (destruct (L / kc); [lia | nia]).
  unfold _chunk_attention_bias. rewrite Hdrop. cbn zeta.
  unfold dynamic_slice. rewrite H2, H3.
  rewrite (@clamp_start_past ((r * (L / qc) + qi) * qc) L (Nat.min L qc)) by nia.
  rewrite (@clamp_start_past ((L / qc - 1) * qc) L (Nat.min L qc)) by nia.
  rewrite (@clamp_start_past ((kb * (L / kc) + t) * kc) L (Nat.min L kc)) by nia.
  rewrite (@clamp_start_past ((L / kc - 1) * kc) L (Nat.min L kc)) by nia.
  reflexivity.
Qed.

Lemma ring_dropout_tile_clamped_witness :
  let m := mkT4 (1, 1, 4, 4) (fun _ _ i j => i =? j) in
  _chunk_attention_bias 2 2 4 None false (Some m) 1%R None (1 * (4 / 2) + 0) (1 * (4 / 2) + 0)
  = _chunk_attention_bias 2 2 4 None false (Some m) 1%R None (4 / 2 - 1) (4 / 2 - 1).
Proof.
  intros m.
  apply (@ring_dropout_tile_clamped m 4 2 2 4 false 1%R 1 1 0 0);
    try reflexivity; try lia.
  unfold dropout_on. cbn. destruct (Rlt_dec 0 1); [reflexivity | lra].
Defined.

(** ** The bias of the single-device pass *)

Lemma slice_index_broadcast (dim size off c total : nat) :
  dim = 1 \/ dim = total -> 0 < size -> off + size <= total -> c < size ->
  clamp_start off dim (Nat.min dim size) + bidx (Nat.min dim size) c = bidx dim (off + c).
Proof.
  intros Hdim Hsize Hoff Hc. unfold clamp_start, bidx.
  destruct (Nat.eqb_spec dim 1) as [E1|E1].
  - subst dim. replace (Nat.min 1 size) with 1 by lia. cbn. lia.
  - destruct Hdim as [?|Hdim]; [lia|]. subst dim.
    replace (Nat.min total size) with size by lia.
    destruct (Nat.eqb_spec size 1); lia.
Qed.

(** On a single device the tile offsets are in range, so the bias tile is
    the part of the bias that belongs to the two tiles, with NumPy
    broadcasting of axes of extent one. *)
Lemma chunk_bias_tile_of_bias (qc kc bs : nat) (B : Tensor4 R) (deterministic : bool)
    (attn_dropout : option (Tensor4 bool)) (attn_pdrop : R)
    (q_len kv_len qi t b h c j : nat) :
  dropout_on deterministic attn_pdrop = false ->
  dim2 (shape B) = 1 \/ dim2 (shape B) = q_len ->
  dim3 (shape B) = 1 \/ dim3 (shape B) = kv_len ->
  0 < qc -> 0 < kc -> qi * qc + qc <= q_len -> t * kc + kc <= kv_len ->
  c < qc -> j < kc ->
  bread (_chunk_attention_bias qc kc bs (Some B) deterministic attn_dropout attn_pdrop
           None qi t) b h c j
  = Fin (bread B b h (qi * qc + c) (t * kc + j)).
Proof.
  intros Hdrop H2 H3 Hqc Hkc Hq Hk Hc Hj.
  unfold _chunk_attention_bias. rewrite Hdrop. cbn zeta.
  unfold bread, lift_bias, dynamic_slice. cbn [shape at4 dim0 dim1 dim2 dim3 fst snd].
  f_equal. f_equal.
  - now apply slice_index_broadcast with (total := q_len).
  - now apply slice_index_broadcast with (total := kv_len).
Qed.

(** In exact arithmetic (every float taken as the real number it stands
    for, no rounding and no overflow).  On a single device the bias is read where it belongs:
    [blockwise_attn] with a bias, no causal mask and dropout inactive
    returns dense attention with the bias added to the scaled scores,
    [softmax(Q K^T / sqrt(head_dim) + bias) V], the bias being broadcast
    along its query and key axes when they have extent one. *)
Lemma blockwise_attn_bias_is_dense (key : Type) (random_split : key -> key * key)
    (random_bernoulli : key -> R -> shape4 -> nat -> nat -> nat -> nat -> bool)
    (query key_ value B : Tensor4 R) (deterministic : bool) (dropout_rng : key)
    (attn_pdrop : R) (qc kc : nat) (b pos h d : nat) :
  let q_len := dim1 (shape query) in
  let kv_len := dim1 (shape key_) in
  dropout_on deterministic attn_pdrop = false ->
  0 < qc -> 0 < kc -> q_len mod qc = 0 -> kv_len mod kc = 0 -> 0 < kv_len ->
  dim2 (shape B) = 1 \/ dim2 (shape B) = q_len ->
  dim3 (shape B) = 1 \/ dim3 (shape B) = kv_len ->
  pos < q_len ->
  at4 (blockwise_attn random_split random_bernoulli query key_ value (Some B)
         deterministic dropout_rng attn_pdrop false qc kc) b pos h d
  = Rsum (fun j =>
            softmax kv_len
              (fun j' => dense_scores query key_ b h pos j' + bread B b h pos j')%R j
            * at4 value b j h d)%R kv_len.
Proof.
  intros q_len kv_len Hdrop Hqc Hkc HLq HLk Hlen H2 H3 Hpos.
  pose proof (divides_mul _ _ HLq) as Eq. pose proof (divides_mul _ _ HLk) as Ek.
  unfold blockwise_attn. cbn [at4 shape]. fold q_len kv_len.
  set (qi := pos / qc). set (c := pos mod qc). set (dim := dim3 (shape query)).
  assert (Hc : c < qc) by (apply Nat.mod_upper_bound; lia).
  assert (Hqpos : qi * qc + c = pos)
    by (unfold qi, c; pose proof (Nat.div_mod_eq pos qc); lia).
  assert (Hqi : qi * qc + qc <= q_len).
  { assert (qi < q_len / qc) by (apply Nat.Div0.div_lt_upper_bound; lia). nia. }
  match goal with
  | |- (a_num ?S _ _ _ _ / _)%R = _ =>
      change (r_num (attn_row_of S b h c d) / r_den (attn_row_of S b h c d))%R
        with (a_num S b c h d / a_den S b c h d)%R;
      set (St := S)
  end.
  assert (Hrow : attn_row_of St b h c d = attn_row_of St b h c d) by reflexivity.
  unfold St at 2 in Hrow. rewrite attn_inner_rows in Hrow.
  change (fun t : nat => attn_skip_block false qi t) with (fun _ : nat => false) in Hrow.
  set (x := fun t j : nat => sadd _ _) in Hrow.
  set (v := fun t j : nat => at4 value b (t * kc + j) h d) in Hrow.
  set (W := fun p => exp (dense_scores query key_ b h pos p + bread B b h pos p)).
  set (num_kv := kv_len / kc) in *.
  assert (Hx : forall t j, t < num_kv -> j < kc ->
                 x t j = Fin (dense_scores query key_ b h pos (t * kc + j)
                              + bread B b h pos (t * kc + j))).
  { intros t j Ht Hj. subst x. cbn beta.
    rewrite (@chunk_bias_tile_of_bias qc kc 0 B deterministic _ attn_pdrop q_len kv_len
               qi t b h c j) by (assumption || nia).
    cbn [sadd]. f_equal. rewrite Hqpos. f_equal.
    unfold chunk_of, dense_scores. cbn [at4]. rewrite Hqpos. fold dim.
    rewrite <- Rsum_div. apply Rsum_ext. intros d' _. unfold Rdiv. ring. }
  assert (Hinv : row_inv (row_fold kc (fun _ => false) x v (mkRow 0 0 NegInf) num_kv)
                   (fold_sums kc (fun _ => false) x v sums_zero num_kv)).
  { apply row_fold_inv; [assumption | | apply row_inv_init].
    intros t j Ht _ Hj. rewrite Hx by assumption. discriminate. }
  destruct (@fold_sums_weights kc (fun _ => false) x v sums_zero num_kv W
              (fun p => at4 value b p h d)) as [He Hev].
  { intros t j Ht Hj. rewrite Hx by assumption. split; reflexivity. }
  { intros t j _ _ Hf. discriminate. }
  cbn [sums_zero s_exp s_expv] in He, Hev. rewrite Rplus_0_l, Ek in He, Hev.
  destruct (@row_inv_output _ _ Hinv) as [Hout _].
  { rewrite He. unfold W. apply Rsum_exp_pos. assumption. }
  change (attn_row_of (mkAttnCarry _ _ _) b h c d) with (mkRow 0 0 NegInf) in Hrow.
  rewrite <- Hrow in Hout. cbn [attn_row_of r_num r_den] in Hout.
  rewrite Hout, He, Hev. unfold softmax, W.
  unfold Rdiv at 1. rewrite <- Rsum_scale. apply Rsum_ext. intros j _.
  unfold Rdiv. ring.
Qed.

(** ** The chunks of the blockwise feed-forward, for any function *)

Lemma nth_error_seq0 (n b : nat) : b < n -> nth_error (seq 0 n) b = Some b.
Proof.
  intros Hb. rewrite (nth_error_nth' _ 0) by (rewrite length_seq; lia).
  now rewrite seq_nth.
Qed.

(** X16.  What [blockwise_ffn] computes for an arbitrary feed-forward
    function that keeps the shape of a chunk: step [i] of the scan applies
    the function to the strided chunk made of positions [i], [i + n],
    [i + 2 n], ... ([n] = sequence length / [chunk_size]), and entry [c] of
    its result lands at position [c * n + i] of the output, which has the
    length of the input. *)
Theorem blockwise_ffn_strided_chunks {X Y : Type}
    (remat_ffn : bool -> list (list X) -> list (list Y))
    (inputs : list (list X)) (chunk_size n : nat) (deterministic : bool)
    (b c i : nat) :
  0 < chunk_size ->
  (forall row, In row inputs -> List.length row = chunk_size * n) ->
  (forall i', i' < n ->
     List.length (remat_ffn deterministic (strided_chunk n chunk_size i' inputs))
     = List.length inputs
     /\ forall row,
          In row (remat_ffn deterministic (strided_chunk n chunk_size i' inputs)) ->
          List.length row = chunk_size) ->
  b < List.length inputs -> c < chunk_size -> i < n ->
  exists out_row chunk_row,
    nth_error (blockwise_ffn remat_ffn inputs chunk_size deterministic) b = Some out_row
    /\ List.length out_row = chunk_size * n
    /\ nth_error (remat_ffn deterministic (strided_chunk n chunk_size i inputs)) b
       = Some chunk_row
    /\ nth_error out_row (c * n + i) = nth_error chunk_row c.
Proof.
  intros Hcs Hrows Hshape Hb Hc Hi.
  assert (Hn : match inputs with [] => 0 | row :: _ => List.length row end / chunk_size
               = n).
  { destruct inputs as [|row rest]; [cbn in Hb; lia|].
    rewrite (Hrows row) by now left.
    rewrite Nat.mul_comm. apply Nat.div_mul. lia. }
  assert (Hout : forall i' c', i' < n -> c' < chunk_size ->
            exists r, nth_error (remat_ffn deterministic
                                   (strided_chunk n chunk_size i' inputs)) b = Some r
                      /\ List.length r = chunk_size).
  { intros i' c' Hi' Hc'. destruct (Hshape i' Hi') as [Hlen Hrow].
    destruct (nth_error (remat_ffn deterministic (strided_chunk n chunk_size i' inputs)) b)
      as [r|] eqn:E.
    - exists r. split; [reflexivity|]. apply Hrow. eapply nth_error_In; eassumption.
    - apply nth_error_None in E. lia. }
  destruct (@tabulate2_spec Y chunk_size n
              (fun c' i' =>
                 match nth_error (remat_ffn deterministic
                                    (strided_chunk n chunk_size i' inputs)) b with
                 | Some r => nth_error r c'
                 | None => None
                 end)) as [Hlen Hnth].
  { intros c' i' Hc' Hi'. destruct (Hout i' c' Hi' Hc') as (r & -> & Hr).
    apply nth_error_Some. lia. }
  destruct (Hout i c Hi Hc) as (chunk_row & Echunk & _).
  eexists. exists chunk_row. split; [|split; [|split]].
  - unfold blockwise_ffn. rewrite Hn, nth_error_map, nth_error_seq0 by assumption.
    cbn [option_map]. reflexivity.
  - exact Hlen.
  - exact Echunk.
  - unfold strided_chunk in *. rewrite (Hnth c i Hc Hi), Echunk. reflexivity.
Qed.

Lemma blockwise_ffn_strided_chunks_witness :
  exists out_row chunk_row,
    nth_error (blockwise_ffn reverse_chunk [[0; 1; 2; 3]] 2 true) 0 = Some out_row
    /\ List.length out_row = 2 * 2
    /\ nth_error (reverse_chunk true (strided_chunk 2 2 1 [[0; 1; 2; 3]])) 0
       = Some chunk_row
    /\ nth_error out_row (0 * 2 + 1) = nth_error chunk_row 0.
Proof.
  apply (@blockwise_ffn_strided_chunks nat nat reverse_chunk [[0; 1; 2; 3]] 2 2 true 0 0 1);
    try (cbn; lia).
  - intros row [<-|[]]. reflexivity.
  - intros [|[|i']] Hi'; try lia; (split; [reflexivity|]); intros row [<-|[]]; reflexivity.
Defined.

(** ** The token permutation only reorders *)

Lemma transpose_index_injective (rows cols : nat) :
  Finite.Injective (fun n => if n <? rows * cols then (n mod rows) * cols + n / rows
                             else n).
Proof.
  intros x y. cbn beta.
  assert (Hlt : forall n, n < rows * cols ->
            n mod rows < rows /\ n / rows < cols
            /\ n = rows * (n / rows) + n mod rows).
  { intros n Hn. assert (0 < rows) by nia. repeat split.
    - apply Nat.mod_upper_bound. lia.
    - apply Nat.Div0.div_lt_upper_bound. lia.
    - apply Nat.div_mod_eq. }
  destruct (Nat.ltb_spec x (rows * cols)) as [Hx|Hx],
           (Nat.ltb_spec y (rows * cols)) as [Hy|Hy]; intros E.
  - destruct (Hlt x Hx) as (Hx1 & Hx2 & Ex). destruct (Hlt y Hy) as (Hy1 & Hy2 & Ey).
    assert (x mod rows = y mod rows /\ x / rows = y / rows) as [E1 E2].
    { destruct (Nat.lt_trichotomy (x mod rows) (y mod rows)) as [H|[H|H]]; [nia| |nia].
      split; [assumption|]. rewrite H in E. lia. }
    rewrite Ex, Ey, E1, E2. reflexivity.
  - destruct (Hlt x Hx) as (Hx1 & Hx2 & _). nia.
  - destruct (Hlt y Hy) as (Hy1 & Hy2 & _). nia.
  - assumption.
Qed.

Lemma transpose_flat_Permutation {X : Type} (rows cols : nat) (l : list X) :
  List.length l = rows * cols -> Permutation l (transpose_flat rows cols l).
Proof.
  intros Hl. destruct (transpose_flat_spec rows cols l Hl) as [Hlen Hnth].
  apply Permutation_nth_error. split; [congruence|].
  exists (fun n => if n <? rows * cols then (n mod rows) * cols + n / rows else n).
  split; [apply transpose_index_injective|].
  intros n. destruct (Nat.ltb_spec n (rows * cols)) as [Hn|Hn].
  - assert (0 < rows) by nia.
    assert (Hr : n mod rows < rows) by (apply Nat.mod_upper_bound; lia).
    assert (Hc : n / rows < cols) by (apply Nat.Div0.div_lt_upper_bound; lia).
    pose proof (Nat.div_mod_eq n rows) as E.
    replace n with (n / rows * rows + n mod rows) at 1 by lia.
    now apply Hnth.
  - transitivity (@None X); [|symmetry]; apply nth_error_None; lia.
Qed.

Lemma Forall2_map_Permutation {X : Type} (F : list X -> list X) (rows : list (list X)) :
  (forall row, In row rows -> Permutation row (F row)) ->
  Forall2 (@Permutation X) rows (map F rows).
Proof.
  induction rows as [|row rows IH]; intros H; cbn [map]; constructor.
  - apply H. now left.
  - apply IH. intros r Hr. apply H. now right.
Qed.

(** X17.  [permute_tokens] and [unpermute_outputs] only reorder: whenever
    a call returns, for any attention type and any number of devices, the
    result has the rows of the argument, each one a permutation of the
    original row.  No token is lost or duplicated. *)
Theorem permute_only_reorders {A : Type} (attention_type : string)
    (x y : ndarray A) (num_devices : nat) :
  permute_tokens attention_type x num_devices = Some y
  \/ unpermute_outputs attention_type x num_devices = Some y ->
  match x, y with
  | Rank2 rows, Rank2 rows' => Forall2 (@Permutation A) rows rows'
  | Rank3 rows, Rank3 rows' => Forall2 (@Permutation (list A)) rows rows'
  | _, _ => False
  end.
Proof.
  assert (Hrefl : forall (X : Type) (rows : list (list X)),
            Forall2 (@Permutation X) rows rows).
  { intros X rows. induction rows; constructor; [apply Permutation_refl | assumption]. }
  unfold permute_tokens, unpermute_outputs.
  destruct (String.eqb attention_type "striped").
  - intros [H|H].
    + destruct x as [rows|rows]; cbn [rearrange_nd_dn] in H; [|discriminate].
      destruct (splits_by num_devices rows) eqn:Hs; [|discriminate].
      injection H as <-. destruct (splits_by_rows _ _ Hs) as [Hd Hrows].
      apply Forall2_map_Permutation. intros row Hin.
      apply transpose_flat_Permutation. now apply Hrows.
    + destruct x as [rows|rows]; cbn [rearrange_dnx_ndx] in H; [discriminate|].
      destruct (splits_by num_devices rows) eqn:Hs; [|discriminate].
      injection H as <-. destruct (splits_by_rows _ _ Hs) as [Hd Hrows].
      apply Forall2_map_Permutation. intros row Hin.
      apply transpose_flat_Permutation. rewrite Nat.mul_comm. now apply Hrows.
  - intros [H|H]; injection H as <-; destruct x; apply Hrefl.
Qed.

Lemma permute_only_reorders_witness :
  Forall2 (@Permutation nat) [[0; 1; 2; 3; 4; 5]] [[0; 2; 4; 1; 3; 5]].
Proof.
  apply (@permute_only_reorders nat "striped" (Rank2 [[0; 1; 2; 3; 4; 5]])
           (Rank2 [[0; 2; 4; 1; 3; 5]]) 2).
  left. reflexivity.
Defined.

(** ** Targets and masks in the training step *)

Lemma nth_error_combine {A B : Type} (a : list A) (b : list B) (n : nat) :
  nth_error (combine a b) n
  = match nth_error a n, nth_error b n with
    | Some x, Some y => Some (x, y)
    | _, _ => None
    end.
Proof.
  revert b n. induction a as [|x a IH]; intros b n.
  - destruct n; reflexivity.
  - destruct b as [|y b].
    + destruct n; cbn; [reflexivity|]. now destruct (nth_error a n).
    + destruct n; cbn; [reflexivity|]. apply IH.
Qed.

Lemma transpose_flat_combine {A B : Type} (rows cols : nat) (a : list A) (b : list B) :
  List.length a = rows * cols -> List.length b = rows * cols ->
  transpose_flat rows cols (combine a b)
  = combine (transpose_flat rows cols a) (transpose_flat rows cols b).
Proof.
  intros Ha Hb.
  assert (Hab : List.length (combine a b) = rows * cols)
    by (rewrite length_combine; lia).
  destruct (transpose_flat_spec rows cols a Ha) as [La Na].
  destruct (transpose_flat_spec rows cols b Hb) as [Lb Nb].
  destruct (transpose_flat_spec rows cols (combine a b) Hab) as [Lab Nab].
  apply nth_error_ext. intros n. rewrite nth_error_combine.
  destruct (Nat.lt_ge_cases n (rows * cols)) as [Hn|Hn].
  - assert (0 < rows) by nia.
    assert (Hr : n mod rows < rows) by (apply Nat.mod_upper_bound; lia).
    assert (Hc : n / rows < cols) by (apply Nat.Div0.div_lt_upper_bound; lia).
    pose proof (Nat.div_mod_eq n rows) as E.
    replace n with (n / rows * rows + n mod rows) by lia.
    rewrite Nab, Na, Nb by assumption. apply nth_error_combine.
  - replace (nth_error (transpose_flat rows cols a) n) with (@None A)
      by (symmetry; apply nth_error_None; lia).
    apply nth_error_None. lia.
Qed.

Lemma splits_by_zip {A B : Type} (d : nat) (t : list (list A)) (m : list (list B)) :
  Forall2 (fun a b => List.length a = List.length b) t m ->
  splits_by d (zip_rows t m) = splits_by d t /\ splits_by d m = splits_by d t.
Proof.
  intros H. unfold splits_by, zip_rows.
  assert (E : forallb (fun row => List.length row mod d =? 0)
                (map (fun p => combine (fst p) (snd p)) (combine t m))
              = forallb (fun row => List.length row mod d =? 0) t
              /\ forallb (fun row => List.length row mod d =? 0) m
                 = forallb (fun row => List.length row mod d =? 0) t).
  { induction H as [|a b t m Hab _ [IH1 IH2]]; [split; reflexivity|].
    cbn [combine map forallb fst snd]. rewrite IH1, IH2, length_combine, <- Hab.
    rewrite Nat.min_id. split; reflexivity. }
  destruct E as [E1 E2]. now rewrite E1, E2.
Qed.

(** X18.  The training step permutes targets and loss masks separately;
    the two stay aligned.  For arrays of one shape, permuting both and then
    pairing them position by position is the same as pairing them first and
    permuting the pairs, and the step raises exactly when permuting the
    pairs would. *)
Theorem train_step_targets_aligned {A B : Type} (attention_type : string)
    (target_tokens : list (list A)) (loss_masks : list (list B)) (num_devices : nat) :
  Forall2 (fun a b => List.length a = List.length b) target_tokens loss_masks ->
  permute_tokens attention_type (Rank2 (zip_rows target_tokens loss_masks)) num_devices
  = match train_step_targets attention_type (Rank2 target_tokens) (Rank2 loss_masks)
            num_devices with
    | Some (Rank2 t, Rank2 m) => Some (Rank2 (zip_rows t m))
    | _ => None
    end.
Proof.
  intros Hshape. unfold train_step_targets, permute_tokens.
  destruct (String.eqb attention_type "striped"); [|reflexivity].
  cbn [rearrange_nd_dn].
  destruct (splits_by_zip num_devices Hshape) as [E1 E2]. rewrite E1, E2.
  destruct (splits_by num_devices target_tokens) eqn:Hs; [|reflexivity].
  destruct (splits_by_rows _ _ Hs) as [Hd Ht]. destruct (splits_by_rows _ _ E2) as [_ Hmr].
  f_equal. f_equal. unfold zip_rows.
  clear E1 E2 Hs.
  induction Hshape as [|a b t m Hab Hrest IH]; [reflexivity|].
  cbn [combine map fst snd]. f_equal.
  - rewrite length_combine, <- Hab, Nat.min_id.
    apply transpose_flat_combine.
    + apply Ht. now left.
    + rewrite <- Hab. apply Ht. now left.
  - apply IH.
    + intros row Hin. apply Ht. now right.
    + intros row Hin. apply Hmr. now right.
Qed.

Lemma train_step_targets_aligned_witness :
  permute_tokens "striped" (Rank2 (zip_rows [[10; 11; 12; 13]] [[true; true; false; false]])) 2
  = match train_step_targets "striped" (Rank2 [[10; 11; 12; 13]])
            (Rank2 [[true; true; false; false]]) 2 with
    | Some (Rank2 t, Rank2 m) => Some (Rank2 (zip_rows t m))
    | _ => None
    end.
Proof.
  apply (@train_step_targets_aligned nat bool "striped" [[10; 11; 12; 13]]
           [[true; true; false; false]] 2).
  repeat constructor.
Defined.

(** ** What dropout does to a row *)

Lemma bidx_small (dim i : nat) : i < dim -> bidx dim i = i.
Proof. intros H. unfold bidx. destruct (Nat.eqb_spec dim 1); lia. Qed.

(** On a single device the dropout tile is the part of the mask that
    belongs to the two tiles: a drawn entry puts [finfo.min] on the score. *)
Lemma chunk_bias_dropout_tile (qc kc bs : nat) (m : Tensor4 bool) (deterministic : bool)
    (attn_pdrop : R) (B H q_len kv_len qi t b h c j : nat) :
  dropout_on deterministic attn_pdrop = true ->
  shape m = (B, H, q_len, kv_len) ->
  b < B -> h < H -> qi * qc + qc <= q_len -> t * kc + kc <= kv_len ->
  c < qc -> j < kc ->
  bread (_chunk_attention_bias qc kc bs None deterministic (Some m) attn_pdrop
           None qi t) b h c j
  = if at4 m b h (qi * qc + c) (t * kc + j) then FMin else Fin 0.
Proof.
  intros Hdrop Hs Hb Hh Hq Hk Hc Hj.
  unfold _chunk_attention_bias. rewrite Hdrop. cbn zeta.
  unfold bread, tile_add, dropout_penalty, dynamic_slice. rewrite Hs.
  cbn [shape at4 dim0 dim1 dim2 dim3 fst snd bshape bdim Nat.eqb].
  replace (Nat.min q_len qc) with qc by lia.
  replace (Nat.min kv_len kc) with kc by lia.
  rewrite !(@bidx_small B b), !(@bidx_small H h), !(@bidx_small qc c),
    !(@bidx_small kc j) by assumption.
  rewrite (@clamp_start_within (qi * qc) q_len qc) by lia.
  rewrite (@clamp_start_within (t * kc) kv_len kc) by lia.
  unfold bread. cbn [shape at4 dim0 dim1 dim2 dim3 fst snd].
  rewrite ?(@bidx_small B b), ?(@bidx_small H h), ?(@bidx_small qc c),
    ?(@bidx_small kc j) by assumption.
  destruct (at4 m b h (qi * qc + c) (t * kc + j)); cbn [sadd]; [reflexivity|].
  f_equal. lra.
Qed.

(** In exact arithmetic (every float taken as the real number it stands
    for, no rounding and no overflow).  Dropout in [blockwise_attn] removes keys and renormalises: with
    dropout active, no causal mask and no bias, the output at a query
    position is the softmax-weighted mean of the values over the keys whose
    mask entry was not drawn, as long as one key of the row is kept.  The
    kept weights are not rescaled by [1 / (1 - attn_pdrop)]; the mask is
    the one [jax.random.bernoulli] draws, with the first half of the split
    key, for the whole [(batch, heads, q_len, kv_len)] score matrix. *)
Lemma blockwise_attn_dropout_renormalises (key : Type)
    (random_split : key -> key * key)
    (random_bernoulli : key -> R -> shape4 -> nat -> nat -> nat -> nat -> bool)
    (query key_ value : Tensor4 R) (deterministic : bool) (dropout_rng : key)
    (attn_pdrop : R) (qc kc : nat) (b pos h d j0 : nat) :
  let batch := dim0 (shape query) in
  let q_len := dim1 (shape query) in
  let num_heads := dim2 (shape query) in
  let kv_len := dim1 (shape key_) in
  let dropped :=
    random_bernoulli (fst (random_split dropout_rng)) attn_pdrop
      (batch, num_heads, q_len, kv_len) b h pos in
  dropout_on deterministic attn_pdrop = true ->
  0 < qc -> 0 < kc -> q_len mod qc = 0 -> kv_len mod kc = 0 ->
  b < batch -> h < num_heads -> pos < q_len ->
  j0 < kv_len -> dropped j0 = false ->
  at4 (blockwise_attn random_split random_bernoulli query key_ value None
         deterministic dropout_rng attn_pdrop false qc kc) b pos h d
  = (Rsum (fun j => if dropped j then 0
                    else exp (dense_scores query key_ b h pos j) * at4 value b j h d)
          kv_len
     / Rsum (fun j => if dropped j then 0 else exp (dense_scores query key_ b h pos j))
            kv_len)%R.
Proof.
  intros batch q_len num_heads kv_len dropped Hdrop Hqc Hkc HLq HLk Hb Hh Hpos Hj0 Hkeep.
  pose proof (divides_mul _ _ HLq) as Eq. pose proof (divides_mul _ _ HLk) as Ek.
  unfold blockwise_attn. cbn [at4 shape]. fold batch q_len num_heads kv_len.
  unfold draw_attn_dropout. rewrite Hdrop.
  set (qi := pos / qc). set (c := pos mod qc). set (dim := dim3 (shape query)).
  assert (Hc : c < qc) by (apply Nat.mod_upper_bound; lia).
  assert (Hqpos : qi * qc + c = pos)
    by (unfold qi, c; pose proof (Nat.div_mod_eq pos qc); lia).
  assert (Hqi : qi * qc + qc <= q_len).
  { assert (qi < q_len / qc) by (apply Nat.Div0.div_lt_upper_bound; lia). nia. }
  match goal with
  | |- (a_num ?S _ _ _ _ / _)%R = _ => set (St := S)
  end.
  assert (Hrow : attn_row_of St b h c d = attn_row_of St b h c d) by reflexivity.
  unfold St at 2 in Hrow. rewrite attn_inner_rows in Hrow.
  change (fun t : nat => attn_skip_block false qi t) with (fun _ : nat => false) in Hrow.
  set (x := fun t j : nat => sadd _ _) in Hrow.
  set (v := fun t j : nat => at4 value b (t * kc + j) h d) in Hrow.
  set (W := fun p => if dropped p then 0%R else exp (dense_scores query key_ b h pos p)).
  set (num_kv := kv_len / kc) in *.
  assert (Hx : forall t j, t < num_kv -> j < kc ->
                 x t j = if dropped (t * kc + j) then FMin
                         else Fin (dense_scores query key_ b h pos (t * kc + j))).
  { intros t j Ht Hj. subst x. cbn beta.
    rewrite (@chunk_bias_dropout_tile qc kc 0 _ deterministic attn_pdrop
               batch num_heads q_len kv_len qi t b h c j)
      by (assumption || reflexivity || nia).
    cbn [at4]. rewrite Hqpos. fold dropped.
    destruct (dropped (t * kc + j)); cbn [sadd]; [reflexivity|].
    f_equal. unfold chunk_of, dense_scores. cbn [at4]. rewrite Hqpos, Rplus_0_r.
    fold dim. rewrite <- Rsum_div. apply Rsum_ext. intros d' _. unfold Rdiv. ring. }
  assert (Hinv : row_inv (row_fold kc (fun _ => false) x v (mkRow 0 0 NegInf) num_kv)
                   (fold_sums kc (fun _ => false) x v sums_zero num_kv)).
  { apply row_fold_inv; [assumption | | apply row_inv_init].
    intros t j Ht _ Hj. rewrite Hx by assumption.
    destruct (dropped (t * kc + j)); discriminate. }
  destruct (@fold_sums_weights kc (fun _ => false) x v sums_zero num_kv W
              (fun p => at4 value b p h d)) as [He Hev].
  { intros t j Ht Hj. rewrite Hx by assumption. unfold W.
    destruct (dropped (t * kc + j)); split; reflexivity. }
  { intros t j _ _ Hf. discriminate. }
  cbn [sums_zero s_exp s_expv] in He, Hev. rewrite Rplus_0_l, Ek in He, Hev.
  destruct (@row_inv_output _ _ Hinv) as [Hout _].
  { rewrite He. apply Rsum_pos with (j := j0); [|assumption|].
    - intros p _. unfold W. destruct (dropped p); [lra | left; apply exp_pos].
    - unfold W. rewrite Hkeep. apply exp_pos. }
  change (attn_row_of (mkAttnCarry _ _ _) b h c d) with (mkRow 0 0 NegInf) in Hrow.
  rewrite <- Hrow in Hout. cbn [attn_row_of r_num r_den] in Hout.
  rewrite Hout, He, Hev. f_equal. apply Rsum_ext. intros j _. unfold W.
  destruct (dropped j); lra.
Qed.

(** ** The backward pass on given statistics *)

Section BwdStats.

Variable key : Type.
Variable random_split : key -> key * key.
Variable random_bernoulli : key -> R -> shape4 -> nat -> nat -> nat -> nat -> bool.
Variables q k v g : Tensor4 R.
Variable output : tile4.
Variable carry : fwd_carry.
Variables qs ks : nat.
Variable bias : option (Tensor4 R).
Variable kw : blockwise_kwargs key.
Variables (b h : nat).

(** The score of a local query position against a local key position, and
    the sum of [exp] of the scores of a query position over all keys the
    statistics were accumulated on. *)
Variable score : nat -> nat -> R.
Variable S : nat -> R.

Let qc := kw_query_chunk_size kw.
Let kc := kw_key_chunk_size kw.
Let scale := sqrt (INR (dim3 (shape q))).
Let q_len := dim1 (shape q).
Let kv_len := dim1 (shape k).

Hypothesis no_layout : kw_causal_layout kw = None.
Hypothesis qc_pos : 0 < qc.
Hypothesis kc_pos : 0 < kc.
Hypothesis q_tiles : q_len mod qc = 0.
Hypothesis k_tiles : kv_len mod kc = 0.
Hypothesis entries :
  forall qi c t j, c < qc -> j < kc -> qi * qc + c < q_len -> t * kc + j < kv_len ->
    fwd_entry q k (fwd_bias_fn random_split random_bernoulli q k bias kw)
      qc kc qs ks b h qi c t j
    = Fin (score (qi * qc + c) (t * kc + j)).
Hypothesis stats :
  forall pos, pos < q_len ->
    exists m, c_max carry b h pos = Fin m
              /\ c_den carry b h pos = (S pos * exp (- m))%R /\ (0 < S pos)%R.

Let weight (qpos kpos : nat) : R := (exp (score qpos kpos) / S qpos)%R.
Let dl (qpos kpos : nat) : R :=
  ((Rsum (fun d => at4 g b qpos h d * at4 v b kpos h d) (dim3 (shape q))
    - Rsum (fun d => at4 g b qpos h d * output b qpos h d) (dim3 (shape q)))
   * weight qpos kpos)%R.
Let inner := bwd_inner random_split random_bernoulli q k v g output carry qs ks bias kw.

Lemma bwd_stats_weight (qi c t j : nat) :
  c < qc -> j < kc -> qi * qc + c < q_len -> t * kc + j < kv_len ->
  (sexp_sub (fwd_entry q k (fwd_bias_fn random_split random_bernoulli q k bias kw)
               qc kc qs ks b h qi c t j)
            (c_max (carry_chunk carry qc qi) b h c)
   / c_den (carry_chunk carry qc qi) b h c)%R
  = weight (qi * qc + c) (t * kc + j).
Proof.
  intros Hc Hj Hq Hk. rewrite entries by assumption.
  cbn [carry_chunk c_max c_den].
  destruct (stats Hq) as (m & Hm & Hd & HS). rewrite Hm, Hd. cbn [sexp_sub].
  unfold weight. pose proof (exp_pos (- m)) as He.
  unfold Rminus. rewrite exp_plus. field. split; lra.
Qed.

Lemma bwd_stats_inner (qi t : nat) (dqc : tile4) (d : nat) :
  qi < q_len / qc -> t < kv_len / kc ->
  (forall c, c < qc ->
     fst (inner qi dqc t) b c h d
     = (dqc b c h d
        + Rsum (fun j => dl (qi * qc + c) (t * kc + j) * at4 k b (t * kc + j) h d) kc
          / scale)%R)
  /\ (forall j, j < kc ->
        at4 (fst (snd (inner qi dqc t))) b j h d
        = (Rsum (fun c => at4 q b (qi * qc + c) h d * dl (qi * qc + c) (t * kc + j)) qc
           / scale)%R)
  /\ (forall j, j < kc ->
        at4 (snd (snd (inner qi dqc t))) b j h d
        = Rsum (fun c => weight (qi * qc + c) (t * kc + j) * at4 g b (qi * qc + c) h d)%R
               qc).
Proof.
  intros Hqi Ht.
  pose proof (divides_mul _ _ q_tiles) as Eq. pose proof (divides_mul _ _ k_tiles) as Ek.
  assert (Hqb : forall c, c < qc -> qi * qc + c < q_len) by (intros; nia).
  assert (Hkb : forall j, j < kc -> t * kc + j < kv_len) by (intros; nia).
  assert (Hdl : forall c j, c < qc -> j < kc ->
            ((einsum_qk (dim3 (shape q)) (chunk_of g qc qi) (chunk_of v kc t) b h c j
              - Rsum (fun d' => chunk_of g qc qi b c h d' * output b (qi * qc + c)%nat h d')
                     (dim3 (shape q)))
             * (sexp_sub (fwd_entry q k
                            (fwd_bias_fn random_split random_bernoulli q k bias kw)
                            qc kc qs ks b h qi c t j)
                         (c_max (carry_chunk carry qc qi) b h c)
                / c_den (carry_chunk carry qc qi) b h c))%R
            = dl (qi * qc + c) (t * kc + j)).
  { intros c j Hc Hj. rewrite bwd_stats_weight by auto. reflexivity. }
  assert (Hskip : forall bs qi' t',
            bwd_skip_block (kw_causal_layout kw) qc kc bs qs ks qi' t' = false)
    by (intros; rewrite no_layout; reflexivity).
  unfold inner, bwd_inner, bwd_skip_upper_half. fold qc kc. rewrite Hskip.
  cbn [bwd_scan_kv_block fst snd at4]. fold scale.
  split; [|split].
  - intros c Hc. f_equal. f_equal. apply Rsum_ext. intros j Hj.
    rewrite <- Hdl by assumption. reflexivity.
  - intros j Hj. f_equal. apply Rsum_ext. intros c Hc.
    rewrite <- Hdl by assumption. reflexivity.
  - intros j Hj. apply Rsum_ext. intros c Hc.
    rewrite <- bwd_stats_weight by auto. reflexivity.
Qed.

(** The three gradients of one call, from zero accumulators. *)
Lemma bwd_stats_closed_forms (qpos kpos d : nat) :
  let zero : tile4 := fun _ _ _ _ => 0%R in
  let out := _blockwise_attention_bwd random_split random_bernoulli q k v g
               zero zero zero output carry qs ks bias kw in
  (qpos < q_len ->
   at4 (g_dq out) b qpos h d
   = (Rsum (fun p => dl qpos p * at4 k b p h d) kv_len / scale)%R)
  /\ (kpos < kv_len ->
      at4 (g_dk out) b kpos h d
      = (Rsum (fun p => at4 q b p h d * dl p kpos) q_len / scale)%R
      /\ at4 (g_dv out) b kpos h d
         = Rsum (fun p => weight p kpos * at4 g b p h d)%R q_len).
Proof.
  intros zero out.
  pose proof (divides_mul _ _ q_tiles) as Eq. pose proof (divides_mul _ _ k_tiles) as Ek.
  unfold out, _blockwise_attention_bwd. cbn [g_dq g_dk g_dv at4].
  fold qc kc q_len kv_len inner.
  split.
  - intros Hq.
    pose proof (Nat.div_mod_eq qpos qc) as Eqpos.
    pose proof (Nat.mod_upper_bound qpos qc ltac:(lia)) as Hcq.
    set (qi := qpos / qc) in *. set (cq := qpos mod qc) in *.
    assert (Hqpos : qi * qc + cq = qpos) by lia.
    assert (Hqi : qi < q_len / qc) by (apply Nat.Div0.div_lt_upper_bound; lia).
    unfold scan_carry.
    rewrite (@bwd_scan_dq key random_split random_bernoulli q k v g output carry qs ks
               bias kw qi (kv_len / kc) _ b cq h d).
    fold inner. unfold zero at 1. rewrite Rplus_0_l.
    rewrite (Rsum_ext _ (fun t => Rsum (fun j =>
               dl qpos (t * kc + j) * at4 k b (t * kc + j) h d)%R kc / scale)%R).
    2:{ intros t Ht. rewrite (proj1 (bwd_stats_inner _ d Hqi Ht) cq Hcq).
        rewrite Hqpos. lra. }
    rewrite Rsum_div.
    rewrite (Rsum_flatten (fun p => dl qpos p * at4 k b p h d)%R).
    now rewrite Ek.
  - intros Hk.
    pose proof (Nat.div_mod_eq kpos kc) as Ekpos.
    pose proof (Nat.mod_upper_bound kpos kc ltac:(lia)) as Hck.
    set (kt := kpos / kc) in *. set (ck := kpos mod kc) in *.
    assert (Hkpos : kt * kc + ck = kpos) by lia.
    assert (Hkt : kt < kv_len / kc) by (apply Nat.Div0.div_lt_upper_bound; lia).
    split.
    + match goal with |- fst (scan ?f ?i0 _) _ _ _ _ _ = _ =>
        assert (Hn : forall n, n <= q_len / qc ->
                  fst (scan f i0 n) kt b ck h d
                  = (Rsum (fun p => at4 q b p h d * dl p kpos) (n * qc) / scale)%R)
      end.
      { induction n as [|n IH]; intros Hle; cbn [scan fst].
        - unfold zero, Rdiv. cbn [Rsum Nat.mul]. lra.
        - rewrite IH by lia. unfold scan_out.
          rewrite (proj1 (proj2 (@bwd_stats_inner n kt _ d ltac:(lia) Hkt)) ck Hck).
          replace (Datatypes.S n * qc) with (n * qc + qc) by lia.
          rewrite Rsum_split, Hkpos. unfold Rdiv. rewrite Rmult_plus_distr_r.
          reflexivity. }
      rewrite Hn by lia. now rewrite Eq.
    + match goal with |- snd (scan ?f ?i0 _) _ _ _ _ _ = _ =>
        assert (Hn : forall n, n <= q_len / qc ->
                  snd (scan f i0 n) kt b ck h d
                  = Rsum (fun p => weight p kpos * at4 g b p h d)%R (n * qc))
      end.
      { induction n as [|n IH]; intros Hle; cbn [scan snd].
        - reflexivity.
        - rewrite IH by lia. unfold scan_out.
          rewrite (proj2 (proj2 (@bwd_stats_inner n kt _ d ltac:(lia) Hkt)) ck Hck).
          replace (Datatypes.S n * qc) with (n * qc + qc) by lia.
          rewrite Rsum_split, Hkpos. reflexivity. }
      rewrite Hn by lia. now rewrite Eq.
Qed.

End BwdStats.

(** ** The ring backward pass on the residuals of the ring forward pass *)

Section RingBwdDense.

Variable key : Type.
Variable random_split : key -> key * key.
Variable random_bernoulli : key -> R -> shape4 -> nat -> nat -> nat -> nat -> bool.
Variables (P L qc kc : nat).
Variables Q K V G : Tensor4 R.
Variables (deterministic : bool) (dropout_rng : key) (attn_pdrop : R).

Hypothesis P_pos : 0 < P.
Hypothesis qc_pos : 0 < qc.
Hypothesis kc_pos : 0 < kc.
Hypothesis L_qc : L mod qc = 0.
Hypothesis L_kc : L mod kc = 0.
Hypothesis dropout_inactive : dropout_on deterministic attn_pdrop = false.
Hypothesis K_len : dim1 (shape K) = P * L.

Let kw := mkKwargs None qc kc L deterministic dropout_rng attn_pdrop.
Let q (r : nat) := shard Q L r.
Let k (r : nat) := shard K L r.
Let v (r : nat) := shard V L r.
Let g (r : nat) := shard G L r.
Let attn_bias (_ : nat) := zeros4 (dim0 (shape Q), dim2 (shape Q), L, P * L).
Let res := ring_residuals random_split random_bernoulli P q k v attn_bias kw.

Variables (b h : nat).

Let Sg (gpos : nat) : R := Rsum (fun p => exp (dense_scores Q K b h gpos p)) (P * L).

(** The statistics a rank saves are those of the whole key sequence. *)
Lemma ring_res_stats (s i : nat) :
  s < P -> i < L ->
  exists m, c_max (res_carry (res s)) b h i = Fin m
            /\ c_den (res_carry (res s)) b h i = (Sg (s * L + i) * exp (- m))%R
            /\ (0 < Sg (s * L + i))%R.
Proof.
  intros Hs Hi.
  pose proof (Nat.div_mod_eq i qc) as Ei.
  pose proof (Nat.mod_upper_bound i qc ltac:(lia)) as Hc.
  pose proof (@ring_rows key random_split random_bernoulli P q k v attn_bias kw P_pos
                s b h (i / qc) (i mod qc) 0 P Hs Hc) as Hrow.
  change (kw_query_chunk_size kw) with qc in Hrow.
  replace (i / qc * qc + i mod qc) with i in Hrow by lia.
  pose proof (@ring_row_inv key random_split random_bernoulli P q k v attn_bias kw
                s b h (i / qc) (i mod qc) 0 dropout_inactive kc_pos P) as Hinv.
  destruct (@ring_sums_hops key random_split random_bernoulli P L qc kc Q K V None
              deterministic dropout_rng attn_pdrop P_pos qc_pos kc_pos L_qc L_kc
              dropout_inactive s b h i 0 Hs Hi P) as [He _].
  cbn zeta in He. cbn [ring_visible] in He.
  rewrite (Rsum_ring (fun kb => Rsum (fun p =>
             exp (dense_scores Q K b h (s * L + i) (kb * L + p))) L) Hs) in He.
  rewrite (Rsum_flatten (fun gp => exp (dense_scores Q K b h (s * L + i) gp))) in He.
  fold kw q k v attn_bias in He.
  assert (HS : (0 < Sg (s * L + i))%R) by (apply Rsum_exp_pos; nia).
  destruct (@row_inv_fin _ _ Hinv) as (m & Hm & Hd & _).
  { rewrite He. exact HS. }
  rewrite <- Hrow in Hm, Hd. cbn [row_of r_max r_den] in Hm, Hd.
  exists m. split; [exact Hm|]. split; [|exact HS].
  unfold Sg. rewrite <- He. exact Hd.
Qed.

(** The output a rank saves is dense attention over the whole sequence. *)
Lemma ring_res_output (s i d : nat) :
  s < P -> i < L ->
  at4 (res_output (res s)) b i h d = at4 (dense_attention Q K V) b (s * L + i) h d.
Proof.
  intros Hs Hi.
  exact (@ring_none_dense key random_split random_bernoulli P L qc kc Q K V
           deterministic dropout_rng attn_pdrop P_pos qc_pos kc_pos L_qc L_kc
           dropout_inactive K_len s b h i d Hs Hi).
Qed.

(** The score a pair of blocks computes is the dense score of the two
    global positions. *)
Lemma ring_pair_entry (s kb qi c t j : nat) :
  c < qc -> j < kc -> qi * qc + c < L -> t * kc + j < L ->
  fwd_entry (q s) (k kb)
    (fwd_bias_fn random_split random_bernoulli (q s) (k kb)
       (Some (dynamic_slice_in_dim (attn_bias s) (kb * L) L)) kw)
    qc kc (s * (L / qc)) (kb * (L / kc)) b h qi c t j
  = Fin (dense_scores Q K b h (s * L + (qi * qc + c)) (kb * L + (t * kc + j))).
Proof.
  intros Hc Hj Hq Hk.
  pose proof (divides_mul _ _ L_qc) as Eq. pose proof (divides_mul _ _ L_kc) as Ek.
  assert (Hql : qc <= L) by (destruct (L / qc); [lia | nia]).
  assert (Hkl : kc <= L) by (destruct (L / kc); [lia | nia]).
  unfold fwd_entry, fwd_bias_fn.
  cbn [kw_query_chunk_size kw_key_chunk_size kw_block_size kw_deterministic
       kw_attn_pdrop kw_causal_layout kw].
  rewrite chunk_bias_zero; try assumption.
  - cbn [sadd]. f_equal. unfold dense_scores, einsum_qk, chunk_of, q, k, shard.
    cbn [at4 shape dim3 snd]. lra.
  - intros. reflexivity.
  - right. cbn. lia.
  - right. cbn. lia.
Qed.

Let scale := sqrt (INR (dim3 (shape Q))).

(** What one pair of blocks contributes, in terms of global positions. *)
Lemma ring_pair_closed_forms (s kb qpos kpos d : nat) :
  s < P -> kb < P ->
  let pair := ring_pair_grads random_split random_bernoulli kw res g s kb in
  (qpos < L ->
   at4 (g_dq pair) b qpos h d
   = (Rsum (fun p => einsum_dl Q K V G b h (s * L + qpos) (kb * L + p)
                     * at4 K b (kb * L + p) h d) L / scale)%R)
  /\ (kpos < L ->
      at4 (g_dk pair) b kpos h d
      = (Rsum (fun p => at4 Q b (s * L + p) h d
                        * einsum_dl Q K V G b h (s * L + p) (kb * L + kpos)) L
         / scale)%R
      /\ at4 (g_dv pair) b kpos h d
         = Rsum (fun p => softmax (P * L) (dense_scores Q K b h (s * L + p))
                            (kb * L + kpos)
                          * at4 G b (s * L + p) h d)%R L).
Proof.
  intros Hs Hkb pair.
  pose proof (@bwd_stats_closed_forms key random_split random_bernoulli
                (q s) (k kb) (v kb) (g s) (at4 (res_output (res s)))
                (res_carry (res s)) (s * (L / qc)) (kb * (L / kc))
                (Some (dynamic_slice_in_dim (attn_bias s) (kb * L) L)) kw b h
                (fun qp kp => dense_scores Q K b h (s * L + qp) (kb * L + kp))
                (fun pos => Sg (s * L + pos))
                eq_refl qc_pos kc_pos L_qc L_kc
                (fun qi c t j Hc Hj Hq Hk => @ring_pair_entry s kb qi c t j Hc Hj Hq Hk)
                (fun pos Hpos => @ring_res_stats s pos Hs Hpos)
                qpos kpos d) as H.
  cbv zeta in H. destruct H as [Hq Hkv].
  assert (Hdl : forall qp kp, qp < L ->
            ((Rsum (fun d0 => at4 (g s) b qp h d0 * at4 (v kb) b kp h d0)
                   (dim3 (shape (q s)))
              - Rsum (fun d0 => at4 (g s) b qp h d0 * at4 (res_output (res s)) b qp h d0)
                     (dim3 (shape (q s))))
             * (exp (dense_scores Q K b h (s * L + qp) (kb * L + kp))
                / Sg (s * L + qp)))%R
            = einsum_dl Q K V G b h (s * L + qp) (kb * L + kp)).
  { intros qp kp Hqp. unfold einsum_dl, softmax. rewrite K_len. fold (Sg (s * L + qp)).
    f_equal. f_equal. apply Rsum_ext. intros d0 _.
    rewrite ring_res_output by assumption. reflexivity. }
  split.
  - intros Hlt. etransitivity; [exact (Hq Hlt)|].
    f_equal. apply Rsum_ext. intros p _. rewrite Hdl by assumption. reflexivity.
  - intros Hlt. destruct (Hkv Hlt) as [Hdk Hdv]. split.
    + etransitivity; [exact Hdk|].
      f_equal. apply Rsum_ext. intros p Hp. rewrite Hdl by assumption. reflexivity.
    + etransitivity; [exact Hdv|].
      apply Rsum_ext. intros p Hp. unfold softmax. reflexivity.
Qed.

(** In exact arithmetic: the gradients of a rank, in terms of global
    positions. *)
Lemma ring_bwd_dense_closed_forms (r i d : nat) :
  r < P -> i < L ->
  let out := _ring_attention_bwd random_split random_bernoulli P kw res g r in
  at4 (g_dq out) b i h d
  = (Rsum (fun p => einsum_dl Q K V G b h (r * L + i) p * at4 K b p h d) (P * L)
     / scale)%R
  /\ at4 (g_dk out) b i h d
     = (Rsum (fun p => at4 Q b p h d * einsum_dl Q K V G b h p (r * L + i)) (P * L)
        / scale)%R
  /\ at4 (g_dv out) b i h d
     = Rsum (fun p => softmax (P * L) (dense_scores Q K b h p) (r * L + i)
                      * at4 G b p h d)%R (P * L).
Proof.
  intros Hr Hi out.
  destruct (@ring_bwd_pair_sums key random_split random_bernoulli P kw res g r b i h d
              P_pos Hr) as (Hq & Hk & Hv).
  split; [|split].
  - etransitivity; [exact Hq|].
    rewrite (Rsum_ext _ (fun kb => Rsum (fun p =>
               einsum_dl Q K V G b h (r * L + i) (kb * L + p)
               * at4 K b (kb * L + p) h d)%R L / scale)%R).
    2:{ intros kb Hkb. exact (proj1 (@ring_pair_closed_forms r kb i 0 d Hr Hkb) Hi). }
    rewrite Rsum_div.
    now rewrite (Rsum_flatten (fun p => einsum_dl Q K V G b h (r * L + i) p
                                        * at4 K b p h d)%R).
  - etransitivity; [exact Hk|].
    rewrite (Rsum_ext _ (fun s => Rsum (fun p =>
               at4 Q b (s * L + p) h d
               * einsum_dl Q K V G b h (s * L + p) (r * L + i))%R L / scale)%R).
    2:{ intros s Hs.
        exact (proj1 (proj2 (@ring_pair_closed_forms s r 0 i d Hs Hr) Hi)). }
    rewrite Rsum_div.
    now rewrite (Rsum_flatten (fun p => at4 Q b p h d
                                        * einsum_dl Q K V G b h p (r * L + i))%R).
  - etransitivity; [exact Hv|].
    rewrite (Rsum_ext _ (fun s => Rsum (fun p =>
               softmax (P * L) (dense_scores Q K b h (s * L + p)) (r * L + i)
               * at4 G b (s * L + p) h d)%R L)).
    2:{ intros s Hs.
        exact (proj2 (proj2 (@ring_pair_closed_forms s r 0 i d Hs Hr) Hi)). }
    now rewrite (Rsum_flatten (fun p => softmax (P * L) (dense_scores Q K b h p)
                                          (r * L + i) * at4 G b p h d)%R).
Qed.

End RingBwdDense.


(** ** Later tiles are never read *)

(** X1.  [blockwise_attn] with [causal = True], with or without a bias,
    dropout active or not: the output of a query in query tile
    [pos / qc] does not change when the keys and values of the key tiles
    after that tile (positions from [(pos / qc + 1) * kc] on) are replaced.
    The scan skips those tiles, so the two runs perform the same
    operations on the same numbers. *)
Theorem blockwise_attn_ignores_later_tiles (key : Type)
    (random_split : key -> key * key)
    (random_bernoulli : key -> R -> shape4 -> nat -> nat -> nat -> nat -> bool)
    (Q K K' V V' : Tensor4 R) (bias : option (Tensor4 R)) (deterministic : bool)
    (dropout_rng : key) (attn_pdrop : R) (qc kc : nat) (b pos h d : nat) :
  dim1 (shape K) = dim1 (shape K') ->
  (forall j d', j < (pos / qc + 1) * kc -> at4 K b j h d' = at4 K' b j h d') ->
  (forall j, j < (pos / qc + 1) * kc -> at4 V b j h d = at4 V' b j h d) ->
  at4 (blockwise_attn random_split random_bernoulli Q K V bias deterministic
         dropout_rng attn_pdrop true qc kc) b pos h d
  = at4 (blockwise_attn random_split random_bernoulli Q K' V' bias deterministic
           dropout_rng attn_pdrop true qc kc) b pos h d.
Proof.
  intros Hlen HK HV.
  unfold blockwise_attn. cbn [at4 shape]. rewrite <- Hlen.
  set (qi := pos / qc). set (c := pos mod qc).
  match goal with
  | |- (a_num ?S _ _ _ _ / _ = a_num ?S' _ _ _ _ / _)%R =>
      change (r_num (attn_row_of S b h c d) / r_den (attn_row_of S b h c d)
              = r_num (attn_row_of S' b h c d) / r_den (attn_row_of S' b h c d))%R;
      assert (E : attn_row_of S b h c d = attn_row_of S' b h c d)
  end.
  { rewrite !attn_inner_rows. apply row_fold_ext.
    - intros t _. reflexivity.
    - intros t j _ Hs Hj. unfold attn_skip_block in Hs. apply Nat.ltb_ge in Hs.
      f_equal. f_equal. apply Rsum_ext. intros d' _. rewrite HK; [reflexivity|].
      fold qi. nia.
    - intros t j _ Hs Hj. unfold attn_skip_block in Hs. apply Nat.ltb_ge in Hs.
      apply HV. fold qi. nia. }
  now rewrite E.
Qed.

Lemma blockwise_attn_ignores_later_tiles_witness :
  let x := ones4 (1, 4, 1, 1) in
  at4 (blockwise_attn (fun u : unit => (u, u)) (fun _ _ _ _ _ _ _ => false)
         x x x None true tt 0%R true 2 1) 0 1 0 0
  = at4 (blockwise_attn (fun u : unit => (u, u)) (fun _ _ _ _ _ _ _ => false)
           x (mkT4 (1, 4, 1, 1) (fun b j h d => if j =? 3 then 0%R else 1%R))
           (mkT4 (1, 4, 1, 1) (fun b j h d => if j =? 3 then 5%R else 1%R))
           None true tt 0%R true 2 1) 0 1 0 0.
Proof.
  intros x.
  apply (@blockwise_attn_ignores_later_tiles unit (fun u => (u, u))
           (fun _ _ _ _ _ _ _ => false) x x
           (mkT4 (1, 4, 1, 1) (fun b j h d => if j =? 3 then 0%R else 1%R)) x
           (mkT4 (1, 4, 1, 1) (fun b j h d => if j =? 3 then 5%R else 1%R))
           None true tt 0%R 2 1 0 1 0 0).
  - reflexivity.
  - intros j d' Hj. cbn in Hj. cbn. destruct j as [|[|[|j]]]; try reflexivity; lia.
  - intros j Hj. cbn in Hj. cbn. destruct j as [|[|[|j]]]; try reflexivity; lia.
Defined.

(** X2.  The ring in the contiguous causal layout (all-zero bias, dropout
    inactive) on the shards of a whole sequence: the output of rank [r] at
    local position [i] does not change when keys and values are replaced in
    the key tiles that start at or after the end
    [r * L + (i / qc + 1) * qc] of the query's tile, whichever rank holds
    them.  Every hop skips those tiles, so the two runs perform the same
    operations on the same numbers. *)
Theorem ring_ignores_later_tiles (key : Type) (random_split : key -> key * key)
    (random_bernoulli : key -> R -> shape4 -> nat -> nat -> nat -> nat -> bool)
    (P L qc kc : nat) (Q K K' V V' : Tensor4 R)
    (deterministic : bool) (dropout_rng : key) (attn_pdrop : R) (r b h i d : nat) :
  0 < P -> 0 < qc -> 0 < kc -> L mod qc = 0 -> L mod kc = 0 ->
  dropout_on deterministic attn_pdrop = false ->
  r < P -> i < L ->
  (forall p d', p / kc * kc < r * L + (i / qc + 1) * qc ->
     at4 K b p h d' = at4 K' b p h d') ->
  (forall p, p / kc * kc < r * L + (i / qc + 1) * qc ->
     at4 V b p h d = at4 V' b p h d) ->
  at4 (ring_on_shards random_split random_bernoulli P L Q K V (Some normal) qc kc
         deterministic dropout_rng attn_pdrop r) b i h d
  = at4 (ring_on_shards random_split random_bernoulli P L Q K' V' (Some normal) qc kc
           deterministic dropout_rng attn_pdrop r) b i h d.
Proof.
  intros HP Hqc Hkc HLq HLk Hdrop Hr Hi HK HV.
  pose proof (divides_mul _ _ HLq) as ELq. pose proof (divides_mul _ _ HLk) as ELk.
  unfold ring_on_shards. rewrite !ring_output_streaming by assumption.
  f_equal. apply streaming_row_ext.
  - intros. reflexivity.
  - intros idx t j _ Ht Hj Hs.
    set (kb := ring_k_block_idx P r idx) in *.
    assert (Hp : (kb * L + (t * kc + j)) / kc * kc < r * L + (i / qc + 1) * qc).
    { unfold fwd_skip_block in Hs. apply Nat.leb_gt in Hs.
      replace (kb * L + (t * kc + j)) with ((kb * (L / kc) + t) * kc + j) by nia.
      rewrite (proj1 (div_mod_tile (kb * (L / kc) + t) Hj)). nia. }
    repeat split.
    + apply dense_scores_key_ext. intros d'. now apply HK.
    + now apply HV.
Qed.

Lemma ring_ignores_later_tiles_witness :
  let x := ones4 (1, 4, 1, 1) in
  let k' := mkT4 (1, 4, 1, 1) (fun b j h d => if j =? 3 then 0%R else 1%R) in
  let v' := mkT4 (1, 4, 1, 1) (fun b j h d => if j =? 3 then 5%R else 1%R) in
  let split (u : unit) := (u, u) in
  let bern (_ : unit) (_ : R) (_ : shape4) (_ _ _ _ : nat) := false in
  at4 (ring_on_shards split bern 2 2 x x x (Some normal) 1 1 true tt 0%R 1) 0 0 0 0
  = at4 (ring_on_shards split bern 2 2 x k' v' (Some normal) 1 1 true tt 0%R 1) 0 0 0 0.
Proof.
  intros x k' v' split bern.
  apply (@ring_ignores_later_tiles unit split bern 2 2 1 1 x x k' x v' true tt 0%R
           1 0 0 0 0); try reflexivity; try lia.
  - intros p d' Hp. rewrite Nat.div_1_r in Hp. cbn in Hp. cbn.
    destruct p as [|[|[|p]]]; try reflexivity; lia.
  - intros p Hp. rewrite Nat.div_1_r in Hp. cbn in Hp. cbn.
    destruct p as [|[|[|p]]]; try reflexivity; lia.
Defined.

(** ** The accumulators of the backward ring travel with their key block *)

Lemma ring_next_rank (P r : nat) :
  r < P -> (r + 1) mod P < P /\ ring_k_block_idx P ((r + 1) mod P) 1 = r.
Proof.
  intros Hr. split; [apply Nat.mod_upper_bound; lia|].
  rewrite ring_k_block_idx_nat by lia.
  destruct (Nat.eq_dec (r + 1) P) as [E|E].
  - rewrite E, Nat.Div0.mod_same. cbn [Nat.add]. rewrite Nat.mod_small by lia. lia.
  - rewrite (Nat.mod_small (r + 1)) by lia.
    replace (r + 1 + P - 1) with (r + 1 * P) by lia.
    rewrite Nat.Div0.mod_add. now apply Nat.mod_small.
Qed.

(** X10.  The ring in the backward pass: the key and value blocks and the
    [dk], [dv] accumulators rotate together, the [dq] accumulator stays.
    At hop [n] rank [r] holds the key and value shards of rank
    [kb = (r - n) mod P] and calls [_blockwise_attention_bwd] on its own
    query shard, cotangent and residuals, on that block, on its own [dq]
    accumulator and on the [dk], [dv] accumulators it holds, with the tile
    offsets of the pair [(r, kb)].  It keeps the [dq] the call returns and
    hands the [dk] and [dv] the call returns, together with the block, to
    rank [(r + 1) mod P].  After [P] hops every block is back on its home
    rank, and what each rank then holds is what [_ring_attention_bwd]
    returns. *)
Theorem ring_bwd_accumulators_travel (key : Type) (random_split : key -> key * key)
    (random_bernoulli : key -> R -> shape4 -> nat -> nat -> nat -> nat -> bool)
    (P : nat) (kw : blockwise_kwargs key) (res : nat -> ring_res) (g : nat -> Tensor4 R)
    (n r : nat) :
  0 < P -> r < P ->
  let states := ring_bwd_states random_split random_bernoulli P kw res g in
  let kb := ring_k_block_idx P r n in
  let q := res_q (res r) in
  let kv_len := dim1 (shape (res_k (res r))) in
  let block_size := dim1 (shape q) in
  let call :=
    _blockwise_attention_bwd random_split random_bernoulli q
      (res_k (res kb)) (res_v (res kb)) (g r)
      (at4 (rb_dq (states n r))) (at4 (rb_dk (states n r))) (at4 (rb_dv (states n r)))
      (at4 (res_output (res r))) (res_carry (res r))
      (r * (block_size / kw_query_chunk_size kw))
      (kb * (block_size / kw_key_chunk_size kw))
      (Some (dynamic_slice_in_dim (res_attn_bias (res r)) (kb * kv_len) kv_len)) kw in
  let next := (r + 1) mod P in
  let out := _ring_attention_bwd random_split random_bernoulli P kw res g r in
  (rb_k (states n r) = res_k (res kb) /\ rb_v (states n r) = res_v (res kb))
  /\ rb_dq (states (S n) r) = g_dq call
  /\ (rb_dk (states (S n) next) = g_dk call /\ rb_dv (states (S n) next) = g_dv call)
  /\ (rb_k (states (S n) next) = res_k (res kb)
      /\ rb_v (states (S n) next) = res_v (res kb))
  /\ ring_k_block_idx P r P = r
  /\ (g_dq out = rb_dq (states P r) /\ g_dk out = rb_dk (states P r)
      /\ g_dv out = rb_dv (states P r)).
Proof.
  intros HP Hr states kb q kv_len block_size call next out.
  destruct (@ring_bwd_states_kv key random_split random_bernoulli P kw res g HP n r Hr)
    as [Hk Hv].
  fold states kb in Hk, Hv.
  destruct (ring_next_rank Hr) as [Hnext Eprev]. fold next in Hnext, Eprev.
  assert (HS : states (S n)
               = ring_bwd_scan_kv_block random_split random_bernoulli P res g kw
                   (states n) n) by reflexivity.
  split; [split; assumption|]. split; [|split; [|split; [|split]]].
  - rewrite HS. unfold ring_bwd_scan_kv_block. cbn [rb_dq]. rewrite Hk, Hv.
    reflexivity.
  - rewrite HS. unfold ring_bwd_scan_kv_block. cbn [rb_dk rb_dv].
    rewrite !ppermute_ring by assumption. rewrite Eprev, Hk, Hv.
    split; reflexivity.
  - rewrite HS. unfold ring_bwd_scan_kv_block. cbn [rb_k rb_v].
    rewrite !ppermute_ring by assumption. rewrite Eprev.
    split; assumption.
  - rewrite ring_k_block_idx_nat by lia.
    replace (r + P - P) with r by lia. now apply Nat.mod_small.
  - repeat split.
Qed.

Lemma ring_bwd_accumulators_travel_witness :
  let split (u : unit) := (u, u) in
  let bern (_ : unit) (_ : R) (_ : shape4) (_ _ _ _ : nat) := false in
  let kw := mkKwargs (Some normal) 1 1 2 true tt 0%R in
  let x := ones4 (1, 2, 1, 1) in
  let res (_ : nat) :=
    mkRes x x x x (zeros4 (1, 1, 2, 4))
      (mkCarry (fun _ _ _ _ => 1%R) (fun _ _ _ => 1%R) (fun _ _ _ => Fin 0)) in
  let g (_ : nat) := x in
  let states := ring_bwd_states split bern 2 kw res g in
  let kb := ring_k_block_idx 2 1 1 in
  let call :=
    _blockwise_attention_bwd split bern x (res_k (res kb)) (res_v (res kb)) (g 1)
      (at4 (rb_dq (states 1 1))) (at4 (rb_dk (states 1 1))) (at4 (rb_dv (states 1 1)))
      (at4 (res_output (res 1))) (res_carry (res 1))
      (1 * (2 / 1)) (kb * (2 / 1))
      (Some (dynamic_slice_in_dim (res_attn_bias (res 1)) (kb * 2) 2)) kw in
  let next := (1 + 1) mod 2 in
  let out := _ring_attention_bwd split bern 2 kw res g 1 in
  (rb_k (states 1 1) = res_k (res kb) /\ rb_v (states 1 1) = res_v (res kb))
  /\ rb_dq (states 2 1) = g_dq call
  /\ (rb_dk (states 2 next) = g_dk call /\ rb_dv (states 2 next) = g_dv call)
  /\ (rb_k (states 2 next) = res_k (res kb) /\ rb_v (states 2 next) = res_v (res kb))
  /\ ring_k_block_idx 2 1 2 = 1
  /\ (g_dq out = rb_dq (states 2 1) /\ g_dk out = rb_dk (states 2 1)
      /\ g_dv out = rb_dv (states 2 1)).
Proof.
  intros split bern kw x res g.
  apply (@ring_bwd_accumulators_travel unit split bern 2 kw res g 1 1); lia.
Defined.

(** ** The single-device pass with a bias, and with dropout, row by row *)

(** X15.  On a single device the bias is read where it belongs:
    [blockwise_attn] with a bias, no causal mask and dropout inactive
    returns at every query position [numerator / denominator] of the
    streaming-softmax recurrence over all key tiles in increasing order,
    none skipped, in which the entry of the key at position [p] is the
    score [(q / sqrt(head_dim)) . k] plus the bias entry at (query position,
    [p]), the bias being broadcast along its batch, head, query and key axes
    when they have extent one. *)
Theorem blockwise_attn_reads_bias_in_place (key : Type)
    (random_split : key -> key * key)
    (random_bernoulli : key -> R -> shape4 -> nat -> nat -> nat -> nat -> bool)
    (query key_ value B : Tensor4 R) (deterministic : bool) (dropout_rng : key)
    (attn_pdrop : R) (qc kc : nat) (b pos h d : nat) :
  let q_len := dim1 (shape query) in
  let kv_len := dim1 (shape key_) in
  dropout_on deterministic attn_pdrop = false ->
  0 < qc -> 0 < kc -> q_len mod qc = 0 -> kv_len mod kc = 0 ->
  dim2 (shape B) = 1 \/ dim2 (shape B) = q_len ->
  dim3 (shape B) = 1 \/ dim3 (shape B) = kv_len ->
  pos < q_len ->
  at4 (blockwise_attn random_split random_bernoulli query key_ value (Some B)
         deterministic dropout_rng attn_pdrop false qc kc) b pos h d
  = row_output
      (row_fold kc (fun _ => false)
         (fun t j => sadd (Fin (prescaled_scores query key_ b h pos (t * kc + j)))
                          (Fin (bread B b h pos (t * kc + j))))
         (fun t j => at4 value b (t * kc + j) h d)
         (mkRow 0 0 NegInf) (kv_len / kc)).
Proof.
  intros q_len kv_len Hdrop Hqc Hkc HLq HLk H2 H3 Hpos.
  pose proof (divides_mul _ _ HLq) as Eq. pose proof (divides_mul _ _ HLk) as Ek.
  unfold blockwise_attn, row_output. cbn [at4 shape]. fold q_len kv_len.
  set (qi := pos / qc). set (c := pos mod qc).
  assert (Hc : c < qc) by (apply Nat.mod_upper_bound; lia).
  assert (Hqpos : qi * qc + c = pos)
    by (unfold qi, c; pose proof (Nat.div_mod_eq pos qc); lia).
  assert (Hqi : qi * qc + qc <= q_len).
  { assert (qi < q_len / qc) by (apply Nat.Div0.div_lt_upper_bound; lia). nia. }
  match goal with
  | |- (a_num ?S _ _ _ _ / _ = ?rhs)%R =>
      change (r_num (attn_row_of S b h c d) / r_den (attn_row_of S b h c d) = rhs)%R
  end.
  rewrite attn_inner_rows.
  change (attn_row_of (mkAttnCarry _ _ _) b h c d) with (mkRow 0 0 NegInf).
  match goal with
  | |- (r_num ?X / r_den ?X = r_num ?Y / r_den ?Y)%R => assert (E : X = Y)
  end.
  { apply row_fold_ext.
    - intros t _. reflexivity.
    - intros t j Ht _ Hj.
      rewrite (@chunk_bias_tile_of_bias qc kc 0 B deterministic _ attn_pdrop q_len kv_len
                 qi t b h c j) by (assumption || nia).
      rewrite Hqpos. f_equal. f_equal.
      unfold prescaled_scores, chunk_of. cbn [at4 shape]. now rewrite Hqpos.
    - intros t j _ _ _. reflexivity. }
  now rewrite E.
Qed.

Lemma blockwise_attn_reads_bias_in_place_witness :
  let x := ones4 (1, 2, 1, 1) in
  let B := mkT4 (1, 1, 1, 2) (fun _ _ _ j => INR j) in
  at4 (blockwise_attn (fun u : unit => (u, u)) (fun _ _ _ _ _ _ _ => false)
         x x x (Some B) true tt 0%R false 1 1) 0 1 0 0
  = row_output
      (row_fold 1 (fun _ => false)
         (fun t j => sadd (Fin (prescaled_scores x x 0 0 1 (t * 1 + j)))
                          (Fin (bread B 0 0 1 (t * 1 + j))))
         (fun t j => at4 x 0 (t * 1 + j) 0 0)
         (mkRow 0 0 NegInf) (2 / 1)).
Proof.
  intros x B.
  apply (@blockwise_attn_reads_bias_in_place unit (fun u : unit => (u, u))
           (fun _ _ _ _ _ _ _ => false) x x x B true tt 0%R 1 1 0 1 0 0);
    cbn; try reflexivity; lia.
Defined.

(** X19.  Dropout in [blockwise_attn] acts as a mask on keys: with dropout
    active, no causal mask and no bias, the output at a query position is
    [numerator / denominator] of the streaming-softmax recurrence over all
    key tiles in increasing order, none skipped, in which a key whose mask
    entry was drawn gets [finfo.min] added to its score and a key whose
    entry was not drawn gets nothing added.  The kept weights are not
    rescaled by [1 / (1 - attn_pdrop)]; the mask is the one
    [jax.random.bernoulli] draws, with the first half of the split key, for
    the whole [(batch, heads, q_len, kv_len)] score matrix. *)
Theorem blockwise_attn_dropout_masks_keys (key : Type)
    (random_split : key -> key * key)
    (random_bernoulli : key -> R -> shape4 -> nat -> nat -> nat -> nat -> bool)
    (query key_ value : Tensor4 R) (deterministic : bool) (dropout_rng : key)
    (attn_pdrop : R) (qc kc : nat) (b pos h d : nat) :
  let batch := dim0 (shape query) in
  let q_len := dim1 (shape query) in
  let num_heads := dim2 (shape query) in
  let kv_len := dim1 (shape key_) in
  let dropped :=
    random_bernoulli (fst (random_split dropout_rng)) attn_pdrop
      (batch, num_heads, q_len, kv_len) b h pos in
  dropout_on deterministic attn_pdrop = true ->
  0 < qc -> 0 < kc -> q_len mod qc = 0 -> kv_len mod kc = 0 ->
  b < batch -> h < num_heads -> pos < q_len ->
  at4 (blockwise_attn random_split random_bernoulli query key_ value None
         deterministic dropout_rng attn_pdrop false qc kc) b pos h d
  = row_output
      (streaming_row kv_len kc (fun _ _ => false)
         (prescaled_scores query key_ b h pos)
         (fun p => negb (dropped p))
         (fun p => at4 value b p h d)
         (fun _ => 0) 1).
Proof.
  intros batch q_len num_heads kv_len dropped Hdrop Hqc Hkc HLq HLk Hb Hh Hpos.
  pose proof (divides_mul _ _ HLq) as Eq. pose proof (divides_mul _ _ HLk) as Ek.
  unfold blockwise_attn, row_output, streaming_row. cbn [at4 shape scan].
  fold batch q_len num_heads kv_len.
  unfold draw_attn_dropout. rewrite Hdrop.
  set (qi := pos / qc). set (c := pos mod qc).
  assert (Hc : c < qc) by (apply Nat.mod_upper_bound; lia).
  assert (Hqpos : qi * qc + c = pos)
    by (unfold qi, c; pose proof (Nat.div_mod_eq pos qc); lia).
  assert (Hqi : qi * qc + qc <= q_len).
  { assert (qi < q_len / qc) by (apply Nat.Div0.div_lt_upper_bound; lia). nia. }
  match goal with
  | |- (a_num ?S _ _ _ _ / _ = ?rhs)%R =>
      change (r_num (attn_row_of S b h c d) / r_den (attn_row_of S b h c d) = rhs)%R
  end.
  rewrite attn_inner_rows.
  change (attn_row_of (mkAttnCarry _ _ _) b h c d) with (mkRow 0 0 NegInf).
  match goal with
  | |- (r_num ?X / r_den ?X = r_num ?Y / r_den ?Y)%R => assert (E : X = Y)
  end.
  { apply row_fold_ext.
    - intros t _. reflexivity.
    - intros t j Ht _ Hj. cbn [Nat.mul Nat.add].
      rewrite (@chunk_bias_dropout_tile qc kc 0 _ deterministic attn_pdrop
                 batch num_heads q_len kv_len qi t b h c j)
        by (assumption || reflexivity || nia).
      cbn [at4]. rewrite Hqpos. fold dropped. f_equal.
      + f_equal. unfold prescaled_scores, chunk_of. cbn [at4 shape]. now rewrite Hqpos.
      + destruct (dropped (t * kc + j)); reflexivity.
    - intros t j _ _ _. reflexivity. }
  now rewrite E.
Qed.

Lemma blockwise_attn_dropout_masks_keys_witness :
  let x := ones4 (1, 2, 1, 1) in
  let split (u : unit) := (u, u) in
  let bern (_ : unit) (_ : R) (_ : shape4) (_ _ _ j : nat) := j =? 0 in
  let dropped := bern (fst (split tt)) 1%R (1, 2, 1, 2) 0 0 1 in
  at4 (blockwise_attn split bern x x x None false tt 1%R false 1 1) 0 1 0 0
  = row_output
      (streaming_row 2 1 (fun _ _ => false) (prescaled_scores x x 0 0 1)
         (fun p => negb (dropped p)) (fun p => at4 x 0 p 0 0) (fun _ => 0) 1).
Proof.
  intros x split bern.
  apply (@blockwise_attn_dropout_masks_keys unit split bern x x x false tt 1%R
           1 1 0 1 0 0);
    try reflexivity; try (cbn; lia).
  unfold dropout_on. cbn. destruct (Rlt_dec 0 1); [reflexivity | lra].
Defined.
